(** * Authentication / session lifecycle of the REST backend

    A shallow embedding of the authentication core:

    - [utils/jwt.js]        (token codec: [generateTokens], [verifyRefreshToken]),
    - [utils/security.js]   ([hashPassword], [comparePassword]),
    - [services/authService.js] ([registerUser], [loginUser],
      [storeRefreshToken], [refreshAccessToken], [logoutUser], [logAuthEvent]),
    - [controllers/authController.js] and [controllers/userController.js]
      ([changePassword], [deleteAccount]),
    - the three tables of the SQL schema ([users], [refresh_tokens],
      [auth_logs]) with their key constraints.

    Modelling conventions.

    - The relational store is a record of three lists of rows.  Each
      service method is a computation in a state-and-exception monad over
      that store: writes made before a [throw] stay in the store, exactly
      as the independent, non-transactional queries of the source.
    - [new Date()] is an explicit argument [now], in milliseconds since the
      epoch; one reading per call.
    - Random values ([uuidv4()], [gen_random_uuid()], the bcrypt salt) are
      explicit arguments; the store rejects an insert that violates a
      PRIMARY KEY, UNIQUE or FOREIGN KEY constraint of the schema.
    - A signed token is modelled symbolically: [Signed k p] is the string
      produced by [jwt.sign(p, k)]; [Unparsable] is a string whose header
      names the type JWT and whose payload is not JSON, on which
      [jwt.decode] throws; any other string is [Garbage].
    - Operational logging ([logger.info], [logger.error]) has no effect on
      the store and is left out; a [catch] block that only logs and
      rethrows is therefore the identity.
    - Column types.  The store converts the values it is given: a text
      for a VARCHAR(n) column of [users] is cut or rejected by length, a
      number for the INTEGER column [failed_login_attempts] is rejected
      out of range, and the path parameter compared with the UUID column
      [refresh_tokens.id] is rejected when it is not the text of a uuid.
      Strings are ASCII text, one character per byte.  Ids are opaque
      strings (the examples use short names for them), [req.ip] is an
      address that the INET column accepts, and a hash, a digest and a
      correlation id have the fixed lengths their generators give them,
      within their columns.
    - Time.  An instant is a number of milliseconds and stands for a
      date that the ISO notation prints with a year of four digits, as
      which a timestamp column reads back what was written to it; the
      statements on the lock instant, which the code computes, say so
      ([four_digit_year]).  [setMinutes] works on local time: the
      server's offset from UTC is taken not to change during a lockout.
    - Numbers are doubles in the source.  The window of [getAuthLogs]
      is followed as far as the integers a double holds exactly;
      elsewhere instants, lifetimes and counters are integers of that
      range.
    - Row-level security (bypassed by the service-role client) and the
      [updated_at] triggers are not modelled; a filter built by
      interpolation into [.or(...)] is read as the two equalities it
      spells for values free of the filter syntax's reserved characters. *)

From Stdlib Require Import ZArith List String Bool Lia.
From Stdlib Require DecimalFacts DecimalPos DecimalString.
Import ListNotations.

Local Open Scope string_scope.
Local Open Scope Z_scope.

(* ===================================================================== *)
(** ** JavaScript helpers *)
(* ===================================================================== *)

(** [s || null] on an optional string: [undefined], [null] and the empty
    string are falsy. *)
Definition or_null (s : option string) : option string :=
  match s with
  | Some "" => None
  | Some v => Some v
  | None => None
  end.

(** Truthiness of an optional string. *)
Definition truthy (s : option string) : bool :=
  match or_null s with
  | Some _ => true
  | None => false
  end.

(** [n || d] on the result of [parseInt] ([None] is NaN): NaN and 0 are
    falsy. *)
Definition or_default (n : option Z) (d : Z) : Z :=
  match n with
  | Some v => if v =? 0 then d else v
  | None => d
  end.

(** Interpolation of a possibly [undefined] string into a template
    literal, as done by the query builder for filter values. *)
Definition js_string (s : option string) : string :=
  match s with
  | Some v => v
  | None => "undefined"
  end.

(** Free-form JSON values stored in [auth_logs.metadata]. *)
Inductive Json : Type :=
| JStr (s : string)
| JNum (n : Z).

(* ===================================================================== *)
(** ** The relational schema *)
(* ===================================================================== *)

Module Users.
Record row : Type := mk {
  id : string;
  username : string;
  email : string;
  password_hash : string;
  first_name : option string;
  last_name : option string;
  phone : option string;
  is_active : bool;
  email_verified : bool;
  failed_login_attempts : option Z;
  locked_until : option Z;
  last_login : option Z;
  created_at : Z
}.

(** The object passed to [.update(...)]: a column is written only when
    it is present in the object. *)
Record patch : Type := mkPatch {
  set_password_hash : option string;
  set_failed_login_attempts : option (option Z);
  set_locked_until : option (option Z);
  set_last_login : option (option Z)
}.

Definition assign {A} (new : option A) (old : A) : A :=
  match new with Some v => v | None => old end.

Definition apply (p : patch) (u : row) : row :=
  mk (id u) (username u) (email u)
     (assign (set_password_hash p) (password_hash u))
     (first_name u) (last_name u) (phone u)
     (is_active u) (email_verified u)
     (assign (set_failed_login_attempts p) (failed_login_attempts u))
     (assign (set_locked_until p) (locked_until u))
     (assign (set_last_login p) (last_login u))
     (created_at u).
End Users.

Module RefreshTokens.
Record row : Type := mk {
  id : string;
  user_id : string;
  token_id : string;
  token_hash : string;
  expires_at : Z;
  is_revoked : bool
}.

(** [.update({ is_revoked: true })] on one row. *)
Definition revoke (r : row) : row :=
  mk (id r) (user_id r) (token_id r) (token_hash r) (expires_at r) true.
End RefreshTokens.

Module AuthLogs.
Record row : Type := mk {
  user_id : option string;
  event_type : string;
  ip_address : option string;
  user_agent : option string;
  success : bool;
  error_message : option string;
  metadata : option (list (string * Json))
}.
End AuthLogs.

Record Db : Type := mkDb {
  users : list Users.row;
  refresh_tokens : list RefreshTokens.row;
  auth_logs : list AuthLogs.row
}.

(** Errors reported by the store for a rejected statement. *)
Inductive DbError : Type :=
| UniqueViolation (constraint : string)
| ForeignKeyViolation (table constraint : string)
| NotNullViolation (column relation : string)
| ValueTooLong (n : nat)
| IntegerOutOfRange (v : Z)
| InvalidUuid (raw : string).

(** The double quote the store puts around names and values. *)
Definition dq : string := String (Ascii.ascii_of_nat 34) EmptyString.

Definition nat_text (n : nat) : string :=
  DecimalString.NilZero.string_of_uint (Nat.to_uint n).

Definition Z_text (z : Z) : string :=
  DecimalString.NilZero.string_of_int (Z.to_int z).

Definition db_error_message (e : DbError) : string :=
  match e with
  | UniqueViolation c =>
      "duplicate key value violates unique constraint " ++ dq ++ c ++ dq
  | ForeignKeyViolation t c =>
      "insert or update on table " ++ dq ++ t ++ dq
      ++ " violates foreign key constraint " ++ dq ++ c ++ dq
  | NotNullViolation c r =>
      "null value in column " ++ dq ++ c ++ dq ++ " of relation " ++ dq ++ r ++ dq
      ++ " violates not-null constraint"
  | ValueTooLong n =>
      "value too long for type character varying(" ++ nat_text n ++ ")"
  | IntegerOutOfRange v =>
      "value " ++ dq ++ Z_text v ++ dq ++ " is out of range for type integer"
  | InvalidUuid raw =>
      "invalid input syntax for type uuid: " ++ dq ++ raw ++ dq
  end.

(** [.single()]: the data is the row when the query yields exactly one
    row, and [null] (with an error the callers fold into the same test)
    when it yields none or several. *)
Definition single {A : Type} (rows : list A) : option A :=
  match rows with
  | [r] => Some r
  | _ => None
  end.

Definition user_exists (uid : string) (db : Db) : bool :=
  existsb (fun u => Users.id u =? uid)%string (users db).

Definition is_space (c : Ascii.ascii) : bool :=
  Ascii.eqb c (Ascii.ascii_of_nat 32).

(** A value given for a VARCHAR(n) column: a longer value is an error,
    unless every character in excess is a space, and then the excess is
    dropped. *)
Definition varchar (n : nat) (s : string) : option string :=
  if (String.length s <=? n)%nat then Some s
  else if forallb is_space
            (list_ascii_of_string (substring n (String.length s - n) s))
       then Some (substring 0 n s)
       else None.

Definition varchar_null (n : nat) (o : option string) : option (option string) :=
  match o with
  | Some s => option_map Some (varchar n s)
  | None => Some None
  end.

(** The row as the store holds it once the values given for [username]
    VARCHAR(30), [email] VARCHAR(255), [first_name] and [last_name]
    VARCHAR(50) and [phone] VARCHAR(20) have been converted.
    ([password_hash] VARCHAR(255) holds the 60 characters of a bcrypt
    hash; ids and timestamps are drawn by the store.) *)
Definition users_input (u : Users.row) : DbError + Users.row :=
  match varchar 30 (Users.username u) with
  | None => inl (ValueTooLong 30)
  | Some username_ =>
      match varchar 255 (Users.email u) with
      | None => inl (ValueTooLong 255)
      | Some email_ =>
          match varchar_null 50 (Users.first_name u) with
          | None => inl (ValueTooLong 50)
          | Some first_name_ =>
              match varchar_null 50 (Users.last_name u) with
              | None => inl (ValueTooLong 50)
              | Some last_name_ =>
                  match varchar_null 20 (Users.phone u) with
                  | None => inl (ValueTooLong 20)
                  | Some phone_ =>
                      inr (Users.mk (Users.id u) username_ email_
                             (Users.password_hash u) first_name_ last_name_
                             phone_ (Users.is_active u) (Users.email_verified u)
                             (Users.failed_login_attempts u)
                             (Users.locked_until u) (Users.last_login u)
                             (Users.created_at u))
                  end
              end
          end
      end
  end.

(** INSERT INTO users ... RETURNING: the values are converted to the
    column types, then PRIMARY KEY (id), UNIQUE (username) and UNIQUE
    (email) are checked on the converted row, which is what is stored and
    returned. *)
Definition insert_user (u : Users.row) (db : Db) : Db * (DbError + Users.row) :=
  match users_input u with
  | inl e => (db, inl e)
  | inr v =>
      if existsb (fun w => Users.id w =? Users.id v)%string (users db) then
        (db, inl (UniqueViolation "users_pkey"))
      else if existsb (fun w => Users.username w =? Users.username v)%string
                      (users db) then
        (db, inl (UniqueViolation "users_username_key"))
      else if existsb (fun w => Users.email w =? Users.email v)%string (users db) then
        (db, inl (UniqueViolation "users_email_key"))
      else
        (mkDb (users db ++ [v]) (refresh_tokens db) (auth_logs db), inr v)
  end.

(** [failed_login_attempts] is an INTEGER column. *)
Definition int4 (v : Z) : bool := (-2147483648 <=? v) && (v <=? 2147483647).

(** The rows after an accepted UPDATE users SET ... WHERE id = uid. *)
Definition patch_users (uid : string) (p : Users.patch) (db : Db) : Db :=
  mkDb (map (fun u => if (Users.id u =? uid)%string then Users.apply p u else u)
            (users db))
       (refresh_tokens db) (auth_logs db).

(** UPDATE users SET ... WHERE id = uid.  A value for
    [failed_login_attempts] outside the INTEGER range is rejected and no
    row changes.  (The values given for the other columns are a hash of
    fixed length, timestamps and NULL.) *)
Definition update_user (uid : string) (p : Users.patch) (db : Db)
  : Db * option DbError :=
  match Users.set_failed_login_attempts p with
  | Some (Some v) =>
      if int4 v then (patch_users uid p db, None)
      else (db, Some (IntegerOutOfRange v))
  | _ => (patch_users uid p db, None)
  end.

(** INSERT INTO refresh_tokens: PRIMARY KEY (id), UNIQUE (token_id),
    user_id REFERENCES users(id).  ([token_id] and [token_hash]
    VARCHAR(255) hold the 36 characters of a [uuidv4()] and the 64 of a
    hexadecimal SHA-256 digest.) *)
Definition insert_refresh_token (r : RefreshTokens.row) (db : Db)
  : Db * option DbError :=
  if existsb (fun q => RefreshTokens.id q =? RefreshTokens.id r)%string
             (refresh_tokens db) then
    (db, Some (UniqueViolation "refresh_tokens_pkey"))
  else if existsb (fun q => RefreshTokens.token_id q =? RefreshTokens.token_id r)%string
                  (refresh_tokens db) then
    (db, Some (UniqueViolation "refresh_tokens_token_id_key"))
  else if negb (user_exists (RefreshTokens.user_id r) db) then
    (db, Some (ForeignKeyViolation "refresh_tokens" "refresh_tokens_user_id_fkey"))
  else
    (mkDb (users db) (refresh_tokens db ++ [r]) (auth_logs db), None).

(** UPDATE refresh_tokens SET is_revoked = true WHERE <filter>. *)
Definition revoke_where (filter : RefreshTokens.row -> bool) (db : Db) : Db :=
  mkDb (users db)
       (map (fun r => if filter r then RefreshTokens.revoke r else r)
            (refresh_tokens db))
       (auth_logs db).

(** A text compared with a UUID column: the store converts it first and
    rejects the statement when the text is not the notation of a UUID;
    [Uuid v] is a text that is one, [v] being the value as the store
    prints it. *)
Inductive UuidText : Type :=
| NotUuid (raw : string)
| Uuid (value : string).

Definition append_log (e : AuthLogs.row) (db : Db) : Db :=
  mkDb (users db) (refresh_tokens db) (auth_logs db ++ [e]).

(** INSERT INTO auth_logs: user_id REFERENCES users(id) and may be NULL. *)
Definition insert_auth_log (e : AuthLogs.row) (db : Db) : Db * option DbError :=
  match AuthLogs.user_id e with
  | Some uid =>
      if user_exists uid db then (append_log e db, None)
      else (db, Some (ForeignKeyViolation "auth_logs" "auth_logs_user_id_fkey"))
  | None => (append_log e db, None)
  end.

(** DELETE FROM users WHERE id = uid, with ON DELETE CASCADE on
    [refresh_tokens.user_id] and ON DELETE SET NULL on
    [auth_logs.user_id]. *)
Definition delete_user (uid : string) (db : Db) : Db :=
  mkDb (filter (fun u => negb (Users.id u =? uid)%string) (users db))
       (filter (fun r => negb (RefreshTokens.user_id r =? uid)%string)
               (refresh_tokens db))
       (map (fun e =>
               match AuthLogs.user_id e with
               | Some v =>
                   if (v =? uid)%string then
                     AuthLogs.mk None (AuthLogs.event_type e)
                       (AuthLogs.ip_address e) (AuthLogs.user_agent e)
                       (AuthLogs.success e) (AuthLogs.error_message e)
                       (AuthLogs.metadata e)
                   else e
               | None => e
               end)
            (auth_logs db)).

(* ===================================================================== *)
(** ** Errors and the store-and-exception monad *)
(* ===================================================================== *)

(** The source throws plain [Error] objects that differ by their message
    only; one constructor per message. *)
Inductive Error : Type :=
| UserAlreadyExists (field : string)
| FailedToCreateUser (e : DbError)
| InvalidCredentials
| AccountLocked
| AccountDeactivated
| FailedToStoreRefreshToken (e : DbError)
| InvalidOrExpiredRefreshToken
| InvalidRefreshToken
| RefreshTokenExpired
| UserNotFoundOrInactive
| UserNotFound
| TypeError (what : string)
| SyntaxError (complaint : string)
| FailedToUpdatePassword (e : DbError)
| FailedToRevokeSession (e : DbError).

Definition error_message (e : Error) : string :=
  match e with
  | UserAlreadyExists field => "User with this " ++ field ++ " already exists"
  | FailedToCreateUser d => "Failed to create user: " ++ db_error_message d
  | InvalidCredentials => "Invalid credentials"
  | AccountLocked =>
      "Account is temporarily locked due to too many failed attempts"
  | AccountDeactivated => "Account is deactivated"
  | FailedToStoreRefreshToken d =>
      "Failed to store refresh token: " ++ db_error_message d
  | InvalidOrExpiredRefreshToken => "Invalid or expired refresh token"
  | InvalidRefreshToken => "Invalid refresh token"
  | RefreshTokenExpired => "Refresh token expired"
  | UserNotFoundOrInactive => "User not found or inactive"
  | UserNotFound => "User not found"
  | TypeError what => "Cannot read properties of null (reading '" ++ what ++ "')"
  | SyntaxError complaint => complaint
  | FailedToUpdatePassword d => "Failed to update password: " ++ db_error_message d
  | FailedToRevokeSession d => "Failed to revoke session: " ++ db_error_message d
  end.

(** The error taxonomy of the design, read off the thrown message: the
    three ways a refresh is refused before the expiry test or for want of
    an active user are one kind, "Refresh token expired" is a kind of its
    own, and the messages that wrap an error of the store (or a failed
    lookup in a handler), like the errors a library raises on its own,
    are storage failures. *)
Inductive ErrorKind : Type :=
| ConflictError
| InvalidCredentialsError
| AccountLockedError
| AccountInactiveError
| InvalidTokenError
| ExpiredTokenError
| StorageError.

Definition error_kind (e : Error) : ErrorKind :=
  match e with
  | UserAlreadyExists _ => ConflictError
  | FailedToCreateUser _ => StorageError
  | InvalidCredentials => InvalidCredentialsError
  | AccountLocked => AccountLockedError
  | AccountDeactivated => AccountInactiveError
  | FailedToStoreRefreshToken _ => StorageError
  | InvalidOrExpiredRefreshToken => InvalidTokenError
  | InvalidRefreshToken => InvalidTokenError
  | RefreshTokenExpired => ExpiredTokenError
  | UserNotFoundOrInactive => InvalidTokenError
  | UserNotFound => StorageError
  | TypeError _ => StorageError
  | SyntaxError _ => StorageError
  | FailedToUpdatePassword _ => StorageError
  | FailedToRevokeSession _ => StorageError
  end.

Inductive Outcome (A : Type) : Type :=
| Returned (a : A)
| Thrown (e : Error).
Arguments Returned {A} a.
Arguments Thrown {A} e.

(** An [async] method over the store: it maps the store before the call
    to the store after it and to what the call returned or threw. *)
Definition M (A : Type) : Type := Db -> Db * Outcome A.

Definition ret {A} (a : A) : M A := fun db => (db, Returned a).

Definition throw {A} (e : Error) : M A := fun db => (db, Thrown e).

Definition bind {A B} (c : M A) (k : A -> M B) : M B :=
  fun db =>
    match c db with
    | (db', Returned a) => k a db'
    | (db', Thrown e) => (db', Thrown e)
    end.

(** A read-only query. *)
Definition query {A} (f : Db -> A) : M A := fun db => (db, Returned (f db)).

(** A write that cannot be rejected. *)
Definition exec (f : Db -> Db) : M unit := fun db => (f db, Returned tt).

(** A write that may be rejected: what the store answers (its error, or
    the row it stored) is returned, not thrown. *)
Definition attempt {A} (f : Db -> Db * A) : M A :=
  fun db => let (db', a) := f db in (db', Returned a).

Declare Scope auth_scope.
Delimit Scope auth_scope with auth.
Notation "x <- c ;; k" := (bind c (fun x => k))
  (at level 61, c at next level, right associativity) : auth_scope.
Notation "c ;; k" := (bind c (fun _ => k))
  (at level 61, right associativity) : auth_scope.
Local Open Scope auth_scope.

Definition store_after {A} (r : Db * Outcome A) : Db := fst r.
Definition outcome {A} (r : Db * Outcome A) : Outcome A := snd r.

(* ===================================================================== *)
(** ** Token codec ([utils/jwt.js]) and password hasher ([utils/security.js]) *)
(* ===================================================================== *)

Record Payload : Type := mkPayload {
  userId : string;
  username : string;
  email : option string;
  tokenId : option string;
  type : string;
  iat : Z;
  exp : Z;
  iss : string;
  aud : string
}.

(** A string presented as a token: [Signed k p] stands for the compact
    serialisation of payload [p] signed with key [k]; [Unparsable] for a
    string of three base64url parts whose header is a JSON object with
    [typ] "JWT" and whose payload is not JSON, [complaint] being the
    message of the [SyntaxError] that [JSON.parse] raises on it;
    [Garbage] for any other string, from which no claims can be read.
    ([jwt.decode] gives [null] for it, or a payload that is not an
    object; the methods that decode a presented token test the claim
    they read and so treat the two alike.) *)
Inductive Token : Type :=
| Garbage (raw : string)
| Unparsable (raw complaint : string)
| Signed (key : string) (p : Payload).

(** The process environment and the cryptographic libraries the service
    is linked against. *)
Class Env : Type := {
  JWT_SECRET : string;
  JWT_REFRESH_SECRET : string;
  JWT_EXPIRES_IN : string;
  JWT_REFRESH_EXPIRES_IN : string;
  (** [parseInt(process.env.MAX_LOGIN_ATTEMPTS)]; [None] is NaN *)
  MAX_LOGIN_ATTEMPTS : option Z;
  (** [parseInt(process.env.LOCKOUT_TIME)]; [None] is NaN *)
  LOCKOUT_TIME : option Z;
  (** seconds denoted by an [expiresIn] string such as ["15m"] *)
  timespan : string -> Z;
  (** [crypto.createHash('sha256').update(t).digest('hex')] *)
  sha256 : Token -> string;
  (** [bcrypt.hash(password, salt)] *)
  bcrypt_hash : string -> string -> string;
  (** [bcrypt.compare(password, hash)] *)
  bcrypt_compare : string -> string -> bool
}.

Definition ISSUER : string := "secure-auth-backend".
Definition AUDIENCE : string := "react-native-app".

(** What [generateTokens] and the token-issuing methods read of a user
    row or of a selected projection of it. *)
Record Identity : Type := mkIdentity {
  ident_id : string;
  ident_username : string;
  ident_email : string
}.

Definition identity_of (u : Users.row) : Identity :=
  mkIdentity (Users.id u) (Users.username u) (Users.email u).

Record Tokens : Type := mkTokens {
  accessToken : Token;
  refreshToken : Token;
  expiresIn : string
}.

Section Codec.
Context {E : Env}.

(** [Math.floor(Date.now() / 1000)] *)
Definition seconds (now : Z) : Z := now / 1000.

Definition generateAccessToken (payload : Identity) (now : Z) : Token :=
  Signed JWT_SECRET
    (mkPayload (ident_id payload) (ident_username payload)
       (Some (ident_email payload)) None "access"
       (seconds now) (seconds now + timespan JWT_EXPIRES_IN)
       ISSUER AUDIENCE).

Definition generateRefreshToken (payload : Identity) (now : Z) (uuid : string)
  : Token :=
  Signed JWT_REFRESH_SECRET
    (mkPayload (ident_id payload) (ident_username payload)
       None (Some uuid) "refresh"
       (seconds now) (seconds now + timespan JWT_REFRESH_EXPIRES_IN)
       ISSUER AUDIENCE).

Definition generateTokens (user : Identity) (now : Z) (uuid : string) : Tokens :=
  mkTokens (generateAccessToken user now)
           (generateRefreshToken user now uuid)
           JWT_EXPIRES_IN.

(** [jwt.decode]: the payload, without any check; [null] on a string
    that is not a token.  The payload behind a header of type "JWT" is
    parsed without a guard, so the call throws when it is not JSON. *)
Definition jwt_decode (t : Token) : Outcome (option Payload) :=
  match t with
  | Signed _ p => Returned (Some p)
  | Garbage _ => Returned None
  | Unparsable _ complaint => Thrown (SyntaxError complaint)
  end.

(** [jwt.verify(token, secret, { issuer, audience })]: signature, expiry,
    issuer and audience; [None] stands for any of the errors it raises,
    that of a failed decoding included. *)
Definition jwt_verify (t : Token) (secret : string) (now : Z) : option Payload :=
  match t with
  | Signed k p =>
      if (k =? secret)%string && (seconds now <? exp p)
         && (iss p =? ISSUER)%string && (aud p =? AUDIENCE)%string
      then Some p else None
  | Garbage _ => None
  | Unparsable _ _ => None
  end.

Definition verifyRefreshToken (t : Token) (now : Z) : M Payload :=
  match jwt_verify t JWT_REFRESH_SECRET now with
  | Some p => ret p
  | None => throw InvalidOrExpiredRefreshToken
  end.

Definition hashPassword (password salt : string) : string :=
  bcrypt_hash password salt.

Definition comparePassword (password hash : string) : bool :=
  bcrypt_compare password hash.
End Codec.

(* ===================================================================== *)
(** ** [services/authService.js] *)
(* ===================================================================== *)

(** The argument object of [logAuthEvent]. *)
Record AuthEvent : Type := mkEvent {
  ev_userId : option string;
  ev_eventType : string;
  ev_success : bool;
  ev_ipAddress : option string;
  ev_userAgent : option string;
  ev_errorMessage : option string;
  ev_metadata : option (list (string * Json))
}.

(** The [user] object of a service result; a field the method does not
    put in the object is [None]. *)
Record UserView : Type := mkView {
  view_id : string;
  view_username : string;
  view_email : string;
  view_firstName : option (option string);
  view_lastName : option (option string);
  view_phone : option (option string);
  view_createdAt : option Z;
  view_lastLogin : option (option Z)
}.

Record AuthResult : Type := mkResult {
  user : UserView;
  tokens : Tokens
}.

Record UserData : Type := mkUserData {
  ud_username : string;
  ud_email : string;
  ud_password : string;
  ud_firstName : option string;
  ud_lastName : option string;
  ud_phone : option string
}.

(** [.or(`username.eq.${a},email.eq.${b}`)] on [users]. *)
Definition username_or_email (a b : string) (u : Users.row) : bool :=
  (Users.username u =? a)%string || (Users.email u =? b)%string.

Definition select_users (filter_ : Users.row -> bool) : M (list Users.row) :=
  query (fun db => filter filter_ (users db)).

Definition select_refresh_tokens (filter_ : RefreshTokens.row -> bool)
  : M (list RefreshTokens.row) :=
  query (fun db => filter filter_ (refresh_tokens db)).

Section AuthService.
Context {E : Env}.

(** The row [logAuthEvent] inserts. *)
Definition auth_log_row (ev : AuthEvent) : AuthLogs.row :=
  AuthLogs.mk (or_null (ev_userId ev))
    (ev_eventType ev)
    (or_null (ev_ipAddress ev))
    (or_null (ev_userAgent ev))
    (ev_success ev)
    (or_null (ev_errorMessage ev))
    (ev_metadata ev).

(** Never throws: a rejected insert is dropped. *)
Definition logAuthEvent (ev : AuthEvent) : M unit :=
  _ <- attempt (insert_auth_log (auth_log_row ev)) ;;
  ret tt.

(** [row_id] is the primary key the store draws for the new row. *)
Definition storeRefreshToken (userId_ : string) (refreshToken_ : Token)
           (row_id : string) : M unit :=
  match jwt_decode refreshToken_ with
  | Thrown e => throw e
  | Returned None => throw (TypeError "tokenId")
  | Returned (Some decoded) =>
      let tokenHash := sha256 refreshToken_ in
      match tokenId decoded with
      | None =>
          throw (FailedToStoreRefreshToken
                   (NotNullViolation "token_id" "refresh_tokens"))
      | Some tid =>
          error <- attempt (insert_refresh_token
                              (RefreshTokens.mk row_id userId_ tid tokenHash
                                 (exp decoded * 1000) false)) ;;
          match error with
          | Some e => throw (FailedToStoreRefreshToken e)
          | None => ret tt
          end
      end
  end.

(** [user_uuid] and [row_id] are drawn by the store, [salt] by bcrypt and
    [token_uuid] by [uuidv4()]. *)
Definition registerUser (userData : UserData) (now : Z)
           (salt user_uuid token_uuid row_id : string) : M AuthResult :=
  let username_ := ud_username userData in
  let email_ := ud_email userData in
  rows <- select_users (username_or_email username_ email_) ;;
  match single rows with
  | Some existingUser =>
      let field := if (Users.username existingUser =? username_)%string
                   then "username" else "email" in
      throw (UserAlreadyExists field)
  | None =>
      let passwordHash := hashPassword (ud_password userData) salt in
      let values :=
        Users.mk user_uuid username_ email_ passwordHash
          (or_null (ud_firstName userData))
          (or_null (ud_lastName userData))
          (or_null (ud_phone userData))
          true false (Some 0) None None now in
      inserted <- attempt (insert_user values) ;;
      match inserted with
      | inl e => throw (FailedToCreateUser e)
      | inr newUser =>
          logAuthEvent
            (mkEvent (Some (Users.id newUser)) "register" true None None None
               (Some [("username", JStr username_); ("email", JStr email_)])) ;;
          let tokens_ := generateTokens (identity_of newUser) now token_uuid in
          storeRefreshToken (Users.id newUser) (refreshToken tokens_) row_id ;;
          ret (mkResult
                 (mkView (Users.id newUser) (Users.username newUser)
                    (Users.email newUser)
                    (Some (Users.first_name newUser))
                    (Some (Users.last_name newUser))
                    (Some (Users.phone newUser))
                    (Some (Users.created_at newUser)) None)
                 tokens_)
      end
  end.

(** [user.locked_until && new Date(user.locked_until) > new Date()] *)
Definition is_locked (u : Users.row) (now : Z) : bool :=
  match Users.locked_until u with
  | Some until => now <? until
  | None => false
  end.

Definition maxAttempts : Z := or_default MAX_LOGIN_ATTEMPTS 5.
Definition lockoutTime : Z := or_default LOCKOUT_TIME 15.

(** [(user.failed_login_attempts || 0) + 1] *)
Definition next_failedAttempts (u : Users.row) : Z :=
  or_default (Users.failed_login_attempts u) 0 + 1.

(** [lockUntil.setMinutes(lockUntil.getMinutes() + lockoutTime)] on the
    current time, for a server whose local time keeps its offset from
    UTC in between. *)
Definition lockUntil (now : Z) : Z := now + lockoutTime * 60000.

(** The update object of the wrong-password branch. *)
Definition failed_login_update (u : Users.row) (now : Z) : Users.patch :=
  let failedAttempts := next_failedAttempts u in
  Users.mkPatch None (Some (Some failedAttempts))
    (if maxAttempts <=? failedAttempts then Some (Some (lockUntil now)) else None)
    None.

Definition loginUser (identifier password : string)
           (ipAddress userAgent : option string) (now : Z)
           (token_uuid row_id : string) : M AuthResult :=
  rows <- select_users (username_or_email identifier identifier) ;;
  match single rows with
  | None =>
      logAuthEvent
        (mkEvent None "failed_login" false ipAddress userAgent
           (Some "User not found") (Some [("identifier", JStr identifier)])) ;;
      throw InvalidCredentials
  | Some user_ =>
      if is_locked user_ now then
        logAuthEvent
          (mkEvent (Some (Users.id user_)) "failed_login" false ipAddress
             userAgent (Some "Account locked")
             (Some [("identifier", JStr identifier)])) ;;
        throw AccountLocked
      else if negb (Users.is_active user_) then
        logAuthEvent
          (mkEvent (Some (Users.id user_)) "failed_login" false ipAddress
             userAgent (Some "Account inactive")
             (Some [("identifier", JStr identifier)])) ;;
        throw AccountDeactivated
      else if negb (comparePassword password (Users.password_hash user_)) then
        attempt (update_user (Users.id user_) (failed_login_update user_ now)) ;;
        logAuthEvent
          (mkEvent (Some (Users.id user_)) "failed_login" false ipAddress
             userAgent (Some "Invalid password")
             (Some [("identifier", JStr identifier);
                    ("failedAttempts", JNum (next_failedAttempts user_))])) ;;
        throw InvalidCredentials
      else
        attempt (update_user (Users.id user_)
                   (Users.mkPatch None (Some (Some 0)) (Some None)
                      (Some (Some now)))) ;;
        let tokens_ := generateTokens (identity_of user_) now token_uuid in
        storeRefreshToken (Users.id user_) (refreshToken tokens_) row_id ;;
        logAuthEvent
          (mkEvent (Some (Users.id user_)) "login" true ipAddress userAgent
             None (Some [("identifier", JStr identifier)])) ;;
        ret (mkResult
               (mkView (Users.id user_) (Users.username user_)
                  (Users.email user_)
                  (Some (Users.first_name user_))
                  (Some (Users.last_name user_))
                  (Some (Users.phone user_))
                  (Some (Users.created_at user_))
                  (Some (Users.last_login user_)))
               tokens_)
  end.


(** The filter of the ledger lookup in [refreshAccessToken]. *)
Definition matches_presented (decoded : Payload) (tokenHash : string)
           (r : RefreshTokens.row) : bool :=
  (RefreshTokens.token_id r =? js_string (tokenId decoded))%string
  && (RefreshTokens.token_hash r =? tokenHash)%string
  && negb (RefreshTokens.is_revoked r).

Definition refreshAccessToken (refreshToken_ : Token) (now : Z)
           (token_uuid row_id : string) : M AuthResult :=
  decoded <- verifyRefreshToken refreshToken_ now ;;
  let tokenHash := sha256 refreshToken_ in
  rows <- select_refresh_tokens (matches_presented decoded tokenHash) ;;
  match single rows with
  | None => throw InvalidRefreshToken
  | Some storedToken =>
      if RefreshTokens.expires_at storedToken <? now then
        throw RefreshTokenExpired
      else
        urows <- select_users (fun u => (Users.id u =? userId decoded)%string) ;;
        match single urows with
        | None => throw UserNotFoundOrInactive
        | Some user_ =>
            if negb (Users.is_active user_) then throw UserNotFoundOrInactive
            else
              let tokens_ := generateTokens (identity_of user_) now token_uuid in
              exec (revoke_where
                      (fun r => (RefreshTokens.id r
                                 =? RefreshTokens.id storedToken)%string)) ;;
              storeRefreshToken (Users.id user_) (refreshToken tokens_) row_id ;;
              ret (mkResult
                     (mkView (Users.id user_) (Users.username user_)
                        (Users.email user_) None None None None None)
                     tokens_)
        end
  end.

(** The filter of the update in [logoutUser]. *)
Definition owned_token (tid userId_ : string) (r : RefreshTokens.row) : bool :=
  (RefreshTokens.token_id r =? tid)%string
  && (RefreshTokens.user_id r =? userId_)%string.

(** [refreshToken_] is [None] when the request body has no such field. *)
Definition logoutUser (userId_ : string) (refreshToken_ : option Token)
  : M unit :=
  match refreshToken_ with
  | Some t =>
      match jwt_decode t with
      | Thrown e => throw e
      | Returned (Some decoded) =>
          match or_null (tokenId decoded) with
          | Some tid => exec (revoke_where (owned_token tid userId_))
          | None => ret tt
          end
      | Returned None => ret tt
      end
  | None => ret tt
  end ;;
  logAuthEvent (mkEvent (Some userId_) "logout" true None None None None).
End AuthService.

(* ===================================================================== *)
(** ** Controllers *)
(* ===================================================================== *)

(** What the client receives: the HTTP status and the JSON body. *)
Record Response : Type := mkResponse {
  status : Z;
  success : bool;
  message : string;
  data : option AuthResult
}.

(** [error.message || fallback] *)
Definition message_or (m fallback : string) : string :=
  if (m =? "")%string then fallback else m.

(** [try { ... } catch (error) { res.status(...).json(...) }] around a
    handler body. *)
Definition handle (body : M Response) (on_error : Error -> Response)
  : Db -> Db * Response :=
  fun db =>
    match body db with
    | (db', Returned r) => (db', r)
    | (db', Thrown e) => (db', on_error e)
    end.

(** The parts of an HTTP request the handlers read. *)
Record Request : Type := mkRequest {
  req_ip : option string;
  req_userAgent : option string;
  (** [req.user.id], set by the [authenticateToken] middleware *)
  req_user_id : string
}.

(** [req.body.refreshToken] when truthy: an absent field and the empty
    string are falsy. *)
Definition given_token (t : option Token) : option Token :=
  match t with
  | Some (Garbage "") => None
  | Some v => Some v
  | None => None
  end.

Section AuthController.
Context {E : Env}.

Definition auth_payload (msg : string) (st : Z) (result : AuthResult) : Response :=
  mkResponse st true msg (Some result).

Definition register (req : Request) (body : UserData) (now : Z)
           (salt user_uuid token_uuid row_id : string) : Db -> Db * Response :=
  handle
    (result <- registerUser body now salt user_uuid token_uuid row_id ;;
     logAuthEvent
       (mkEvent (Some (view_id (user result))) "register" true
          (req_ip req) (req_userAgent req) None
          (Some [("username", JStr (ud_username body));
                 ("email", JStr (ud_email body))])) ;;
     ret (auth_payload "User registered successfully" 201 result))
    (fun error =>
       mkResponse 400 false
         (message_or (error_message error) "Registration failed") None).

Definition login (req : Request) (identifier password : string) (now : Z)
           (token_uuid row_id : string) : Db -> Db * Response :=
  handle
    (result <- loginUser identifier password (req_ip req) (req_userAgent req)
                 now token_uuid row_id ;;
     ret (auth_payload "Login successful" 200 result))
    (fun error =>
       mkResponse 401 false
         (message_or (error_message error) "Login failed") None).

Definition refreshToken_handler (req : Request) (presented : option Token)
           (now : Z) (token_uuid row_id : string) : Db -> Db * Response :=
  handle
    (match given_token presented with
     | Some t =>
         result <- refreshAccessToken t now token_uuid row_id ;;
         ret (auth_payload "Token refreshed successfully" 200 result)
     | None => ret (mkResponse 400 false "Refresh token is required" None)
     end)
    (fun error =>
       mkResponse 401 false
         (message_or (error_message error) "Token refresh failed") None).

Definition logout (req : Request) (presented : option Token)
  : Db -> Db * Response :=
  handle
    (logoutUser (req_user_id req) presented ;;
     ret (mkResponse 200 true "Logout successful" None))
    (fun _ => mkResponse 500 false "Logout failed" None).
End AuthController.

Section UserController.
Context {E : Env}.

Definition changePassword (req : Request) (currentPassword newPassword : string)
           (salt : string) : Db -> Db * Response :=
  let userId_ := req_user_id req in
  handle
    (rows <- select_users (fun u => (Users.id u =? userId_)%string) ;;
     match single rows with
     | None => throw UserNotFound
     | Some user_ =>
         if negb (comparePassword currentPassword (Users.password_hash user_))
         then
           logAuthEvent
             (mkEvent (Some userId_) "password_change" false
                (req_ip req) (req_userAgent req)
                (Some "Invalid current password") None) ;;
           ret (mkResponse 400 false "Current password is incorrect" None)
         else
           let newPasswordHash := hashPassword newPassword salt in
           updateError <- attempt (update_user userId_
                                     (Users.mkPatch (Some newPasswordHash)
                                        None None None)) ;;
           match updateError with
           | Some e => throw (FailedToUpdatePassword e)
           | None => ret tt
           end ;;
           exec (revoke_where
                   (fun r => (RefreshTokens.user_id r =? userId_)%string)) ;;
           logAuthEvent
             (mkEvent (Some userId_) "password_change" true
                (req_ip req) (req_userAgent req) None None) ;;
           ret (mkResponse 200 true
                  "Password changed successfully. Please log in again with your new password."
                  None)
     end)
    (fun error =>
       mkResponse 500 false
         (message_or (error_message error) "Failed to change password") None).

(** [password] is [None] when the request body has no such field. *)
Definition deleteAccount (req : Request) (password : option string)
  : Db -> Db * Response :=
  let userId_ := req_user_id req in
  handle
    (match or_null password with
     | None =>
         ret (mkResponse 400 false "Password is required to delete account" None)
     | Some password_ =>
         rows <- select_users (fun u => (Users.id u =? userId_)%string) ;;
         match single rows with
         | None => throw UserNotFound
         | Some user_ =>
             if negb (comparePassword password_ (Users.password_hash user_))
             then ret (mkResponse 400 false "Password is incorrect" None)
             else
               logAuthEvent
                 (mkEvent (Some userId_) "account_deletion" true
                    (req_ip req) (req_userAgent req) None
                    (Some [("username", JStr (Users.username user_));
                           ("email", JStr (Users.email user_))])) ;;
               exec (delete_user userId_) ;;
               ret (mkResponse 200 true "Account deleted successfully" None)
         end
     end)
    (fun error =>
       mkResponse 500 false
         (message_or (error_message error) "Failed to delete account") None).
End UserController.

(* ===================================================================== *)
(** ** Clients: sequences of calls *)
(* ===================================================================== *)

(** One login call of a client: the time of the call and the random
    values drawn while it is served. *)
Record Attempt : Type := mkAttempt {
  at_time : Z;
  at_token_uuid : string;
  at_row_id : string
}.

(** Requests through the API that read or write the session ledger while
    the accounts stay in place. *)
Inductive Call : Type :=
| CallRegister (req : Request) (body : UserData) (now : Z)
               (salt user_uuid token_uuid row_id : string)
| CallLogin (req : Request) (identifier password : string) (now : Z)
            (token_uuid row_id : string)
| CallRefresh (req : Request) (presented : option Token) (now : Z)
              (token_uuid row_id : string)
| CallLogout (req : Request) (presented : option Token)
| CallChangePassword (req : Request) (currentPassword newPassword salt : string).

Section Clients.
Context {E : Env}.

(** The same identifier and password submitted once per attempt. *)
Fixpoint login_attempts (identifier password : string)
         (attempts : list Attempt) (db : Db) : Db * list (Outcome AuthResult) :=
  match attempts with
  | [] => (db, [])
  | a :: rest =>
      let (db1, o) := loginUser identifier password None None
                        (at_time a) (at_token_uuid a) (at_row_id a) db in
      let (db2, os) := login_attempts identifier password rest db1 in
      (db2, o :: os)
  end.

Definition run_call (c : Call) (db : Db) : Db :=
  match c with
  | CallRegister req body now salt user_uuid token_uuid row_id =>
      fst (register req body now salt user_uuid token_uuid row_id db)
  | CallLogin req identifier password now token_uuid row_id =>
      fst (login req identifier password now token_uuid row_id db)
  | CallRefresh req presented now token_uuid row_id =>
      fst (refreshToken_handler req presented now token_uuid row_id db)
  | CallLogout req presented => fst (logout req presented db)
  | CallChangePassword req currentPassword newPassword salt =>
      fst (changePassword req currentPassword newPassword salt db)
  end.

Definition run_calls (cs : list Call) (db : Db) : Db :=
  fold_left (fun d c => run_call c d) cs db.

(** [Issued t uid db]: at some point before [db], a successful
    [loginUser], [registerUser] or [refreshAccessToken] returned [t] as
    the refresh token of user [uid].  [uuidv4()] never yields the empty
    string. *)
Inductive Issued (t : Token) (uid : string) : Db -> Prop :=
| issued_by_login identifier password ip ua now token_uuid row_id db db' res :
    token_uuid <> "" ->
    loginUser identifier password ip ua now token_uuid row_id db
      = (db', Returned res) ->
    refreshToken (tokens res) = t ->
    view_id (user res) = uid ->
    Issued t uid db'
| issued_by_register body now salt user_uuid token_uuid row_id db db' res :
    token_uuid <> "" ->
    registerUser body now salt user_uuid token_uuid row_id db
      = (db', Returned res) ->
    refreshToken (tokens res) = t ->
    view_id (user res) = uid ->
    Issued t uid db'
| issued_by_refresh presented now token_uuid row_id db db' res :
    token_uuid <> "" ->
    refreshAccessToken presented now token_uuid row_id db
      = (db', Returned res) ->
    refreshToken (tokens res) = t ->
    view_id (user res) = uid ->
    Issued t uid db'
| issued_earlier c db :
    Issued t uid db -> Issued t uid (run_call c db).

(** [Spent t db]: before [db], either a refresh presenting [t]
    succeeded, or the user [t] was issued to logged out presenting it. *)
Inductive Spent (t : Token) : Db -> Prop :=
| spent_by_refresh now token_uuid row_id db db' res :
    refreshAccessToken t now token_uuid row_id db = (db', Returned res) ->
    Spent t db'
| spent_by_logout uid db :
    Issued t uid db ->
    Spent t (store_after (logoutUser uid (Some t) db))
| spent_earlier c db :
    Spent t db -> Spent t (run_call c db).
End Clients.

(* ===================================================================== *)
(** ** A concrete deployment, for examples *)
(* ===================================================================== *)

Module Demo.
(** A toy digest: the fields that identify a token. *)
Definition digest (t : Token) : string :=
  match t with
  | Garbage raw => raw
  | Unparsable raw _ => raw
  | Signed k p =>
      k ++ "." ++ userId p ++ "." ++ js_string (tokenId p) ++ "." ++ type p
  end.

(** A toy hasher: the salt, a separator and the password. *)
Definition toy_hash (password salt : string) : string :=
  salt ++ "$" ++ password.

Definition toy_compare (password hash : string) : bool :=
  match index 0 "$" hash with
  | Some n =>
      (substring (S n) (String.length hash - S n) hash =? password)%string
  | None => false
  end.

Definition toy_timespan (s : string) : Z :=
  if (s =? "15m")%string then 900
  else if (s =? "7d")%string then 604800
  else 0.

(** The defaults of [utils/jwt.js] and no lockout variables set. *)
Definition env : Env :=
  Build_Env "access-secret" "refresh-secret" "15m" "7d" None None
    toy_timespan digest toy_hash toy_compare.

(** The same with [LOCKOUT_TIME=-15]. *)
Definition env_negative_lockout : Env :=
  Build_Env "access-secret" "refresh-secret" "15m" "7d" None (Some (-15))
    toy_timespan digest toy_hash toy_compare.

Definition empty : Db := mkDb [] [] [].

Definition browser : Request := mkRequest (Some "10.0.0.7") (Some "curl") "".

Definition alice : UserData :=
  mkUserData "alice" "alice@x.com" "Str0ng!Pw" None None None.

Definition bob : UserData :=
  mkUserData "bob" "bob@x.com" "hunter2!A" None None None.

(** Registration of alice at time 1000000. *)
Definition registered_alice : Db * Outcome AuthResult :=
  registerUser (E := env) alice 1000000 "s1" "u-alice" "t-1" "r-1" empty.

Definition db_alice : Db := fst registered_alice.

Definition alice_token : Token :=
  generateRefreshToken (E := env)
    (mkIdentity "u-alice" "alice" "alice@x.com") 1000000 "t-1".

(** alice and bob both registered. *)
Definition db_alice_bob : Db :=
  fst (registerUser (E := env) bob 1000500 "s2" "u-bob" "t-2" "r-2" db_alice).

(** Five consecutive attempts, one second apart. *)
Definition five_attempts : list Attempt :=
  [mkAttempt 2000000 "t-10" "r-10";
   mkAttempt 2001000 "t-11" "r-11";
   mkAttempt 2002000 "t-12" "r-12";
   mkAttempt 2003000 "t-13" "r-13";
   mkAttempt 2004000 "t-14" "r-14"].

(** The store after five wrong passwords for alice. *)
Definition db_locked : Db :=
  fst (login_attempts (E := env) "alice" "wrong" five_attempts db_alice).

(** alice's row as registered, and as it stands in [db_locked]. *)
Definition alice_row : Users.row :=
  Users.mk "u-alice" "alice" "alice@x.com" "s1$Str0ng!Pw" None None None
    true false (Some 0) None None 1000000.

Definition alice_locked : Users.row :=
  Users.mk "u-alice" "alice" "alice@x.com" "s1$Str0ng!Pw" None None None
    true false (Some 5) (Some 2904000) None 1000000.

(** A store in which the [expires_at] column of alice's ledger row has
    been moved back to 1500000, while her token itself runs until
    605800 s. *)
Definition db_stale : Db :=
  mkDb [alice_row]
       [RefreshTokens.mk "r-1" "u-alice" "t-1"
          "refresh-secret.u-alice.t-1.refresh" 1500000 false]
       [].

(** What alice's registration returned. *)
Definition alice_result : AuthResult :=
  mkResult
    (mkView "u-alice" "alice" "alice@x.com" (Some None) (Some None) (Some None)
       (Some 1000000) None)
    (generateTokens (E := env) (mkIdentity "u-alice" "alice" "alice@x.com")
       1000000 "t-1").

(** alice's first refresh, at 1500000, and what it returned. *)
Definition db_refreshed : Db :=
  fst (refreshAccessToken (E := env) alice_token 1500000 "t-5" "r-5" db_alice).

Definition refreshed_result : AuthResult :=
  mkResult
    (mkView "u-alice" "alice" "alice@x.com" None None None None None)
    (generateTokens (E := env) (mkIdentity "u-alice" "alice" "alice@x.com")
       1500000 "t-5").

(** alice, as the [authenticateToken] middleware presents her. *)
Definition as_alice : Request := mkRequest (Some "10.0.0.7") (Some "curl") "u-alice".
End Demo.

(* ===================================================================== *)
(** ** [middleware/auth.js] and the access-token side of [utils/jwt.js] *)
(* ===================================================================== *)

(** What a middleware does with a request: hand it on with [req.user]
    set, or answer it. *)
Inductive Gate : Type :=
| Next (req_user : Identity)
| Answered (r : Response).

(** [authHeader && authHeader.split(' ')[1]], kept when truthy; the
    header is given by its parts between spaces. *)
Definition bearer (authorization : option (list Token)) : option Token :=
  match authorization with
  | Some parts => given_token (nth_error parts 1)
  | None => None
  end.

Section Middleware.
Context {E : Env}.

(** [None] stands for the thrown "Invalid or expired access token",
    which every caller catches. *)
Definition verifyAccessToken (t : Token) (now : Z) : option Payload :=
  jwt_verify t JWT_SECRET now.

Definition unauthorized (msg : string) : Gate :=
  Answered (mkResponse 401 false msg None).

Definition authenticateToken (authorization : option (list Token)) (now : Z)
           (db : Db) : Gate :=
  match bearer authorization with
  | None => unauthorized "Access token is required"
  | Some token =>
      match verifyAccessToken token now with
      | None => unauthorized "Invalid or expired token"
      | Some decoded =>
          match single (filter (fun u => (Users.id u =? userId decoded)%string)
                          (users db)) with
          | None => unauthorized "Invalid token - user not found"
          | Some user_ =>
              if negb (Users.is_active user_)
              then unauthorized "Account is deactivated"
              else Next (identity_of user_)
          end
      end
  end.

(** [req.user] after [optionalAuth], which always calls [next()]. *)
Definition optionalAuth (authorization : option (list Token)) (now : Z)
           (db : Db) : option Identity :=
  match bearer authorization with
  | None => None
  | Some token =>
      match verifyAccessToken token now with
      | None => None
      | Some decoded =>
          match single (filter (fun u => (Users.id u =? userId decoded)%string)
                          (users db)) with
          | None => None
          | Some user_ =>
              if negb (Users.is_active user_) then None
              else Some (identity_of user_)
          end
      end
  end.
End Middleware.

(* ===================================================================== *)
(** ** Session management and availability handlers *)
(* ===================================================================== *)


(** The filter of the update of [revokeSession]. *)
Definition own_session (sessionId userId_ : string) (r : RefreshTokens.row)
  : bool :=
  (RefreshTokens.id r =? sessionId)%string
  && (RefreshTokens.user_id r =? userId_)%string.

(** The filter of the update of [revokeAllSessions]: [.neq('token_id', ...)]
    is added only for a truthy [currentTokenId]. *)
Definition other_sessions (userId_ : string) (currentTokenId : option string)
           (r : RefreshTokens.row) : bool :=
  match or_null currentTokenId with
  | Some current =>
      (RefreshTokens.user_id r =? userId_)%string
      && negb (RefreshTokens.token_id r =? current)%string
  | None => (RefreshTokens.user_id r =? userId_)%string
  end.

(** UPDATE refresh_tokens SET is_revoked = true
    WHERE id = sessionId AND user_id = userId, [sessionId] being the text
    of the path parameter. *)
Definition revoke_own_session (sessionId : UuidText) (userId_ : string) (db : Db)
  : Db * option DbError :=
  match sessionId with
  | NotUuid raw => (db, Some (InvalidUuid raw))
  | Uuid sid => (revoke_where (own_session sid userId_) db, None)
  end.

Definition revokeSession (req : Request) (sessionId : UuidText)
  : Db -> Db * Response :=
  handle
    (error <- attempt (revoke_own_session sessionId (req_user_id req)) ;;
     match error with
     | Some e => throw (FailedToRevokeSession e)
     | None => ret (mkResponse 200 true "Session revoked successfully" None)
     end)
    (fun _ => mkResponse 500 false "Failed to revoke session" None).

Definition revokeAllSessions (req : Request) (currentTokenId : option string)
  : Db -> Db * Response :=
  handle
    (exec (revoke_where (other_sessions (req_user_id req) currentTokenId)) ;;
     ret (mkResponse 200 true "All sessions revoked successfully" None))
    (fun _ => mkResponse 500 false "Failed to revoke sessions" None).

(** The answer of [checkAvailability]: a 400, or for each of the two
    fields [null] when it was not asked and else whether it is free. *)
Inductive Availability : Type :=
| ParameterRequired
| Available (username_free email_free : option bool).

(** The row the query of [checkAvailability] yields through [.single()]. *)
Definition availability_lookup (username_ email_ : option string) (db : Db)
  : option Users.row :=
  match or_null username_, or_null email_ with
  | Some u, Some e => single (filter (username_or_email u e) (users db))
  | Some u, None =>
      single (filter (fun r => (Users.username r =? u)%string) (users db))
  | None, Some e =>
      single (filter (fun r => (Users.email r =? e)%string) (users db))
  | None, None => None
  end.

(** [x ? !existingUser || existingUser.field !== x : null] *)
Definition field_free (asked : option string) (existingUser : option Users.row)
           (field : Users.row -> string) : option bool :=
  match or_null asked with
  | Some x =>
      match existingUser with
      | Some r => Some (negb (field r =? x)%string)
      | None => Some true
      end
  | None => None
  end.

Definition checkAvailability (username_ email_ : option string) (db : Db)
  : Availability :=
  match or_null username_, or_null email_ with
  | None, None => ParameterRequired
  | _, _ =>
      let existingUser := availability_lookup username_ email_ db in
      Available (field_free username_ existingUser Users.username)
                (field_free email_ existingUser Users.email)
  end.

(* ===================================================================== *)
(** ** The window of [getAuthLogs] *)
(* ===================================================================== *)

(** [page] or [limit] after [const { page = 1, limit = 20 } = req.query]:
    the default, a number, when the parameter is absent, and else the
    text of the parameter, here a string of decimal digits. *)
Inductive QueryValue : Type :=
| Number (n : Z)
| Digits (ds : Decimal.uint).

(** Numbers are doubles.  An integer of magnitude up to 2^53 - 1 is a
    double, and an operation on such integers whose result is one again
    is exact; [None] stands for a number beyond, where the source
    rounds and prints in a shortened notation: this part of the
    arithmetic is not followed. *)
Definition MAX_SAFE_INTEGER : Z := 9007199254740991.

Definition exact (z : Z) : option Z :=
  if Z.abs z <=? MAX_SAFE_INTEGER then Some z else None.

(** The operands of [-] and [*] are converted to numbers. *)
Definition to_number (v : QueryValue) : option Z :=
  match v with
  | Number n => exact n
  | Digits ds => exact (Z.of_N (N.of_uint ds))
  end.

(** [(page - 1) * limit] *)
Definition page_offset (page limit : QueryValue) : option Z :=
  match to_number page, to_number limit with
  | Some p, Some l =>
      match exact (p - 1) with
      | Some q => exact (q * l)
      | None => None
      end
  | _, _ => None
  end.

(** [offset + limit - 1]: with a number [+] adds; with a string it
    appends the string to the decimal notation of [offset], and [-]
    converts the text back to a number. *)
Definition plus_limit_minus_one (offset : Z) (limit : QueryValue) : option Z :=
  match limit with
  | Number n =>
      match exact (offset + n) with
      | Some sum => exact (sum - 1)
      | None => None
      end
  | Digits ds =>
      match exact (Z.of_int (Decimal.app_int (Z.to_int offset) ds)) with
      | Some joined => exact (joined - 1)
      | None => None
      end
  end.

(** The two arguments [getAuthLogs] passes to [.range(from, to)], which
    selects the rows [from] to [to], both included. *)
Definition getAuthLogs_range (page limit : option Decimal.uint) : option (Z * Z) :=
  let page_ := match page with Some ds => Digits ds | None => Number 1 end in
  let limit_ := match limit with Some ds => Digits ds | None => Number 20 end in
  match page_offset page_ limit_ with
  | Some offset =>
      match plus_limit_minus_one offset limit_ with
      | Some to => Some (offset, to)
      | None => None
      end
  | None => None
  end.

(* ===================================================================== *)
(** ** Every handler that writes, and the key constraints *)
(* ===================================================================== *)

Inductive AnyCall : Type :=
| Through (c : Call)
| CallRevokeSession (req : Request) (sessionId : UuidText)
| CallRevokeAllSessions (req : Request) (currentTokenId : option string)
| CallDeleteAccount (req : Request) (password : option string).

Definition run_any {E : Env} (c : AnyCall) (db : Db) : Db :=
  match c with
  | Through c0 => run_call c0 db
  | CallRevokeSession req sessionId => fst (revokeSession req sessionId db)
  | CallRevokeAllSessions req currentTokenId =>
      fst (revokeAllSessions req currentTokenId db)
  | CallDeleteAccount req password => fst (deleteAccount req password db)
  end.

Definition run_all {E : Env} (cs : list AnyCall) (db : Db) : Db :=
  fold_left (fun d c => run_any c d) cs db.

(** The PRIMARY KEY, UNIQUE and FOREIGN KEY constraints of the schema. *)
Definition keys_ok (db : Db) : Prop :=
  NoDup (map Users.id (users db))
  /\ NoDup (map Users.username (users db))
  /\ NoDup (map Users.email (users db))
  /\ NoDup (map RefreshTokens.id (refresh_tokens db))
  /\ NoDup (map RefreshTokens.token_id (refresh_tokens db))
  /\ (forall r, In r (refresh_tokens db) ->
                user_exists (RefreshTokens.user_id r) db = true)
  /\ (forall e uid, In e (auth_logs db) -> AuthLogs.user_id e = Some uid ->
                    user_exists uid db = true).

(* ===================================================================== *)
(** ** [checkPasswordStrength] of [utils/security.js] *)
(* ===================================================================== *)

(** A password is a string of characters with codes below 256, one per
    UTF-16 unit of the source string; [password.length] is its length. *)
Definition in_range (lo hi : nat) (c : Ascii.ascii) : bool :=
  (lo <=? Ascii.nat_of_ascii c)%nat && (Ascii.nat_of_ascii c <=? hi)%nat.

(** [a-z], [A-Z] and [\d] on one character. *)
Definition is_lower : Ascii.ascii -> bool := in_range 97 122.
Definition is_upper : Ascii.ascii -> bool := in_range 65 90.
Definition is_digit : Ascii.ascii -> bool := in_range 48 57.

(** The character class of the fifth check, by character code:
    ! @ # $ % ^ & * ( ) , . ? (double quote) : { } | < > *)
Definition is_special (c : Ascii.ascii) : bool :=
  existsb (Nat.eqb (Ascii.nat_of_ascii c))
    [33; 64; 35; 36; 37; 94; 38; 42; 40; 41; 44; 46; 63; 34; 58; 123; 125;
     124; 60; 62]%nat.

(** [regex.test(password)] for a one-character class. *)
Definition has (class : Ascii.ascii -> bool) (password : string) : bool :=
  existsb class (list_ascii_of_string password).

Record Checks : Type := mkChecks {
  chk_length : bool;
  chk_lowercase : bool;
  chk_uppercase : bool;
  chk_number : bool;
  chk_special : bool
}.

Record Strength : Type := mkStrength {
  isStrong : bool;
  score : nat;
  checks : Checks;
  feedback : list string
}.

Definition password_checks (password : string) : Checks :=
  mkChecks (8 <=? String.length password)%nat
           (has is_lower password) (has is_upper password)
           (has is_digit password) (has is_special password).

Definition getPasswordFeedback (c : Checks) : list string :=
  ((if chk_length c then [] else ["Password must be at least 8 characters long"])
   ++ (if chk_lowercase c then []
       else ["Password must contain at least one lowercase letter"])
   ++ (if chk_uppercase c then []
       else ["Password must contain at least one uppercase letter"])
   ++ (if chk_number c then [] else ["Password must contain at least one number"])
   ++ (if chk_special c then []
       else ["Password must contain at least one special character"]))%list.

(** [Object.values(checks).filter(Boolean).length] *)
Definition checks_score (c : Checks) : nat :=
  List.length
    (filter (fun b : bool => b)
       [chk_length c; chk_lowercase c; chk_uppercase c; chk_number c;
        chk_special c]).

Definition checkPasswordStrength (password : string) : Strength :=
  let c := password_checks password in
  mkStrength (4 <=? checks_score c)%nat (checks_score c) c
             (getPasswordFeedback c).

(* ===================================================================== *)
(** ** Vocabulary of the further statements *)
(* ===================================================================== *)

(** The values of a row fit the VARCHAR columns of [users]. *)
Definition within (n : nat) (o : option string) : Prop :=
  forall s, o = Some s -> (String.length s <= n)%nat.

Definition fits_columns (u : Users.row) : Prop :=
  (String.length (Users.username u) <= 30)%nat
  /\ (String.length (Users.email u) <= 255)%nat
  /\ within 50 (Users.first_name u)
  /\ within 50 (Users.last_name u)
  /\ within 20 (Users.phone u).

Definition username_taken (x : string) (db : Db) : bool :=
  existsb (fun v => (Users.username v =? x)%string) (users db).

Definition email_taken (x : string) (db : Db) : bool :=
  existsb (fun v => (Users.email v =? x)%string) (users db).

Section Registered.
Context {E : Env}.

(** The row [registerUser] inserts into [users]. *)
Definition registered_row (body : UserData) (now : Z) (salt user_uuid : string)
  : Users.row :=
  Users.mk user_uuid (ud_username body) (ud_email body)
    (hashPassword (ud_password body) salt)
    (or_null (ud_firstName body)) (or_null (ud_lastName body))
    (or_null (ud_phone body))
    true false (Some 0) None None now.


End Registered.



(** What [authenticateToken] reads of an account. *)
Definition gate_view (u : Users.row) : string * string * string * bool :=
  (Users.id u, Users.username u, Users.email u, Users.is_active u).

(** The accounts of [us'] are those of [us], unchanged in what the gate
    reads, followed by accounts whose ids are new. *)
Definition accounts_grow (us us' : list Users.row) : Prop :=
  exists extra,
    map gate_view us' = map gate_view (us ++ extra)
    /\ forall e u, In e extra -> In u us -> Users.id e <> Users.id u.

(** The audit row written by a successful [deleteAccount]. *)
Definition deletion_row (req : Request) (u : Users.row) : AuthLogs.row :=
  auth_log_row
    (mkEvent (Some (req_user_id req)) "account_deletion" true
       (req_ip req) (req_userAgent req) None
       (Some [("username", JStr (Users.username u));
              ("email", JStr (Users.email u))])).

(* ===================================================================== *)
(** ** Vocabulary of the statements *)
(* ===================================================================== *)

(** The store has drawn a primary key and [uuidv4()] a correlation id
    that no ledger row carries yet. *)
Definition fresh_ledger_keys (row_id token_uuid : string) (db : Db) : Prop :=
  existsb (fun q => RefreshTokens.id q =? row_id)%string (refresh_tokens db) = false
  /\ existsb (fun q => RefreshTokens.token_id q =? token_uuid)%string
             (refresh_tokens db) = false.

(** The store has drawn a primary key that no account carries yet. *)
Definition fresh_user_key (user_uuid : string) (db : Db) : Prop :=
  existsb (fun v => Users.id v =? user_uuid)%string (users db) = false.

(** The single account selected by a login identifier. *)
Definition account (identifier : string) (db : Db) : option Users.row :=
  single (filter (username_or_email identifier identifier) (users db)).

(** One write to the store other than the deletion of an account. *)
Inductive write : Db -> Db -> Prop :=
| write_update_user uid p db : write db (fst (update_user uid p db))
| write_insert_user u db : write db (fst (insert_user u db))
| write_insert_refresh_token r db : write db (fst (insert_refresh_token r db))
| write_revoke f db : write db (revoke_where f db)
| write_insert_auth_log e db : write db (fst (insert_auth_log e db)).

(** A sequence of such writes. *)
Inductive writes : Db -> Db -> Prop :=
| writes_none db : writes db db
| writes_step db1 db2 db3 : write db1 db2 -> writes db2 db3 -> writes db1 db3.

(** A computation that changes the store by such writes only. *)
Definition tame {A : Type} (c : M A) : Prop :=
  forall db, writes db (fst (c db)).

(** Some ledger row carries the correlation id [tid]. *)
Definition ledger_knows (tid : string) (db : Db) : Prop :=
  exists r, In r (refresh_tokens db) /\ RefreshTokens.token_id r = tid.

(** The correlation id [tid] is in the ledger, on rows of user [uid] only. *)
Definition owned_by (tid uid : string) (db : Db) : Prop :=
  ledger_knows tid db
  /\ forall r, In r (refresh_tokens db) ->
               RefreshTokens.token_id r = tid -> RefreshTokens.user_id r = uid.

(** The correlation id [tid] is in the ledger, and every row carrying it
    together with the digest [hash] is revoked. *)
Definition dead (tid hash : string) (db : Db) : Prop :=
  ledger_knows tid db
  /\ forall r, In r (refresh_tokens db) ->
               RefreshTokens.token_id r = tid ->
               RefreshTokens.token_hash r = hash ->
               RefreshTokens.is_revoked r = true.

Section Vocabulary.
Context {E : Env}.

(** The ledger row [storeRefreshToken] writes for a token issued by
    [generateRefreshToken]. *)
Definition issued_row (row_id : string) (who : Identity) (now : Z)
           (token_uuid : string) : RefreshTokens.row :=
  RefreshTokens.mk row_id (ident_id who) token_uuid
    (sha256 (generateRefreshToken who now token_uuid))
    ((seconds now + timespan JWT_REFRESH_EXPIRES_IN) * 1000) false.

(** The update of the successful branch of [loginUser]. *)
Definition login_reset (now : Z) : Users.patch :=
  Users.mkPatch None (Some (Some 0)) (Some None) (Some (Some now)).

(** The audit row of a wrong-password login. *)
Definition wrong_password_row (u : Users.row) (identifier : string)
           (ip ua : option string) : AuthLogs.row :=
  auth_log_row
    (mkEvent (Some (Users.id u)) "failed_login" false ip ua
       (Some "Invalid password")
       (Some [("identifier", JStr identifier);
              ("failedAttempts", JNum (next_failedAttempts u))])).


(** The audit row of a login refused because the account is locked. *)
Definition locked_row (u : Users.row) (identifier : string)
           (ip ua : option string) : AuthLogs.row :=
  auth_log_row
    (mkEvent (Some (Users.id u)) "failed_login" false ip ua
       (Some "Account locked") (Some [("identifier", JStr identifier)])).

(** The audit row of a successful login. *)
Definition login_row (u : Users.row) (identifier : string)
           (ip ua : option string) : AuthLogs.row :=
  auth_log_row
    (mkEvent (Some (Users.id u)) "login" true ip ua None
       (Some [("identifier", JStr identifier)])).

(** The audit row of a logout. *)
Definition logout_row (uid : string) : AuthLogs.row :=
  auth_log_row (mkEvent (Some uid) "logout" true None None None None).

(** The rows the update of [logoutUser] selects: those carrying the
    correlation id of the presented token and owned by [uid]; none when
    no token is presented, when it does not decode, or when it carries
    no correlation id. *)
Definition logout_target (uid : string) (presented : option Token)
           (r : RefreshTokens.row) : bool :=
  match presented with
  | Some t =>
      match jwt_decode t with
      | Returned (Some decoded) =>
          match or_null (tokenId decoded) with
          | Some tid => owned_token tid uid r
          | None => false
          end
      | _ => false
      end
  | None => false
  end.

(** What a successful [loginUser] returns for account [u]. *)
Definition login_result (u : Users.row) (now : Z) (token_uuid : string)
  : AuthResult :=
  mkResult
    (mkView (Users.id u) (Users.username u) (Users.email u)
       (Some (Users.first_name u)) (Some (Users.last_name u))
       (Some (Users.phone u)) (Some (Users.created_at u))
       (Some (Users.last_login u)))
    (generateTokens (identity_of u) now token_uuid).
End Vocabulary.

(* ===================================================================== *)
(** ** Further examples on the concrete deployment *)
(* ===================================================================== *)

Module Scenario.
Definition alice_identity : Identity := mkIdentity "u-alice" "alice" "alice@x.com".

(** The claims of the refresh token alice got when registering, and the
    ledger row stored for it. *)
Definition alice_claims : Payload :=
  mkPayload "u-alice" "alice" None (Some "t-1") "refresh" 1000 605800
    ISSUER AUDIENCE.

Definition alice_session : RefreshTokens.row :=
  RefreshTokens.mk "r-1" "u-alice" "t-1" "refresh-secret.u-alice.t-1.refresh"
    605800000 false.

(** An [Authorization] header [Bearer <token>]. *)
Definition bearer_header (t : Token) : option (list Token) :=
  Some [Garbage "Bearer"; t].

(** alice logs in at 2000000. *)
Definition alice_login : Db * Outcome AuthResult :=
  loginUser (E := Demo.env) "alice" "Str0ng!Pw" (Some "10.0.0.7") (Some "curl")
    2000000 "t-10" "r-10" Demo.db_alice.

Definition db_logged_in : Db := fst alice_login.

Definition alice_login_result : AuthResult :=
  login_result (E := Demo.env) Demo.alice_row 2000000 "t-10".

(** bob's row as registered in [Demo.db_alice_bob]. *)
Definition bob_row : Users.row :=
  registered_row (E := Demo.env) Demo.bob 1000500 "s2" "u-bob".

(** A store in which alice's account has been deactivated. *)
Definition alice_deactivated : Users.row :=
  Users.mk "u-alice" "alice" "alice@x.com" "s1$Str0ng!Pw" None None None
    false false (Some 0) None None 1000000.

Definition db_deactivated : Db := mkDb [alice_deactivated] [alice_session] [].



(** carol asks for a username of 31 characters, the last a space; its
    column holds 30. *)
Definition carol : UserData :=
  mkUserData "abcdefghijklmnopqrstuvwxyz0123 " "carol@x.com" "Pa55word!x"
    None None None.

(** Three base64url parts: the header [{ typ: JWT, alg: HS256 }], the
    payload [not json] and a signature. *)
Definition unparsable_token : Token :=
  Unparsable "eyJ0eXAiOiJKV1QiLCJhbGciOiJIUzI1NiJ9.bm90IGpzb24.c2ln"
    "Unexpected token o in JSON at position 1".

(** alice logs out with her registration token, then changes her
    password. *)
Definition logout_then_change : list Call :=
  [CallLogout Demo.as_alice (Some Demo.alice_token);
   CallChangePassword Demo.as_alice "Str0ng!Pw" "N3w!Passw0rd" "s9"].
End Scenario.

(* ===================================================================== *)
(** ** Basic facts about the store *)
(* ===================================================================== *)

Lemma single_inv {A : Type} (rows : list A) (r : A) :
  single rows = Some r -> rows = [r].
Proof.
  destruct rows as [|a [|b rest]]; simpl; intros H; try discriminate.
  now inversion H.
Qed.

Lemma single_filter_found {A : Type} (f : A -> bool) (l : list A) (r : A) :
  single (filter f l) = Some r -> In r l /\ f r = true.
Proof.
  intros H. apply single_inv in H.
  apply filter_In. rewrite H. now left.
Qed.

Lemma single_nil {A : Type} (f : A -> bool) (l : list A) :
  (forall r, In r l -> f r = false) -> single (filter f l) = None.
Proof.
  intros H.
  assert (Hnil : filter f l = []).
  { induction l as [|a l IH]; simpl; [reflexivity|].
    rewrite (H a (or_introl eq_refl)). apply IH.
    intros r Hr. apply H. now right. }
  now rewrite Hnil.
Qed.

(** A query keeps selecting the image of the same rows after an update
    that does not touch the columns it filters on. *)
Lemma filter_map_stable {A : Type} (f : A -> bool) (g : A -> A) (l : list A) :
  (forall a, f (g a) = f a) -> filter f (map g l) = map g (filter f l).
Proof.
  intros Hfg. induction l as [|a l IH]; simpl; [reflexivity|].
  rewrite Hfg. destruct (f a); simpl; now rewrite IH.
Qed.

Lemma user_exists_In (u : Users.row) (db : Db) :
  In u (users db) -> user_exists (Users.id u) db = true.
Proof.
  intros Hin. unfold user_exists. apply existsb_exists.
  exists u. split; [assumption | apply String.eqb_refl].
Qed.

Lemma user_exists_patch (uid v : string) (p : Users.patch) (db : Db) :
  user_exists v (patch_users uid p db) = user_exists v db.
Proof.
  unfold user_exists, patch_users; simpl.
  induction (users db) as [|a l IH]; simpl; [reflexivity|].
  rewrite IH. destruct (Users.id a =? uid)%string; reflexivity.
Qed.

(** An update is rejected as a whole or applied as a whole. *)
Lemma update_user_cases (uid : string) (p : Users.patch) (db : Db) :
  update_user uid p db = (patch_users uid p db, None)
  \/ exists v, Users.set_failed_login_attempts p = Some (Some v)
               /\ int4 v = false
               /\ update_user uid p db = (db, Some (IntegerOutOfRange v)).
Proof.
  unfold update_user.
  destruct (Users.set_failed_login_attempts p) as [[v|]|]; [|now left..].
  destruct (int4 v) eqn:Hv; [now left | right; now exists v].
Qed.


(** The update of a successful login is always accepted. *)
Lemma login_reset_accepted (uid : string) (now : Z) (db : Db) :
  update_user uid
    (Users.mkPatch None (Some (Some 0)) (Some None) (Some (Some now))) db
  = (patch_users uid
       (Users.mkPatch None (Some (Some 0)) (Some None) (Some (Some now))) db,
     None).
Proof. reflexivity. Qed.

Lemma update_user_ledger (uid : string) (p : Users.patch) (db : Db) :
  refresh_tokens (fst (update_user uid p db)) = refresh_tokens db.
Proof.
  destruct (update_user_cases uid p db) as [-> | (w & _ & _ & ->)]; reflexivity.
Qed.

Lemma update_user_logs (uid : string) (p : Users.patch) (db : Db) :
  auth_logs (fst (update_user uid p db)) = auth_logs db.
Proof.
  destruct (update_user_cases uid p db) as [-> | (w & _ & _ & ->)]; reflexivity.
Qed.

Lemma user_exists_update (uid v : string) (p : Users.patch) (db : Db) :
  user_exists v (fst (update_user uid p db)) = user_exists v db.
Proof.
  destruct (update_user_cases uid p db) as [-> | (w & _ & _ & ->)]; cbn [fst];
    [apply user_exists_patch | reflexivity].
Qed.

Lemma user_exists_same_users (v : string) (db1 db2 : Db) :
  users db1 = users db2 -> user_exists v db1 = user_exists v db2.
Proof. unfold user_exists. now intros ->. Qed.

Lemma user_exists_append_log (v : string) (e : AuthLogs.row) (db : Db) :
  user_exists v (append_log e db) = user_exists v db.
Proof. reflexivity. Qed.

Lemma user_exists_revoke (v : string) (f : RefreshTokens.row -> bool) (db : Db) :
  user_exists v (revoke_where f db) = user_exists v db.
Proof. reflexivity. Qed.

Lemma or_null_some (s v : string) : or_null (Some s) = Some v -> s = v /\ s <> "".
Proof.
  destruct s; simpl; intros H; [discriminate|].
  inversion H. split; [reflexivity | discriminate].
Qed.

Section ServiceFacts.
Context {E : Env}.

(** An audit insert succeeds when the event names no user or a user
    that is in the store. *)
Lemma logAuthEvent_appends (ev : AuthEvent) (db : Db) :
  (forall uid, or_null (ev_userId ev) = Some uid -> user_exists uid db = true) ->
  logAuthEvent ev db = (append_log (auth_log_row ev) db, Returned tt).
Proof.
  intros Hfk. unfold logAuthEvent, bind, attempt, insert_auth_log.
  cbn [AuthLogs.user_id auth_log_row].
  destruct (or_null (ev_userId ev)) as [uid|] eqn:Huid; [|reflexivity].
  now rewrite (Hfk uid eq_refl).
Qed.

(** In every case the call returns, and the accounts and the ledger are
    as before. *)
Lemma logAuthEvent_total (ev : AuthEvent) (db : Db) :
  exists db',
    logAuthEvent ev db = (db', Returned tt)
    /\ users db' = users db
    /\ refresh_tokens db' = refresh_tokens db.
Proof.
  unfold logAuthEvent, bind, attempt, insert_auth_log.
  destruct (AuthLogs.user_id (auth_log_row ev)) as [uid|].
  - destruct (user_exists uid db); eexists; repeat split.
  - eexists; repeat split.
Qed.

Lemma is_locked_future (u : Users.row) (now until : Z) :
  Users.locked_until u = Some until -> now < until -> is_locked u now = true.
Proof. unfold is_locked. intros -> H. now apply Z.ltb_lt. Qed.

Lemma is_locked_elapsed (u : Users.row) (now until : Z) :
  Users.locked_until u = Some until -> until <= now -> is_locked u now = false.
Proof. unfold is_locked. intros -> H. now apply Z.ltb_ge. Qed.

(** The lookup of [loginUser] names a row of the table. *)
Lemma found_user_exists (f : Users.row -> bool) (db : Db) (u : Users.row) :
  single (filter f (users db)) = Some u ->
  forall uid, or_null (Some (Users.id u)) = Some uid -> user_exists uid db = true.
Proof.
  intros Hfound uid Huid. apply or_null_some in Huid as [<- _].
  apply user_exists_In. now apply single_filter_found in Hfound.
Qed.

(** A locked account: the call is refused, one audit row is written and
    nothing else changes. *)
Lemma loginUser_locked identifier password ip ua now token_uuid row_id db u :
  account identifier db = Some u ->
  is_locked u now = true ->
  loginUser identifier password ip ua now token_uuid row_id db
  = (append_log (locked_row u identifier ip ua) db, Thrown AccountLocked).
Proof.
  intros Hfound Hlocked. unfold account in Hfound.
  unfold loginUser, bind at 1, select_users, query.
  rewrite Hfound, Hlocked. unfold bind, throw.
  rewrite logAuthEvent_appends; [reflexivity|].
  exact (found_user_exists _ _ _ Hfound).
Qed.
End ServiceFacts.

Section LoginFacts.
Context {E : Env}.

Lemma storeRefreshToken_issued uid who now token_uuid row_id db :
  ident_id who = uid ->
  fresh_ledger_keys row_id token_uuid db ->
  user_exists uid db = true ->
  storeRefreshToken uid (generateRefreshToken who now token_uuid) row_id db
  = (mkDb (users db)
          (refresh_tokens db ++ [issued_row row_id who now token_uuid])
          (auth_logs db),
     Returned tt).
Proof.
  intros <- [Hid Htid] Hex.
  unfold storeRefreshToken, generateRefreshToken, jwt_decode.
  cbn [tokenId exp]. unfold bind, attempt, insert_refresh_token.
  cbn [RefreshTokens.id RefreshTokens.token_id RefreshTokens.user_id].
  rewrite Hid, Htid, Hex. reflexivity.
Qed.

(** A wrong password on an account that is neither locked nor
    deactivated: the counter is written, one audit row is appended and
    the call throws the generic error. *)
Lemma loginUser_wrong_password identifier password ip ua now token_uuid row_id db u :
  account identifier db = Some u ->
  is_locked u now = false ->
  Users.is_active u = true ->
  comparePassword password (Users.password_hash u) = false ->
  loginUser identifier password ip ua now token_uuid row_id db
  = (append_log (wrong_password_row u identifier ip ua)
       (fst (update_user (Users.id u) (failed_login_update u now) db)),
     Thrown InvalidCredentials).
Proof.
  intros Hfound Hlocked Hactive Hpw. unfold account in Hfound.
  unfold loginUser, bind at 1, select_users, query.
  rewrite Hfound, Hlocked, Hactive, Hpw. cbn [negb].
  unfold bind at 1, attempt.
  pose proof (user_exists_update (Users.id u) (Users.id u)
                (failed_login_update u now) db) as Hstays.
  destruct (update_user (Users.id u) (failed_login_update u now) db) as [d e].
  cbn [fst] in *. unfold bind, throw.
  rewrite logAuthEvent_appends; [reflexivity|].
  intros uid Huid. pose proof Huid as Huid'.
  apply or_null_some in Huid' as [<- _]. rewrite Hstays.
  exact (found_user_exists _ _ _ Hfound _ Huid).
Qed.


(** And when it is not: the store rejects the update, the error is
    ignored and the row stays as it was. *)
Lemma loginUser_wrong_password_rejected identifier password ip ua now token_uuid
      row_id db u :
  account identifier db = Some u ->
  is_locked u now = false ->
  Users.is_active u = true ->
  comparePassword password (Users.password_hash u) = false ->
  int4 (next_failedAttempts u) = false ->
  loginUser identifier password ip ua now token_uuid row_id db
  = (append_log (wrong_password_row u identifier ip ua) db,
     Thrown InvalidCredentials).
Proof.
  intros Hfound Hlocked Hactive Hpw Hint.
  rewrite (loginUser_wrong_password _ _ _ _ _ _ _ _ u Hfound Hlocked Hactive Hpw).
  unfold update_user, failed_login_update. cbn [Users.set_failed_login_attempts].
  now rewrite Hint.
Qed.

(** A correct password on an account that is neither locked nor
    deactivated, when the store accepts the new ledger row. *)
Lemma loginUser_success identifier password ip ua now token_uuid row_id db u :
  account identifier db = Some u ->
  is_locked u now = false ->
  Users.is_active u = true ->
  comparePassword password (Users.password_hash u) = true ->
  fresh_ledger_keys row_id token_uuid db ->
  loginUser identifier password ip ua now token_uuid row_id db
  = (mkDb (users (patch_users (Users.id u) (login_reset now) db))
          (refresh_tokens db ++ [issued_row row_id (identity_of u) now token_uuid])
          (auth_logs db ++ [login_row u identifier ip ua]),
     Returned (login_result u now token_uuid)).
Proof.
  intros Hfound Hlocked Hactive Hpw Hfresh. unfold account in Hfound.
  assert (Hin : In u (users db)) by now apply single_filter_found in Hfound.
  unfold loginUser, bind at 1, select_users, query.
  rewrite Hfound, Hlocked, Hactive, Hpw. cbn [negb].
  unfold bind at 1, attempt.
  change (update_user (Users.id u)
            (Users.mkPatch None (Some (Some 0)) (Some None) (Some (Some now))) db)
    with (patch_users (Users.id u) (login_reset now) db, @None DbError).
  unfold bind at 1.
  cbn [generateTokens refreshToken].
  rewrite (storeRefreshToken_issued (Users.id u));
    [ | reflexivity | exact Hfresh
      | rewrite user_exists_patch; now apply user_exists_In ].
  unfold bind. rewrite logAuthEvent_appends; [reflexivity|].
  intros uid Huid. apply or_null_some in Huid as [<- _].
  match goal with
  | |- user_exists ?v ?d = true =>
      rewrite (user_exists_same_users v d
                 (patch_users (Users.id u) (login_reset now) db) eq_refl)
  end.
  rewrite user_exists_patch. now apply user_exists_In.
Qed.
End LoginFacts.

Section AccountFacts.
Context {E : Env}.

Lemma account_same_users identifier db1 db2 :
  users db1 = users db2 -> account identifier db1 = account identifier db2.
Proof. unfold account. now intros ->. Qed.

(** Re-reading an account after an update of its own row. *)
Lemma account_update identifier db u p :
  account identifier db = Some u ->
  account identifier (patch_users (Users.id u) p db) = Some (Users.apply p u).
Proof.
  unfold account, patch_users. cbn [users]. intros Hfound.
  rewrite filter_map_stable.
  - apply single_inv in Hfound. rewrite Hfound. cbn [map single].
    now rewrite String.eqb_refl.
  - intros a. destruct (Users.id a =? Users.id u)%string; reflexivity.
Qed.



End AccountFacts.

(* ===================================================================== *)
(** ** The lockout state machine *)
(* ===================================================================== *)

Section Lockout.
Context {E : Env}.

(** C3.  While [locked_until] of the account lies in the future, every
    login is refused with the account-locked error, whatever the
    password, and the accounts table (so the failure counter) is left as
    it was.  Once [locked_until] has elapsed, a login with the correct
    password on the (active) account returns a result, and the account
    read again has its failure counter at 0, no [locked_until], and
    [last_login] set to the time of the call. *)
Theorem lockout_state_machine identifier db u until :
  account identifier db = Some u ->
  Users.locked_until u = Some until ->
  (forall password ip ua now token_uuid row_id,
      now < until ->
      let r := loginUser identifier password ip ua now token_uuid row_id db in
      outcome r = Thrown AccountLocked
      /\ error_kind AccountLocked = AccountLockedError
      /\ users (store_after r) = users db)
  /\
  (forall password ip ua now token_uuid row_id,
      until <= now ->
      Users.is_active u = true ->
      comparePassword password (Users.password_hash u) = true ->
      fresh_ledger_keys row_id token_uuid db ->
      let r := loginUser identifier password ip ua now token_uuid row_id db in
      outcome r = Returned (login_result u now token_uuid)
      /\ exists u',
          account identifier (store_after r) = Some u'
          /\ Users.failed_login_attempts u' = Some 0
          /\ Users.locked_until u' = None
          /\ Users.last_login u' = Some now).
Proof.
  intros Hfound Huntil. split.
  - intros password ip ua now token_uuid row_id Hnow r. subst r.
    rewrite (loginUser_locked _ _ _ _ _ _ _ _ u Hfound
               (is_locked_future _ _ _ Huntil Hnow)).
    repeat split.
  - intros password ip ua now token_uuid row_id Hnow Hactive Hpw Hfresh r.
    subst r.
    rewrite (loginUser_success _ _ _ _ _ _ _ _ u Hfound
               (is_locked_elapsed _ _ _ Huntil Hnow) Hactive Hpw Hfresh).
    split; [reflexivity|].
    exists (Users.apply (login_reset now) u). split; [|repeat split].
    unfold store_after. cbn [fst].
    transitivity (account identifier
                    (patch_users (Users.id u) (login_reset now) db)).
    + now apply account_same_users.
    + now apply account_update.
Qed.

End Lockout.

(** In the store where alice is locked until 2904000: a login with her
    right password at 2005000 is refused, and at 3000000 it returns. *)
Lemma lockout_state_machine_witness :
  outcome (loginUser (E := Demo.env) "alice" "Str0ng!Pw" None None 2005000
             "t-20" "r-20" Demo.db_locked)
  = Thrown AccountLocked
  /\ outcome (loginUser (E := Demo.env) "alice" "Str0ng!Pw" None None 3000000
                "t-20" "r-20" Demo.db_locked)
     = Returned (login_result (E := Demo.env) Demo.alice_locked 3000000 "t-20").
Proof.
  assert (Hacc : account "alice" Demo.db_locked = Some Demo.alice_locked)
    by (vm_compute; reflexivity).
  destruct (lockout_state_machine (E := Demo.env) "alice" Demo.db_locked
              Demo.alice_locked 2904000 Hacc eq_refl) as [Hlocked Helapsed].
  split.
  - apply (Hlocked "Str0ng!Pw" None None 2005000 "t-20" "r-20"). lia.
  - apply (Helapsed "Str0ng!Pw" None None 3000000 "t-20" "r-20").
    + lia.
    + reflexivity.
    + vm_compute; reflexivity.
    + split; vm_compute; reflexivity.
Defined.



(** Why the lockout time has to be positive: with [LOCKOUT_TIME=-15]
    the wrong password at 3000000 raises alice's counter to 6 and sets
    [locked_until] to 2100000, fifteen minutes before the call, and her
    right password is accepted a millisecond later. *)
Example relock_in_the_past :
  let r := loginUser (E := Demo.env_negative_lockout) "alice" "wrong" None None
             3000000 "t-20" "r-20" Demo.db_locked in
  outcome r = Thrown InvalidCredentials
  /\ (exists u',
         account "alice" (store_after r) = Some u'
         /\ Users.failed_login_attempts u' = Some 6
         /\ Users.locked_until u' = Some 2100000)
  /\ exists res,
      outcome (loginUser (E := Demo.env_negative_lockout) "alice" "Str0ng!Pw"
                 None None 3000001 "t-21" "r-21" (store_after r))
      = Returned res.
Proof.
  cbv zeta. split; [vm_compute; reflexivity|]. split.
  - eexists. split; [vm_compute; reflexivity|]. split; reflexivity.
  - eexists. vm_compute; reflexivity.
Qed.

Section MaxAttempts.
Context {E : Env}.


End MaxAttempts.



(* ===================================================================== *)
(** ** What a failed login tells the client *)
(* ===================================================================== *)

Section GenericFailure.
Context {E : Env}.



End GenericFailure.


(* ===================================================================== *)
(** ** Expiry of a ledger row *)
(* ===================================================================== *)

Section Expiry.
Context {E : Env}.

(** C5.  When the presented token passes [verifyRefreshToken], the
    ledger lookup yields a row (matching correlation id and digest, not
    revoked), and that row's [expires_at] is before the time of the
    call, [refreshAccessToken] throws "Refresh token expired", an error
    of its own kind, and leaves the store as it was. *)
Theorem refresh_expired_record t now token_uuid row_id db decoded storedToken :
  jwt_verify t JWT_REFRESH_SECRET now = Some decoded ->
  single (filter (matches_presented decoded (sha256 t)) (refresh_tokens db))
  = Some storedToken ->
  RefreshTokens.expires_at storedToken < now ->
  refreshAccessToken t now token_uuid row_id db = (db, Thrown RefreshTokenExpired)
  /\ error_kind RefreshTokenExpired = ExpiredTokenError
  /\ error_kind RefreshTokenExpired <> InvalidTokenError.
Proof.
  intros Hverify Hstored Hexpired.
  unfold refreshAccessToken, verifyRefreshToken. rewrite Hverify.
  unfold bind at 1, ret. unfold bind at 1, select_refresh_tokens, query.
  rewrite Hstored.
  destruct (Z.ltb_spec (RefreshTokens.expires_at storedToken) now); [|lia].
  repeat split. discriminate.
Qed.

(** For a row written by [storeRefreshToken] for the very token that is
    presented, the test cannot fire: a token that verifies at [now]
    expires, in milliseconds, after [now]. *)
Remark verified_token_outlives_now t now decoded :
  0 <= now ->
  jwt_verify t JWT_REFRESH_SECRET now = Some decoded ->
  now < exp decoded * 1000.
Proof.
  intros Hnow Hverify. destruct t as [raw|raw complaint|k p]; [discriminate..|].
  cbn in Hverify.
  destruct (k =? JWT_REFRESH_SECRET)%string; [|discriminate].
  destruct (Z.ltb_spec (seconds now) (exp p)); [|discriminate].
  destruct (iss p =? ISSUER)%string; [|discriminate].
  destruct (aud p =? AUDIENCE)%string; [|discriminate].
  inversion Hverify; subst decoded. unfold seconds in *.
  pose proof (Z.mul_div_le now 1000 ltac:(lia)).
  pose proof (Z.mod_pos_bound now 1000 ltac:(lia)).
  pose proof (Z.div_mod now 1000 ltac:(lia)). lia.
Qed.
End Expiry.

(** alice's token at 2000000 against the row whose [expires_at] was moved
    back to 1500000. *)
Lemma refresh_expired_record_witness :
  refreshAccessToken (E := Demo.env) Demo.alice_token 2000000 "t-40" "r-40"
    Demo.db_stale
  = (Demo.db_stale, Thrown RefreshTokenExpired).
Proof.
  apply (refresh_expired_record (E := Demo.env) Demo.alice_token 2000000
           "t-40" "r-40" Demo.db_stale
           (mkPayload "u-alice" "alice" None (Some "t-1") "refresh" 1000 605800
              ISSUER AUDIENCE)
           (RefreshTokens.mk "r-1" "u-alice" "t-1"
              "refresh-secret.u-alice.t-1.refresh" 1500000 false)).
  - vm_compute; reflexivity.
  - vm_compute; reflexivity.
  - cbn. lia.
Defined.

(* ===================================================================== *)
(** ** Audit rows of the profile operations *)
(* ===================================================================== *)

Section ProfileAudit.
Context {E : Env}.

(** [changePassword] with a wrong current password: one failure row is
    appended and the client gets a 400. *)
Lemma changePassword_wrong_password req currentPassword newPassword salt db u :
  single (filter (fun v => (Users.id v =? req_user_id req)%string) (users db))
  = Some u ->
  comparePassword currentPassword (Users.password_hash u) = false ->
  changePassword req currentPassword newPassword salt db
  = (append_log
       (auth_log_row
          (mkEvent (Some (req_user_id req)) "password_change" false
             (req_ip req) (req_userAgent req)
             (Some "Invalid current password") None))
       db,
     mkResponse 400 false "Current password is incorrect" None).
Proof.
  intros Hfound Hpw.
  unfold changePassword, handle, bind at 1, select_users, query.
  rewrite Hfound, Hpw. cbn [negb]. unfold bind, ret.
  rewrite logAuthEvent_appends; [reflexivity|].
  intros uid Huid. apply or_null_some in Huid as [<- _].
  apply single_filter_found in Hfound as [Hin Hid].
  apply String.eqb_eq in Hid. rewrite <- Hid. now apply user_exists_In.
Qed.

(** [deleteAccount] with a wrong password: the client gets a 400 and
    the store, audit log included, is exactly as before. *)
Lemma deleteAccount_wrong_password req password password_ db u :
  or_null password = Some password_ ->
  single (filter (fun v => (Users.id v =? req_user_id req)%string) (users db))
  = Some u ->
  comparePassword password_ (Users.password_hash u) = false ->
  deleteAccount req password db
  = (db, mkResponse 400 false "Password is incorrect" None).
Proof.
  intros Hgiven Hfound Hpw.
  unfold deleteAccount, handle. rewrite Hgiven.
  unfold bind at 1, select_users, query.
  now rewrite Hfound, Hpw.
Qed.
End ProfileAudit.

(** C6, on the code.  alice, authenticated, asks to delete her account
    with the wrong password "nope": the handler answers 400 "Password is
    incorrect" and the audit log is unchanged, where [changePassword] in
    the same situation appends a failed "password_change" row. *)
Theorem deleteAccount_wrong_password_no_audit :
  deleteAccount (E := Demo.env) Demo.as_alice (Some "nope") Demo.db_alice
  = (Demo.db_alice, mkResponse 400 false "Password is incorrect" None)
  /\ auth_logs (fst (deleteAccount (E := Demo.env) Demo.as_alice (Some "nope")
                       Demo.db_alice))
     = auth_logs Demo.db_alice
  /\ auth_logs (fst (changePassword (E := Demo.env) Demo.as_alice "nope"
                       "N3w!Passw0rd" "s9" Demo.db_alice))
     = (auth_logs Demo.db_alice
        ++ [AuthLogs.mk (Some "u-alice") "password_change" (Some "10.0.0.7")
              (Some "curl") false (Some "Invalid current password") None])%list.
Proof.
  assert (Hfound : single (filter (fun v => (Users.id v =? "u-alice")%string)
                             (users Demo.db_alice)) = Some Demo.alice_row)
    by (vm_compute; reflexivity).
  assert (Hpw : comparePassword (E := Demo.env) "nope"
                  (Users.password_hash Demo.alice_row) = false)
    by (vm_compute; reflexivity).
  rewrite (deleteAccount_wrong_password (E := Demo.env) Demo.as_alice
             (Some "nope") "nope" Demo.db_alice Demo.alice_row eq_refl Hfound Hpw).
  rewrite (changePassword_wrong_password (E := Demo.env) Demo.as_alice
             "nope" "N3w!Passw0rd" "s9" Demo.db_alice Demo.alice_row Hfound Hpw).
  repeat split.
Qed.

(* ===================================================================== *)
(** ** Registration *)
(* ===================================================================== *)

Lemma varchar_fits n s : (String.length s <= n)%nat -> varchar n s = Some s.
Proof.
  intros H. unfold varchar. apply Nat.leb_le in H. now rewrite H.
Qed.

Lemma varchar_null_fits n o : within n o -> varchar_null n o = Some o.
Proof.
  intros H. destruct o as [s|]; [|reflexivity].
  cbn [varchar_null]. now rewrite (varchar_fits n s (H s eq_refl)).
Qed.

(** A row within the bounds is stored as given. *)
Lemma users_input_fits u : fits_columns u -> users_input u = inr u.
Proof.
  intros (Hn & He & Hf & Hl & Hp). unfold users_input.
  rewrite (varchar_fits _ _ Hn), (varchar_fits _ _ He),
    (varchar_null_fits _ _ Hf), (varchar_null_fits _ _ Hl),
    (varchar_null_fits _ _ Hp).
  now destruct u.
Qed.

(** The conversion touches the five text columns only. *)
Lemma users_input_keeps u v :
  users_input u = inr v ->
  Users.id v = Users.id u
  /\ Users.password_hash v = Users.password_hash u
  /\ Users.is_active v = Users.is_active u
  /\ Users.created_at v = Users.created_at u
  /\ Users.failed_login_attempts v = Users.failed_login_attempts u
  /\ Users.locked_until v = Users.locked_until u
  /\ Users.last_login v = Users.last_login u.
Proof.
  unfold users_input.
  destruct (varchar 30 (Users.username u)); [|discriminate].
  destruct (varchar 255 (Users.email u)); [|discriminate].
  destruct (varchar_null 50 (Users.first_name u)); [|discriminate].
  destruct (varchar_null 50 (Users.last_name u)); [|discriminate].
  destruct (varchar_null 20 (Users.phone u)); [|discriminate].
  intros H. inversion H. repeat split.
Qed.

(** What an insert into [users] does, by cases. *)
Lemma insert_user_cases u db :
  (exists e, insert_user u db = (db, inl e))
  \/ (exists v,
         users_input u = inr v
         /\ existsb (fun w => (Users.id w =? Users.id v)%string) (users db) = false
         /\ existsb (fun w => (Users.username w =? Users.username v)%string)
                    (users db) = false
         /\ existsb (fun w => (Users.email w =? Users.email v)%string) (users db)
            = false
         /\ insert_user u db
            = (mkDb (users db ++ [v]) (refresh_tokens db) (auth_logs db), inr v)).
Proof.
  unfold insert_user. destruct (users_input u) as [e|v]; [left; now exists e|].
  destruct (existsb (fun w => (Users.id w =? Users.id v)%string) (users db))
    eqn:H1; [left; eexists; reflexivity|].
  destruct (existsb (fun w => (Users.username w =? Users.username v)%string)
              (users db)) eqn:H2; [left; eexists; reflexivity|].
  destruct (existsb (fun w => (Users.email w =? Users.email v)%string) (users db))
    eqn:H3; [left; eexists; reflexivity|].
  right. exists v. repeat split; assumption.
Qed.

Lemma insert_user_stored u v db :
  users_input u = inr v ->
  existsb (fun w => (Users.id w =? Users.id v)%string) (users db) = false ->
  existsb (fun w => (Users.username w =? Users.username v)%string) (users db)
  = false ->
  existsb (fun w => (Users.email w =? Users.email v)%string) (users db) = false ->
  insert_user u db
  = (mkDb (users db ++ [v]) (refresh_tokens db) (auth_logs db), inr v).
Proof.
  intros Hin H1 H2 H3. unfold insert_user. now rewrite Hin, H1, H2, H3.
Qed.

Lemma insert_user_ledger u db :
  refresh_tokens (fst (insert_user u db)) = refresh_tokens db.
Proof.
  destruct (insert_user_cases u db) as [(e & ->) | (v & _ & _ & _ & _ & ->)];
    reflexivity.
Qed.

Lemma insert_user_logs u db :
  auth_logs (fst (insert_user u db)) = auth_logs db.
Proof.
  destruct (insert_user_cases u db) as [(e & ->) | (v & _ & _ & _ & _ & ->)];
    reflexivity.
Qed.

Section Registration.
Context {E : Env}.

(** When the existence check selects exactly one account, registration
    is refused as a conflict and nothing is written. *)
Lemma registerUser_conflict body now salt user_uuid token_uuid row_id db existing :
  single (filter (username_or_email (ud_username body) (ud_email body)) (users db))
  = Some existing ->
  exists field,
    registerUser body now salt user_uuid token_uuid row_id db
    = (db, Thrown (UserAlreadyExists field))
    /\ error_kind (UserAlreadyExists field) = ConflictError.
Proof.
  intros Hfound. unfold registerUser, bind at 1, select_users, query.
  rewrite Hfound. eexists. split; reflexivity.
Qed.

(** When no account carries the username or the email and the store
    accepts the new keys, registration returns the new user with a
    token pair, and the account and its ledger row are in the store. *)
Lemma registerUser_fresh body now salt user_uuid token_uuid row_id db :
  fits_columns (registered_row body now salt user_uuid) ->
  filter (username_or_email (ud_username body) (ud_email body)) (users db) = [] ->
  fresh_user_key user_uuid db ->
  fresh_ledger_keys row_id token_uuid db ->
  exists db' res,
    registerUser body now salt user_uuid token_uuid row_id db = (db', Returned res)
    /\ tokens res
       = generateTokens (mkIdentity user_uuid (ud_username body) (ud_email body))
           now token_uuid
    /\ exists u,
        users db' = (users db ++ [u])%list
        /\ Users.username u = ud_username body
        /\ Users.email u = ud_email body.
Proof.
  intros Hfits Habsent Hkey Hfresh.
  unfold registerUser, bind at 1, select_users, query.
  rewrite Habsent. cbn [single].
  unfold bind at 1, attempt. cbv zeta.
  fold (registered_row body now salt user_uuid).
  unfold fresh_user_key in Hkey.
  assert (Hu : existsb (fun v => (Users.username v =? ud_username body)%string)
                 (users db) = false
               /\ existsb (fun v => (Users.email v =? ud_email body)%string)
                    (users db) = false).
  { clear -Habsent. induction (users db) as [|a l IH]; [now split|].
    cbn [filter] in Habsent. unfold username_or_email in Habsent at 1.
    destruct (Users.username a =? ud_username body)%string eqn:Hn;
      [discriminate|].
    destruct (Users.email a =? ud_email body)%string eqn:He; [discriminate|].
    cbn [orb] in Habsent. destruct (IH Habsent) as [H1 H2].
    cbn [existsb]. now rewrite Hn, He, H1, H2. }
  destruct Hu as [Hname Hmail].
  rewrite (insert_user_stored _ _ db (users_input_fits _ Hfits) Hkey Hname Hmail).
  set (newUser := registered_row body now salt user_uuid).
  set (db1 := mkDb (users db ++ [newUser]) _ _).
  assert (Hex : user_exists user_uuid db1 = true).
  { unfold user_exists, db1. cbn [users]. rewrite existsb_app. cbn.
    rewrite String.eqb_refl. now rewrite orb_true_r. }
  unfold bind at 1. rewrite logAuthEvent_appends.
  2:{ intros uid Huid. apply or_null_some in Huid as [<- _]. exact Hex. }
  unfold bind at 1. cbn [generateTokens refreshToken].
  rewrite (storeRefreshToken_issued user_uuid);
    [ | reflexivity | exact Hfresh | exact Hex ].
  do 2 eexists. split; [reflexivity|]. split; [reflexivity|].
  exists newUser. repeat split.
Qed.
End Registration.

(** C7, on the code.  With alice and bob registered, a registration
    asking for alice's username and bob's email makes the existence check
    select two rows, so [.single()] yields no row and the check passes;
    the insert is then rejected by the store and the wrapped storage error
    is thrown, not the conflict error. *)
Theorem register_two_conflicts_is_storage_error :
  let body := mkUserData "alice" "bob@x.com" "An0ther!Pw" None None None in
  List.length (filter (username_or_email "alice" "bob@x.com")
                 (users Demo.db_alice_bob)) = 2%nat
  /\ registerUser (E := Demo.env) body 1000900 "s3" "u-3" "t-3" "r-3"
       Demo.db_alice_bob
     = (Demo.db_alice_bob,
        Thrown (FailedToCreateUser (UniqueViolation "users_username_key")))
  /\ error_kind (FailedToCreateUser (UniqueViolation "users_username_key"))
     <> ConflictError.
Proof.
  repeat split; try (vm_compute; reflexivity). discriminate.
Qed.

(* ===================================================================== *)
(** ** Logout *)
(* ===================================================================== *)

Lemma revoke_where_nothing (f : RefreshTokens.row -> bool) (db : Db) :
  (forall r, In r (refresh_tokens db) -> f r = false) -> revoke_where f db = db.
Proof.
  destruct db as [us rts logs]. unfold revoke_where. cbn [users refresh_tokens auth_logs].
  intros Hnone. f_equal.
  induction rts as [|a l IH]; [reflexivity|].
  cbn [map]. rewrite (Hnone a (or_introl eq_refl)). f_equal.
  apply IH. intros r Hr. apply Hnone. now right.
Qed.

Lemma revoke_twice (f : RefreshTokens.row -> bool) (l : list RefreshTokens.row) :
  (forall r, f (RefreshTokens.revoke r) = f r) ->
  map (fun r => if f r then RefreshTokens.revoke r else r)
      (map (fun r => if f r then RefreshTokens.revoke r else r) l)
  = map (fun r => if f r then RefreshTokens.revoke r else r) l.
Proof.
  intros Hf. rewrite map_map. apply map_ext. intros r.
  destruct (f r) eqn:Hr; [|now rewrite Hr].
  now rewrite Hf, Hr.
Qed.

Section Logout.
Context {E : Env}.

Lemma logout_target_revoke uid presented r :
  logout_target uid presented (RefreshTokens.revoke r)
  = logout_target uid presented r.
Proof.
  unfold logout_target. destruct presented as [t|]; [|reflexivity].
  destruct (jwt_decode t) as [[p|]|err]; [|reflexivity..].
  destruct (or_null (tokenId p)); reflexivity.
Qed.

(** When decoding the presented token does not throw, [logoutUser] is
    the update on the selected rows followed by the audit insert. *)
Lemma logoutUser_unfold uid presented db :
  (forall raw complaint, presented <> Some (Unparsable raw complaint)) ->
  logoutUser uid presented db
  = logAuthEvent (mkEvent (Some uid) "logout" true None None None None)
      (revoke_where (logout_target uid presented) db).
Proof.
  intros Hparses. unfold logoutUser, logout_target, bind at 1.
  destruct presented as [[raw|raw complaint|k p]|]; cbn [jwt_decode].
  - unfold ret. now rewrite revoke_where_nothing.
  - now destruct (Hparses raw complaint).
  - destruct (or_null (tokenId p)) as [tid|]; unfold exec, ret;
      [reflexivity | now rewrite revoke_where_nothing].
  - unfold ret. now rewrite revoke_where_nothing.
Qed.

(** When it throws, so does [logoutUser], before any write. *)
Lemma logoutUser_unparsable uid raw complaint db :
  logoutUser uid (Some (Unparsable raw complaint)) db
  = (db, Thrown (SyntaxError complaint)).
Proof. reflexivity. Qed.

(** The rows selected by the update, spelled out. *)
Lemma logout_target_spelled uid presented row :
  logout_target uid presented row
  = match presented with
    | Some (Signed _ p) =>
        match tokenId p with
        | Some tid =>
            negb (tid =? "")%string
            && (RefreshTokens.token_id row =? tid)%string
            && (RefreshTokens.user_id row =? uid)%string
        | None => false
        end
    | _ => false
    end.
Proof.
  unfold logout_target, owned_token.
  destruct presented as [[raw|raw complaint|k p]|]; try reflexivity.
  cbn [jwt_decode]. destruct (tokenId p) as [[|c tid]|]; reflexivity.
Qed.

(** C9, as the code has it.  Unless the presented token is one on which
    decoding throws, [logoutUser] returns for every user id and every
    presented token (absent, not a token, unknown or already revoked
    included) and the handler answers 200.  The accounts are untouched.
    In the ledger, exactly the rows whose [token_id] is the non-empty
    [tokenId] read from the token and whose [user_id] is the caller's
    have [is_revoked] set, every other column and every other row being
    as before; a second logout leaves accounts and ledger as the first
    did.  One "logout" row with success set is appended to the audit
    log when the user id is that of an account in the store (or empty,
    and the row then names no user); for any other user id the audit
    log is unchanged. *)
Theorem logout_best_effort uid presented db :
  (forall raw complaint, presented <> Some (Unparsable raw complaint)) ->
  let r := logoutUser uid presented db in
  let hit (row : RefreshTokens.row) : bool :=
    match presented with
    | Some (Signed _ p) =>
        match tokenId p with
        | Some tid =>
            negb (tid =? "")%string
            && (RefreshTokens.token_id row =? tid)%string
            && (RefreshTokens.user_id row =? uid)%string
        | None => false
        end
    | _ => false
    end in
  outcome r = Returned tt
  /\ (forall req, req_user_id req = uid ->
                  snd (logout req presented db)
                  = mkResponse 200 true "Logout successful" None)
  /\ users (store_after r) = users db
  /\ refresh_tokens (store_after r)
     = map (fun row =>
              if hit row
              then RefreshTokens.mk (RefreshTokens.id row)
                     (RefreshTokens.user_id row) (RefreshTokens.token_id row)
                     (RefreshTokens.token_hash row)
                     (RefreshTokens.expires_at row) true
              else row)
           (refresh_tokens db)
  /\ (let r2 := logoutUser uid presented (store_after r) in
      outcome r2 = Returned tt
      /\ users (store_after r2) = users (store_after r)
      /\ refresh_tokens (store_after r2) = refresh_tokens (store_after r))
  /\ (user_exists uid db = true ->
      uid <> "" ->
      auth_logs (store_after r)
      = (auth_logs db
         ++ [AuthLogs.mk (Some uid) "logout" None None true None None])%list)
  /\ (uid = "" ->
      auth_logs (store_after r)
      = (auth_logs db ++ [AuthLogs.mk None "logout" None None true None None])%list)
  /\ (user_exists uid db = false ->
      uid <> "" ->
      auth_logs (store_after r) = auth_logs db).
Proof.
  intros Hparses r hit.
  assert (Hhit : forall row, logout_target uid presented row = hit row)
    by (intros row; apply logout_target_spelled).
  assert (Hshape : forall d,
             let q := logoutUser uid presented d in
             outcome q = Returned tt
             /\ users (store_after q) = users d
             /\ refresh_tokens (store_after q)
                = map (fun row => if logout_target uid presented row
                                  then RefreshTokens.revoke row else row)
                      (refresh_tokens d)).
  { intros d q. subst q. rewrite (logoutUser_unfold _ _ _ Hparses).
    destruct (logAuthEvent_total
                (mkEvent (Some uid) "logout" true None None None None)
                (revoke_where (logout_target uid presented) d))
      as (d' & Hrun & Husers & Hledger).
    rewrite Hrun. unfold outcome, store_after. cbn [fst snd].
    rewrite Husers, Hledger. repeat split. }
  destruct (Hshape db) as (Hout & Husers & Hledger). fold r in Hout, Husers, Hledger.
  split; [exact Hout|].
  split.
  { intros req <-. unfold logout, handle, bind.
    unfold outcome in Hout. fold r. destruct r as [d o]. cbn [snd] in Hout.
    now rewrite Hout. }
  split; [exact Husers|].
  split.
  { rewrite Hledger. apply map_ext. intros row. now rewrite Hhit. }
  split.
  { destruct (Hshape (store_after r)) as (Hout2 & Husers2 & Hledger2).
    split; [exact Hout2|]. split; [exact Husers2|].
    rewrite Hledger2, Hledger. apply revoke_twice.
    intros row. apply logout_target_revoke. }
  split.
  { intros Hexists Hne. subst r. rewrite (logoutUser_unfold _ _ _ Hparses).
    rewrite logAuthEvent_appends.
    - unfold store_after. cbn [fst append_log auth_logs revoke_where].
      unfold auth_log_row. cbn.
      destruct uid as [|c rest]; [contradiction | reflexivity].
    - intros v Hv. apply or_null_some in Hv as [<- _].
      now rewrite user_exists_revoke. }
  split.
  { intros ->. subst r. rewrite (logoutUser_unfold _ _ _ Hparses).
    rewrite logAuthEvent_appends; [reflexivity|].
    cbn. discriminate. }
  intros Hghost Hne. subst r. rewrite (logoutUser_unfold _ _ _ Hparses).
  unfold logAuthEvent, bind, attempt, insert_auth_log, auth_log_row.
  cbn [AuthLogs.user_id ev_userId].
  destruct uid as [|c rest]; [contradiction|]. cbn [or_null].
  rewrite user_exists_revoke, Hghost. reflexivity.
Qed.
End Logout.

(** alice logs out presenting the refresh token of her registration:
    its ledger row is revoked and an audit row is appended. *)
Lemma logout_best_effort_witness :
  refresh_tokens (store_after (logoutUser "u-alice" (Some Demo.alice_token)
                                 Demo.db_alice))
  = [RefreshTokens.mk "r-1" "u-alice" "t-1" "refresh-secret.u-alice.t-1.refresh"
       605800000 true]
  /\ auth_logs (store_after (logoutUser "u-alice" (Some Demo.alice_token)
                               Demo.db_alice))
     = (auth_logs Demo.db_alice
        ++ [AuthLogs.mk (Some "u-alice") "logout" None None true None None])%list.
Proof.
  destruct (logout_best_effort "u-alice" (Some Demo.alice_token) Demo.db_alice)
    as (_ & _ & _ & Hledger & _ & Haudit & _).
  - intros raw complaint H. discriminate H.
  - split.
    + rewrite Hledger. reflexivity.
    + apply Haudit; [reflexivity | discriminate].
Defined.

(** C9 as stated fails twice.  A string in the shape of a token whose
    header announces a JWT and whose payload is not JSON makes the
    decoding throw: [logoutUser] throws, the handler answers 500 and
    nothing is written.  And for a user id that no account carries,
    [logoutUser] returns, but the store rejects the audit row, so no
    logout event is recorded. *)
Lemma logout_fails_on_unparsable_token :
  outcome (logoutUser "u-alice" (Some Scenario.unparsable_token) Demo.db_alice)
  = Thrown (SyntaxError "Unexpected token o in JSON at position 1")
  /\ logout Demo.as_alice (Some Scenario.unparsable_token) Demo.db_alice
     = (Demo.db_alice, mkResponse 500 false "Logout failed" None)
  /\ user_exists "u-ghost" Demo.db_alice = false
  /\ logoutUser "u-ghost" (Some Demo.alice_token) Demo.db_alice
     = (Demo.db_alice, Returned tt).
Proof.
  repeat split.
Qed.

(* ===================================================================== *)
(** ** Every request changes the store by plain writes *)
(* ===================================================================== *)

Lemma writes_one db1 db2 : write db1 db2 -> writes db1 db2.
Proof. intros H. eapply writes_step; [exact H | apply writes_none]. Qed.

Lemma writes_trans db1 db2 db3 : writes db1 db2 -> writes db2 db3 -> writes db1 db3.
Proof.
  induction 1 as [|a b c Hab Hbc IH]; [trivial|].
  intros Hcd. eapply writes_step; [exact Hab | now apply IH].
Qed.

Lemma tame_ret {A} (a : A) : tame (ret a).
Proof. intros db. apply writes_none. Qed.

Lemma tame_throw {A} (e : Error) : tame (@throw A e).
Proof. intros db. apply writes_none. Qed.

Lemma tame_query {A} (f : Db -> A) : tame (query f).
Proof. intros db. apply writes_none. Qed.

Lemma tame_exec (f : Db -> Db) : (forall db, write db (f db)) -> tame (exec f).
Proof. intros Hf db. apply writes_one, Hf. Qed.

Lemma tame_attempt {A} (f : Db -> Db * A) :
  (forall db, write db (fst (f db))) -> tame (attempt f).
Proof.
  intros Hf db. unfold attempt. specialize (Hf db).
  destruct (f db) as [db' e]. now apply writes_one.
Qed.

Lemma tame_bind {A B} (c : M A) (k : A -> M B) :
  tame c -> (forall a, tame (k a)) -> tame (bind c k).
Proof.
  intros Hc Hk db. unfold bind. specialize (Hc db).
  destruct (c db) as [db' [a|e]]; cbn [fst] in *.
  - eapply writes_trans; [exact Hc | apply Hk].
  - exact Hc.
Qed.

Lemma handle_store (body : M Response) (on_error : Error -> Response) (db : Db) :
  fst (handle body on_error db) = fst (body db).
Proof. unfold handle. now destruct (body db) as [db' [r|e]]. Qed.

Create HintDb tame discriminated.
#[export] Hint Resolve tame_ret tame_throw tame_query : tame.
#[export] Hint Constructors write : tame.

(** Walks down a method body: binds, branches and the primitive steps. *)
Ltac tame_step :=
  match goal with
  | |- tame (bind _ _) => apply tame_bind; [|intro]
  | |- tame (ret _) => apply tame_ret
  | |- tame (throw _) => apply tame_throw
  | |- tame (query _) => apply tame_query
  | |- tame (select_users _) => apply tame_query
  | |- tame (select_refresh_tokens _) => apply tame_query
  | |- tame (exec _) => apply tame_exec; intro; auto with tame
  | |- tame (attempt _) => apply tame_attempt; intro; auto with tame
  | |- tame (match ?x with _ => _ end) => destruct x
  | |- tame (let _ := _ in _) => cbv zeta
  end.

Section Tame.
Context {E : Env}.

Lemma tame_logAuthEvent ev : tame (logAuthEvent ev).
Proof. unfold logAuthEvent. repeat tame_step. Qed.

Lemma tame_verifyRefreshToken t now : tame (verifyRefreshToken t now).
Proof. unfold verifyRefreshToken. repeat tame_step. Qed.

Lemma tame_storeRefreshToken uid t row_id : tame (storeRefreshToken uid t row_id).
Proof. unfold storeRefreshToken. repeat tame_step. Qed.

Hint Resolve tame_logAuthEvent tame_verifyRefreshToken tame_storeRefreshToken
  : tame.

Ltac tame_body := repeat (tame_step || solve [auto with tame]).

Lemma tame_registerUser body now salt user_uuid token_uuid row_id :
  tame (registerUser body now salt user_uuid token_uuid row_id).
Proof. unfold registerUser. tame_body. Qed.

Lemma tame_loginUser identifier password ip ua now token_uuid row_id :
  tame (loginUser identifier password ip ua now token_uuid row_id).
Proof. unfold loginUser. tame_body. Qed.

Lemma tame_refreshAccessToken t now token_uuid row_id :
  tame (refreshAccessToken t now token_uuid row_id).
Proof. unfold refreshAccessToken. tame_body. Qed.

Lemma tame_logoutUser uid presented : tame (logoutUser uid presented).
Proof. unfold logoutUser. tame_body. Qed.

Hint Resolve tame_registerUser tame_loginUser tame_refreshAccessToken
  tame_logoutUser : tame.

(** Each request of [Call] is a sequence of plain writes. *)
Lemma run_call_writes c db : writes db (run_call c db).
Proof.
  destruct c; cbn [run_call];
    [unfold register | unfold login | unfold refreshToken_handler
     | unfold logout | unfold changePassword];
    cbv zeta; rewrite handle_store;
    match goal with
    | |- writes ?d (fst (?body ?d)) => generalize d; change (tame body)
    end;
    tame_body.
Qed.
End Tame.

(* ===================================================================== *)
(** ** Ledger invariants kept by every write *)
(* ===================================================================== *)

(** What one write can do to the ledger: nothing, revoke some rows, or
    append a row whose correlation id is new. *)
Lemma write_ledger db db' :
  write db db' ->
  refresh_tokens db' = refresh_tokens db
  \/ (exists f : RefreshTokens.row -> bool,
         refresh_tokens db'
         = map (fun r => if f r then RefreshTokens.revoke r else r)
               (refresh_tokens db))
  \/ (exists r,
         refresh_tokens db' = (refresh_tokens db ++ [r])%list
         /\ existsb (fun q => RefreshTokens.token_id q =? RefreshTokens.token_id r)%string
                    (refresh_tokens db) = false).
Proof.
  intros Hw. destruct Hw as [uid p d | u d | r d | f d | e d].
  - left. apply update_user_ledger.
  - left. apply insert_user_ledger.
  - unfold insert_refresh_token.
    destruct (existsb _ (refresh_tokens d)); [now left|].
    destruct (existsb _ (refresh_tokens d)) eqn:Htid; [now left|].
    destruct (negb _); [now left|].
    right; right. exists r. now split.
  - right; left. now exists f.
  - left. unfold insert_auth_log.
    destruct (AuthLogs.user_id e); [destruct (user_exists _ d)|]; reflexivity.
Qed.

Lemma in_revoked_map (f : RefreshTokens.row -> bool) l r' :
  In r' (map (fun r => if f r then RefreshTokens.revoke r else r) l) ->
  exists r,
    In r l
    /\ RefreshTokens.token_id r' = RefreshTokens.token_id r
    /\ RefreshTokens.token_hash r' = RefreshTokens.token_hash r
    /\ RefreshTokens.user_id r' = RefreshTokens.user_id r
    /\ (RefreshTokens.is_revoked r = true -> RefreshTokens.is_revoked r' = true)
    /\ (f r = true -> RefreshTokens.is_revoked r' = true).
Proof.
  intros Hin. apply in_map_iff in Hin as (r & <- & Hr).
  exists r. split; [exact Hr|].
  destruct (f r); cbn; repeat split; auto; discriminate.
Qed.

Lemma known_id_not_new tid r l :
  (exists q, In q l /\ RefreshTokens.token_id q = tid) ->
  existsb (fun q => RefreshTokens.token_id q =? RefreshTokens.token_id r)%string l
  = false ->
  RefreshTokens.token_id r <> tid.
Proof.
  intros (q & Hq & Hqt) Hnew Heq.
  assert (Htrue : existsb (fun q => RefreshTokens.token_id q
                                    =? RefreshTokens.token_id r)%string l = true).
  { apply existsb_exists. exists q. split; [exact Hq|].
    apply String.eqb_eq. congruence. }
  congruence.
Qed.

Lemma ledger_knows_write tid db db' :
  write db db' -> ledger_knows tid db -> ledger_knows tid db'.
Proof.
  intros Hw (q & Hq & Hqt). unfold ledger_knows.
  destruct (write_ledger _ _ Hw) as [-> | [(f & ->) | (r & -> & _)]].
  - now exists q.
  - exists (if f q then RefreshTokens.revoke q else q). split.
    + apply in_map_iff. now exists q.
    + now destruct (f q).
  - exists q. split; [apply in_or_app; now left | exact Hqt].
Qed.

Lemma owned_by_write tid uid db db' :
  write db db' -> owned_by tid uid db -> owned_by tid uid db'.
Proof.
  intros Hw [Hknown Hown]. split; [now apply (ledger_knows_write tid db)|].
  destruct (write_ledger _ _ Hw) as [-> | [(f & ->) | (r & -> & Hnew)]].
  - exact Hown.
  - intros r' Hin Htid.
    apply in_revoked_map in Hin as (r & Hr & Ht & _ & Hu & _).
    rewrite Hu. apply Hown; congruence.
  - intros r' Hin Htid. apply in_app_or in Hin as [Hin | [<- | []]].
    + now apply Hown.
    + now destruct (known_id_not_new tid r _ Hknown Hnew).
Qed.

Lemma dead_write tid hash db db' :
  write db db' -> dead tid hash db -> dead tid hash db'.
Proof.
  intros Hw [Hknown Hdead]. split; [now apply (ledger_knows_write tid db)|].
  destruct (write_ledger _ _ Hw) as [-> | [(f & ->) | (r & -> & Hnew)]].
  - exact Hdead.
  - intros r' Hin Htid Hhash.
    apply in_revoked_map in Hin as (r & Hr & Ht & Hh & _ & Hkeep & _).
    apply Hkeep, Hdead; congruence.
  - intros r' Hin Htid Hhash. apply in_app_or in Hin as [Hin | [<- | []]].
    + now apply Hdead.
    + now destruct (known_id_not_new tid r _ Hknown Hnew).
Qed.

Lemma owned_by_writes tid uid db db' :
  writes db db' -> owned_by tid uid db -> owned_by tid uid db'.
Proof.
  induction 1 as [|a b c Hab _ IH]; [trivial|].
  intros H. apply IH. now apply (owned_by_write tid uid a).
Qed.

Lemma dead_writes tid hash db db' :
  writes db db' -> dead tid hash db -> dead tid hash db'.
Proof.
  induction 1 as [|a b c Hab _ IH]; [trivial|].
  intros H. apply IH. now apply (dead_write tid hash a).
Qed.

(* ===================================================================== *)
(** ** Issuing, rotating and revoking refresh tokens *)
(* ===================================================================== *)

Lemma owned_by_new_row tid uid (l : list RefreshTokens.row) row db' :
  existsb (fun q => RefreshTokens.token_id q =? tid)%string l = false ->
  refresh_tokens db' = (l ++ [row])%list ->
  RefreshTokens.token_id row = tid ->
  RefreshTokens.user_id row = uid ->
  owned_by tid uid db'.
Proof.
  intros Hnew Hledger Htid Huid. unfold owned_by, ledger_knows. rewrite Hledger.
  split.
  - exists row. split; [apply in_or_app; right; now left | exact Htid].
  - intros r Hin Hr. apply in_app_or in Hin as [Hin | [<- | []]]; [|exact Huid].
    assert (Htrue : existsb (fun q => RefreshTokens.token_id q =? tid)%string l
                    = true).
    { apply existsb_exists. exists r. split; [exact Hin|]. now apply String.eqb_eq. }
    congruence.
Qed.

Section Ledger.
Context {E : Env}.

(** When [storeRefreshToken] returns, the token decoded, carried a
    correlation id new to the ledger, and one row was appended. *)
Lemma storeRefreshToken_returned uid t row_id db db' :
  storeRefreshToken uid t row_id db = (db', Returned tt) ->
  exists p tid,
    jwt_decode t = Returned (Some p)
    /\ tokenId p = Some tid
    /\ existsb (fun q => RefreshTokens.token_id q =? tid)%string
               (refresh_tokens db) = false
    /\ refresh_tokens db'
       = (refresh_tokens db
          ++ [RefreshTokens.mk row_id uid tid (sha256 t) (exp p * 1000) false])%list.
Proof.
  unfold storeRefreshToken.
  destruct (jwt_decode t) as [[p|]|err]; [|discriminate..].
  destruct (tokenId p) as [tid|] eqn:Htid; [|discriminate].
  unfold bind, attempt, insert_refresh_token.
  cbn [RefreshTokens.id RefreshTokens.token_id RefreshTokens.user_id].
  destruct (existsb _ (refresh_tokens db)); [discriminate|].
  destruct (existsb _ (refresh_tokens db)) eqn:Hnew; [discriminate|].
  destruct (negb _); [discriminate|].
  intros H. inversion H; subst db'. exists p, tid. repeat split; assumption.
Qed.

(** A log step in the middle of a method: it returns and keeps accounts
    and ledger. *)
Ltac log_step d :=
  match goal with
  | |- context [logAuthEvent ?ev ?db] =>
      let Hrun := fresh "Hrun" in
      let Hu := fresh "Hu" in
      let Hl := fresh "Hl" in
      destruct (logAuthEvent_total ev db) as (d & Hrun & Hu & Hl);
      rewrite Hrun
  end.

(** A returned login issued its token to the account it names. *)
Lemma loginUser_returned identifier password ip ua now token_uuid row_id db db' res :
  loginUser identifier password ip ua now token_uuid row_id db
  = (db', Returned res) ->
  exists u,
    res = login_result u now token_uuid
    /\ owned_by token_uuid (Users.id u) db'.
Proof.
  unfold loginUser, bind at 1, select_users, query.
  destruct (single _) as [u|].
  2:{ unfold bind, throw. log_step d. discriminate. }
  destruct (is_locked u now).
  { unfold bind, throw. log_step d. discriminate. }
  destruct (negb (Users.is_active u)).
  { unfold bind, throw. log_step d. discriminate. }
  destruct (negb (comparePassword password (Users.password_hash u))).
  { unfold bind at 1, attempt. destruct (update_user _ _ db) as [d0 e0].
    unfold bind, throw. log_step d. discriminate. }
  unfold bind at 1, attempt.
  change (update_user (Users.id u)
            (Users.mkPatch None (Some (Some 0)) (Some None) (Some (Some now))) db)
    with (patch_users (Users.id u) (login_reset now) db, @None DbError).
  unfold bind at 1.
  destruct (storeRefreshToken _ _ _ _) as [d1 [[]|e]] eqn:Hstore; [|discriminate].
  apply storeRefreshToken_returned in Hstore as (p & tid & Hp & Htid & Hnew & Hl1).
  cbn in Hp. inversion Hp; subst p. cbn in Htid. inversion Htid; subst tid.
  unfold bind. log_step d2. intros H. inversion H; subst. clear H.
  exists u. split; [reflexivity|].
  apply (owned_by_new_row token_uuid (Users.id u)
           (refresh_tokens (patch_users (Users.id u) (login_reset now) db))
           (RefreshTokens.mk row_id (Users.id u) token_uuid
              (sha256 (generateRefreshToken (identity_of u) now token_uuid))
              ((seconds now + timespan JWT_REFRESH_EXPIRES_IN) * 1000) false));
    [exact Hnew | now rewrite Hl, Hl1 | reflexivity | reflexivity].
Qed.

(** A returned registration issued its token to the new account, the
    row as the store holds it. *)
Lemma registerUser_returned body now salt user_uuid token_uuid row_id db db' res :
  registerUser body now salt user_uuid token_uuid row_id db
  = (db', Returned res) ->
  exists v,
    users_input (registered_row body now salt user_uuid) = inr v
    /\ view_id (user res) = user_uuid
    /\ refreshToken (tokens res)
       = generateRefreshToken (identity_of v) now token_uuid
    /\ owned_by token_uuid user_uuid db'.
Proof.
  unfold registerUser, bind at 1, select_users, query.
  destruct (single _) as [existing|]; [discriminate|].
  unfold bind at 1, attempt. cbv zeta.
  fold (registered_row body now salt user_uuid).
  destruct (insert_user_cases (registered_row body now salt user_uuid) db)
    as [(e & ->) | (v & Hin & _ & _ & _ & ->)]; [discriminate|].
  destruct (users_input_keeps _ _ Hin) as (Hid & _).
  cbn [registered_row Users.id] in Hid.
  unfold bind at 1. log_step d1. unfold bind.
  destruct (storeRefreshToken _ _ _ _) as [d2 [[]|e]] eqn:Hstore; [|discriminate].
  apply storeRefreshToken_returned in Hstore as (p & tid & Hp & Htid & Hnew & Hl2).
  cbn in Hp. inversion Hp; subst p. cbn in Htid. inversion Htid; subst tid.
  intros H. inversion H; subst. clear H. cbn [user tokens view_id refreshToken
                                             generateTokens].
  exists v. split; [exact Hin|]. split; [reflexivity|]. split; [reflexivity|].
  eapply owned_by_new_row; [exact Hnew | exact Hl2 | reflexivity | reflexivity].
Qed.

(** A returned refresh issued its new token to the account of the
    presented one. *)
Lemma refreshAccessToken_returned t now token_uuid row_id db db' res :
  refreshAccessToken t now token_uuid row_id db = (db', Returned res) ->
  exists u,
    view_id (user res) = Users.id u
    /\ refreshToken (tokens res)
       = generateRefreshToken (identity_of u) now token_uuid
    /\ owned_by token_uuid (Users.id u) db'.
Proof.
  unfold refreshAccessToken, verifyRefreshToken.
  destruct (jwt_verify t JWT_REFRESH_SECRET now) as [p|]; [|discriminate].
  unfold bind at 1, ret. unfold bind at 1, select_refresh_tokens, query.
  destruct (single _) as [storedToken|]; [|discriminate].
  destruct (RefreshTokens.expires_at storedToken <? now); [discriminate|].
  unfold bind at 1, select_users, query.
  match goal with
  | |- context [single (filter ?f (users db))] =>
      destruct (single (filter f (users db))) as [u|]; [|discriminate]
  end.
  destruct (negb (Users.is_active u)); [discriminate|].
  unfold bind at 1, exec. unfold bind.
  destruct (storeRefreshToken _ _ _ _) as [d1 [[]|e]] eqn:Hstore; [|discriminate].
  intros H. inversion H; subst. clear H.
  apply storeRefreshToken_returned in Hstore as (q & tid & Hq & Htid & Hnew & Hl).
  cbn in Hq. inversion Hq; subst q. cbn in Htid. inversion Htid; subst tid.
  exists u. split; [reflexivity|]. split; [reflexivity|].
  eapply owned_by_new_row; [exact Hnew | exact Hl | reflexivity | reflexivity].
Qed.

(** An issued token decodes to a non-empty correlation id that the
    ledger holds on rows of its user only. *)
Lemma issued_owned t uid db :
  Issued t uid db ->
  exists p tid,
    jwt_decode t = Returned (Some p)
    /\ tokenId p = Some tid
    /\ tid <> ""
    /\ owned_by tid uid db.
Proof.
  induction 1 as [identifier password ip ua now token_uuid row_id db db' res
                    Hne Hrun Ht Hu
                 | body now salt user_uuid token_uuid row_id db db' res
                     Hne Hrun Ht Hu
                 | presented now token_uuid row_id db db' res Hne Hrun Ht Hu
                 | c db _ IH].
  - apply loginUser_returned in Hrun as (u & -> & Hown).
    subst t uid. eexists. exists token_uuid.
    split; [reflexivity|]. split; [reflexivity|]. now split.
  - apply registerUser_returned in Hrun as (v & _ & Hid & Htok & Hown).
    rewrite Hid in Hu. subst uid. rewrite Htok in Ht. subst t.
    eexists. exists token_uuid.
    split; [reflexivity|]. split; [reflexivity|]. now split.
  - apply refreshAccessToken_returned in Hrun as (u & Hid & Htok & Hown).
    rewrite Hid in Hu. subst uid. rewrite Htok in Ht. subst t.
    eexists. exists token_uuid.
    split; [reflexivity|]. split; [reflexivity|]. now split.
  - destruct IH as (p & tid & Hp & Htid & Hne & Hown).
    exists p, tid. split; [exact Hp|]. split; [exact Htid|]. split; [exact Hne|].
    apply (owned_by_writes tid uid db); [apply run_call_writes | exact Hown].
Qed.
End Ledger.

Section Rotation.
Context {E : Env}.

Lemma jwt_verify_decode t secret now p :
  jwt_verify t secret now = Some p -> jwt_decode t = Returned (Some p).
Proof.
  destruct t as [raw|raw complaint|k q]; [discriminate..|]. cbn.
  destruct (_ && _); [intros H; now inversion H | discriminate].
Qed.

(** A ledger row that the lookup of [refreshAccessToken] selects. *)
Lemma matches_presented_inv p hash r :
  matches_presented p hash r = true ->
  RefreshTokens.token_id r = js_string (tokenId p)
  /\ RefreshTokens.token_hash r = hash
  /\ RefreshTokens.is_revoked r = false.
Proof.
  unfold matches_presented. intros H.
  apply andb_prop in H as [H Hrev]. apply andb_prop in H as [Htid Hhash].
  apply String.eqb_eq in Htid, Hhash. apply negb_true_iff in Hrev. auto.
Qed.

(** Against a dead token the refresh is refused as invalid, and the
    store is not written. *)
Lemma dead_refresh_fails t p now token_uuid row_id db :
  jwt_decode t = Returned (Some p) ->
  dead (js_string (tokenId p)) (sha256 t) db ->
  exists e,
    refreshAccessToken t now token_uuid row_id db = (db, Thrown e)
    /\ error_kind e = InvalidTokenError.
Proof.
  intros Hp [_ Hdead]. unfold refreshAccessToken, verifyRefreshToken.
  destruct (jwt_verify t JWT_REFRESH_SECRET now) as [q|] eqn:Hv.
  2:{ exists InvalidOrExpiredRefreshToken. now split. }
  apply jwt_verify_decode in Hv. rewrite Hp in Hv. inversion Hv; subst q.
  unfold bind at 1, ret. unfold bind at 1, select_refresh_tokens, query.
  rewrite single_nil.
  - exists InvalidRefreshToken. now split.
  - intros r Hin.
    destruct (matches_presented p (sha256 t) r) eqn:Hm; [|reflexivity].
    apply matches_presented_inv in Hm as (Htid & Hhash & Hrev).
    rewrite (Hdead r Hin Htid Hhash) in Hrev. discriminate.
Qed.

(** A returned refresh leaves the presented token dead. *)
Lemma refresh_returned_dead t now token_uuid row_id db db' res :
  refreshAccessToken t now token_uuid row_id db = (db', Returned res) ->
  exists p,
    jwt_decode t = Returned (Some p)
    /\ dead (js_string (tokenId p)) (sha256 t) db'.
Proof.
  unfold refreshAccessToken, verifyRefreshToken.
  destruct (jwt_verify t JWT_REFRESH_SECRET now) as [p|] eqn:Hv; [|discriminate].
  unfold bind at 1, ret. unfold bind at 1, select_refresh_tokens, query.
  destruct (single _) as [storedToken|] eqn:Hstored; [|discriminate].
  destruct (RefreshTokens.expires_at storedToken <? now); [discriminate|].
  unfold bind at 1, select_users, query.
  match goal with
  | |- context [single (filter ?f (users db))] =>
      destruct (single (filter f (users db))) as [u|]; [|discriminate]
  end.
  destruct (negb (Users.is_active u)); [discriminate|].
  unfold bind at 1, exec. unfold bind.
  destruct (storeRefreshToken _ _ _ _) as [d1 [[]|e]] eqn:Hstore; [|discriminate].
  intros H. inversion H; subst. clear H.
  apply storeRefreshToken_returned in Hstore as (q & tid & _ & _ & Hnew & Hl).
  cbn [revoke_where refresh_tokens] in Hnew, Hl.
  exists p. split; [eapply jwt_verify_decode; exact Hv|].
  pose proof (single_inv _ _ Hstored) as Hone.
  apply single_filter_found in Hstored as [Hin Hm].
  apply matches_presented_inv in Hm as (Hst & _ & _).
  set (g := fun r => if (RefreshTokens.id r =? RefreshTokens.id storedToken)%string
                     then RefreshTokens.revoke r else r) in *.
  assert (Hknown : exists r, In r (map g (refresh_tokens db))
                             /\ RefreshTokens.token_id r
                                = js_string (tokenId p)).
  { exists (g storedToken). split; [now apply in_map|].
    unfold g. now destruct (_ =? _)%string. }
  split.
  - destruct Hknown as (r & Hr & Hrt). exists r. rewrite Hl.
    split; [apply in_or_app; now left | exact Hrt].
  - intros r' Hin' Htid' Hhash'. rewrite Hl in Hin'.
    apply in_app_or in Hin' as [Hin' | [<- | []]].
    + apply in_revoked_map in Hin' as (r & Hr & Ht & Hh & _ & Hkeep & Hhit).
      destruct (RefreshTokens.is_revoked r) eqn:Hrev; [now apply Hkeep|].
      apply Hhit.
      assert (Hsel : In r (filter (matches_presented p (sha256 t))
                             (refresh_tokens db))).
      { apply filter_In. split; [exact Hr|].
        unfold matches_presented.
        rewrite <- Ht, Htid', <- Hh, Hhash', Hrev, !String.eqb_refl.
        reflexivity. }
      rewrite Hone in Hsel. destruct Hsel as [<- | []].
      apply String.eqb_refl.
    + cbn [RefreshTokens.token_id] in Htid'.
      exfalso. eapply (known_id_not_new (js_string (tokenId p))
                         (RefreshTokens.mk row_id (Users.id u) tid
                            (sha256 (refreshToken
                                       (generateTokens (identity_of u) now
                                          token_uuid)))
                            (exp q * 1000) false));
        [exact Hknown | exact Hnew | exact Htid'].
Qed.

(** Once the user it was issued to logs out presenting it, a token is
    dead. *)
Lemma logout_issued_dead t uid db :
  Issued t uid db ->
  exists p,
    jwt_decode t = Returned (Some p)
    /\ dead (js_string (tokenId p)) (sha256 t)
            (store_after (logoutUser uid (Some t) db)).
Proof.
  intros Hissued.
  destruct (issued_owned t uid db Hissued)
    as (p & tid & Hp & Htid & Hne & Hknown & Hown).
  exists p. split; [exact Hp|]. rewrite Htid. cbn [js_string].
  rewrite logoutUser_unfold
    by (intros raw complaint Heq; inversion Heq; subst t; discriminate Hp).
  destruct (logAuthEvent_total
              (mkEvent (Some uid) "logout" true None None None None)
              (revoke_where (logout_target uid (Some t)) db))
    as (d & Hrun & _ & Hl).
  rewrite Hrun. unfold store_after. cbn [fst]. split.
  - unfold ledger_knows. rewrite Hl.
    apply (ledger_knows_write tid db); [constructor | exact Hknown].
  - intros r' Hin' Htid' _. rewrite Hl in Hin'.
    cbn [revoke_where refresh_tokens] in Hin'.
    apply in_revoked_map in Hin' as (r & Hr & Ht & _ & _ & _ & Hhit).
    apply Hhit. unfold logout_target. rewrite Hp, Htid.
    assert (Hnull : or_null (Some tid) = Some tid).
    { destruct tid; [contradiction|reflexivity]. }
    rewrite Hnull. unfold owned_token.
    rewrite <- Ht, Htid', (Hown r Hr), !String.eqb_refl; [reflexivity|].
    congruence.
Qed.
End Rotation.

(* ===================================================================== *)
(** ** Single use of a refresh token *)
(* ===================================================================== *)

Section SingleUse.
Context {E : Env}.

Lemma run_calls_writes cs db : writes db (run_calls cs db).
Proof.
  revert db. induction cs as [|c cs IH]; intros db; [apply writes_none|].
  cbn [run_calls fold_left]. eapply writes_trans; [apply run_call_writes|].
  apply IH.
Qed.

Lemma spent_dead t db :
  Spent t db ->
  exists p,
    jwt_decode t = Returned (Some p)
    /\ dead (js_string (tokenId p)) (sha256 t) db.
Proof.
  induction 1 as [now token_uuid row_id db db' res Hrun
                 | uid db Hissued
                 | c db _ IH].
  - now apply refresh_returned_dead in Hrun.
  - now apply logout_issued_dead.
  - destruct IH as (p & Hp & Hdead). exists p. split; [exact Hp|].
    apply (dead_writes _ _ db); [apply run_call_writes | exact Hdead].
Qed.

(** C1.  Once a refresh presenting token [t] has succeeded, or the user
    that [t] was issued to (by a login or a registration) has logged out
    presenting it, every later refresh presenting [t], whatever requests
    were served in between, throws an error of the invalid-token kind
    and writes nothing. *)
Theorem refresh_token_single_use t db :
  Spent t db ->
  forall now token_uuid row_id,
  exists e,
    refreshAccessToken t now token_uuid row_id db = (db, Thrown e)
    /\ error_kind e = InvalidTokenError.
Proof.
  intros Hspent now token_uuid row_id.
  destruct (spent_dead t db Hspent) as (p & Hp & Hdead).
  now apply (dead_refresh_fails t p).
Qed.
End SingleUse.

(** alice's registration token: spent by her refresh at 1500000, and
    spent by her logout right after registering; a later refresh with it
    is refused in both stores. *)
Lemma refresh_token_single_use_witness :
  (exists e,
      refreshAccessToken (E := Demo.env) Demo.alice_token 1600000 "t-6" "r-6"
        Demo.db_refreshed
      = (Demo.db_refreshed, Thrown e)
      /\ error_kind e = InvalidTokenError)
  /\ (exists e,
         outcome (refreshAccessToken (E := Demo.env) Demo.alice_token 1600000
                    "t-6" "r-6"
                    (store_after (logoutUser "u-alice" (Some Demo.alice_token)
                                    Demo.db_alice)))
         = Thrown e
         /\ error_kind e = InvalidTokenError).
Proof.
  split.
  - apply (refresh_token_single_use (E := Demo.env) Demo.alice_token
             Demo.db_refreshed).
    apply (spent_by_refresh (E := Demo.env) Demo.alice_token 1500000 "t-5" "r-5"
             Demo.db_alice Demo.db_refreshed Demo.refreshed_result).
    vm_compute; reflexivity.
  - destruct (refresh_token_single_use (E := Demo.env) Demo.alice_token
                (store_after (logoutUser "u-alice" (Some Demo.alice_token)
                                Demo.db_alice))) with (now := 1600000)
         (token_uuid := "t-6") (row_id := "r-6") as (e & Hrun & Hkind).
    + apply (spent_by_logout (E := Demo.env) Demo.alice_token "u-alice").
      apply (issued_by_register (E := Demo.env) Demo.alice_token "u-alice"
               Demo.alice 1000000 "s1" "u-alice" "t-1" "r-1" Demo.empty
               Demo.db_alice Demo.alice_result).
      * discriminate.
      * vm_compute; reflexivity.
      * reflexivity.
      * reflexivity.
    + exists e. split; [|exact Hkind]. unfold outcome. now rewrite Hrun.
Defined.

(* ===================================================================== *)
(** ** Password change *)
(* ===================================================================== *)

Section PasswordChange.
Context {E : Env}.

Lemma changePassword_success req currentPassword newPassword salt db u :
  single (filter (fun v => (Users.id v =? req_user_id req)%string) (users db))
  = Some u ->
  comparePassword currentPassword (Users.password_hash u) = true ->
  changePassword req currentPassword newPassword salt db
  = (append_log
       (auth_log_row
          (mkEvent (Some (req_user_id req)) "password_change" true
             (req_ip req) (req_userAgent req) None None))
       (revoke_where
          (fun r => (RefreshTokens.user_id r =? req_user_id req)%string)
          (patch_users (req_user_id req)
             (Users.mkPatch (Some (hashPassword newPassword salt)) None None None)
             db)),
     mkResponse 200 true
       "Password changed successfully. Please log in again with your new password."
       None).
Proof.
  intros Hfound Hpw.
  unfold changePassword, handle, bind at 1, select_users, query.
  rewrite Hfound, Hpw. cbn [negb].
  unfold bind at 1, attempt. cbn [update_user Users.set_failed_login_attempts].
  unfold bind at 1. unfold bind at 1, ret. unfold bind at 1, exec.
  unfold bind, ret.
  rewrite logAuthEvent_appends; [reflexivity|].
  intros uid Huid. apply or_null_some in Huid as [<- _].
  rewrite user_exists_revoke, user_exists_patch.
  apply single_filter_found in Hfound as [Hin Hid].
  apply String.eqb_eq in Hid. rewrite <- Hid. now apply user_exists_In.
Qed.

(** C8.  When the authenticated user supplies the right current
    password, [changePassword] answers 200 and leaves every ledger row
    of that user revoked; so for every refresh token issued to the user
    before the change, every later refresh presenting it, whatever
    requests were served in between, throws an error of the
    invalid-token kind. *)
Theorem change_password_revokes_sessions req currentPassword newPassword salt
        db u :
  single (filter (fun v => (Users.id v =? req_user_id req)%string) (users db))
  = Some u ->
  comparePassword currentPassword (Users.password_hash u) = true ->
  let r := changePassword req currentPassword newPassword salt db in
  snd r
  = mkResponse 200 true
      "Password changed successfully. Please log in again with your new password."
      None
  /\ (forall row,
         In row (refresh_tokens (fst r)) ->
         RefreshTokens.user_id row = req_user_id req ->
         RefreshTokens.is_revoked row = true)
  /\ (forall t,
         Issued t (req_user_id req) db ->
         forall calls now token_uuid row_id,
         exists e,
           refreshAccessToken t now token_uuid row_id (run_calls calls (fst r))
           = (run_calls calls (fst r), Thrown e)
           /\ error_kind e = InvalidTokenError).
Proof.
  intros Hfound Hpw r. subst r.
  rewrite (changePassword_success _ _ _ _ _ u Hfound Hpw). cbn [fst snd].
  split; [reflexivity|].
  assert (Hall : forall row,
             In row (refresh_tokens
                       (revoke_where
                          (fun r => (RefreshTokens.user_id r
                                     =? req_user_id req)%string)
                          (patch_users (req_user_id req)
                             (Users.mkPatch
                                (Some (hashPassword newPassword salt))
                                None None None) db))) ->
             RefreshTokens.user_id row = req_user_id req ->
             RefreshTokens.is_revoked row = true).
  { intros row Hin Huid. cbn [revoke_where patch_users refresh_tokens] in Hin.
    apply in_revoked_map in Hin as (r0 & _ & _ & _ & Hu & _ & Hhit).
    apply Hhit. apply String.eqb_eq. congruence. }
  split; [exact Hall|].
  intros t Hissued calls now token_uuid row_id.
  destruct (issued_owned t _ db Hissued)
    as (p & tid & Hp & Htid & Hne & Hknown & Hown).
  apply (dead_refresh_fails t p); [exact Hp|].
  rewrite Htid. cbn [js_string].
  eapply dead_writes; [apply run_calls_writes|].
  split.
  - unfold ledger_knows. cbn [append_log refresh_tokens].
    apply (ledger_knows_write tid (patch_users (req_user_id req)
                                     (Users.mkPatch
                                        (Some (hashPassword newPassword salt))
                                        None None None) db));
      [constructor|].
    apply (ledger_knows_write tid db); [|exact Hknown].
    exact (write_update_user (req_user_id req)
             (Users.mkPatch (Some (hashPassword newPassword salt)) None None None)
             db).
  - intros row Hin Hrow _. apply Hall; [exact Hin|].
    cbn [append_log revoke_where patch_users refresh_tokens] in Hin.
    apply in_revoked_map in Hin as (r0 & Hr0 & Ht & _ & Hu & _).
    rewrite Hu. apply Hown; congruence.
Qed.
End PasswordChange.

(** alice changes her password right after registering; her
    registration token is then refused. *)
Lemma change_password_revokes_sessions_witness :
  exists e,
    outcome (refreshAccessToken (E := Demo.env) Demo.alice_token 1600000
               "t-6" "r-6"
               (fst (changePassword (E := Demo.env) Demo.as_alice "Str0ng!Pw"
                       "N3w!Passw0rd" "s9" Demo.db_alice)))
    = Thrown e
    /\ error_kind e = InvalidTokenError.
Proof.
  destruct (change_password_revokes_sessions (E := Demo.env) Demo.as_alice
              "Str0ng!Pw" "N3w!Passw0rd" "s9" Demo.db_alice Demo.alice_row)
    as (_ & _ & Hrefused).
  - vm_compute; reflexivity.
  - vm_compute; reflexivity.
  - destruct (Hrefused Demo.alice_token) with (calls := @nil Call)
      (now := 1600000) (token_uuid := "t-6") (row_id := "r-6")
      as (e & Hrun & Hkind).
    + apply (issued_by_register (E := Demo.env) Demo.alice_token "u-alice"
               Demo.alice 1000000 "s1" "u-alice" "t-1" "r-1" Demo.empty
               Demo.db_alice Demo.alice_result).
      * discriminate.
      * vm_compute; reflexivity.
      * reflexivity.
      * reflexivity.
    + exists e. split; [|exact Hkind]. unfold outcome.
      cbn [run_calls fold_left] in Hrun. now rewrite Hrun.
Defined.

(* ===================================================================== *)
(** ** Token classes *)
(* ===================================================================== *)

Section TokenClasses.
Context {E : Env}.

Lemma jwt_verify_signed k p secret now :
  jwt_verify (Signed k p) secret now
  = if (k =? secret)%string && (seconds now <? exp p)
       && (iss p =? ISSUER)%string && (aud p =? AUDIENCE)%string
    then Some p else None.
Proof. reflexivity. Qed.

Lemma verifyAccessToken_generated who now now' :
  seconds now' < seconds now + timespan JWT_EXPIRES_IN ->
  verifyAccessToken (generateAccessToken who now) now'
  = Some (mkPayload (ident_id who) (ident_username who) (Some (ident_email who))
            None "access" (seconds now) (seconds now + timespan JWT_EXPIRES_IN)
            ISSUER AUDIENCE).
Proof.
  intros Hlive. unfold verifyAccessToken, generateAccessToken.
  rewrite jwt_verify_signed. cbn [exp iss aud]. rewrite !String.eqb_refl.
  apply Z.ltb_lt in Hlive. now rewrite Hlive.
Qed.

(** X1.  An access token verifies from its issue until the configured
    lifetime has run out, and then no more; while it verifies, the
    payload carries the id, username and email it was issued for. *)
Theorem access_token_round_trip who now now' :
  (seconds now' < seconds now + timespan JWT_EXPIRES_IN ->
   exists p,
     verifyAccessToken (generateAccessToken who now) now' = Some p
     /\ userId p = ident_id who
     /\ username p = ident_username who
     /\ email p = Some (ident_email who)
     /\ type p = "access")
  /\ (seconds now + timespan JWT_EXPIRES_IN <= seconds now' ->
      verifyAccessToken (generateAccessToken who now) now' = None).
Proof.
  unfold verifyAccessToken, generateAccessToken. rewrite jwt_verify_signed.
  cbn [exp iss aud]. rewrite !String.eqb_refl. cbn [andb]. split.
  - intros Hlive. apply Z.ltb_lt in Hlive. rewrite Hlive. cbn [andb].
    eexists. repeat split.
  - intros Hdead. apply Z.ltb_ge in Hdead. now rewrite Hdead.
Qed.

(** X2.  The [type] claim is never looked at: a refresh token passes
    [verifyAccessToken], and an access token passes the verification
    step of a refresh, exactly when the two secrets are the same string
    and the token has not expired. *)
Theorem token_class_is_the_key_only who now now' uuid :
  (verifyAccessToken (generateRefreshToken who now uuid) now' <> None
   <-> JWT_REFRESH_SECRET = JWT_SECRET
       /\ seconds now' < seconds now + timespan JWT_REFRESH_EXPIRES_IN)
  /\ (jwt_verify (generateAccessToken who now) JWT_REFRESH_SECRET now' <> None
      <-> JWT_SECRET = JWT_REFRESH_SECRET
          /\ seconds now' < seconds now + timespan JWT_EXPIRES_IN).
Proof.
  unfold verifyAccessToken, generateRefreshToken, generateAccessToken.
  rewrite !jwt_verify_signed. cbn [exp iss aud].
  rewrite !String.eqb_refl, !andb_true_r. split.
  - destruct (String.eqb_spec JWT_REFRESH_SECRET JWT_SECRET) as [Heq|Hne];
      destruct (Z.ltb_spec (seconds now')
                  (seconds now + timespan JWT_REFRESH_EXPIRES_IN));
      cbn [andb]; split; try discriminate; try tauto; try lia;
      intros [? ?]; try contradiction; lia.
  - destruct (String.eqb_spec JWT_SECRET JWT_REFRESH_SECRET) as [Heq|Hne];
      destruct (Z.ltb_spec (seconds now')
                  (seconds now + timespan JWT_EXPIRES_IN));
      cbn [andb]; split; try discriminate; try tauto; try lia;
      intros [? ?]; try contradiction; lia.
Qed.
End TokenClasses.

(** alice's access token, issued at 1000000, checked at 1500000. *)
Lemma access_token_round_trip_witness :
  exists p,
    verifyAccessToken (E := Demo.env)
      (generateAccessToken (E := Demo.env)
         (mkIdentity "u-alice" "alice" "alice@x.com") 1000000) 1500000
    = Some p
    /\ userId p = "u-alice".
Proof.
  destruct (access_token_round_trip (E := Demo.env)
              (mkIdentity "u-alice" "alice" "alice@x.com") 1000000 1500000)
    as [Hlive _].
  destruct Hlive as (p & Hp & Hid & _); [vm_compute; reflexivity|].
  exists p. now split.
Defined.

(* ===================================================================== *)
(** ** When a login returns, and what its access token opens *)
(* ===================================================================== *)

Lemma single_of_one {A : Type} (l : list A) (a : A) :
  List.length l = 1%nat -> In a l -> single l = Some a.
Proof.
  destruct l as [|b [|c l]]; cbn; intros Hlen Hin; try discriminate.
  now destruct Hin as [<- | []].
Qed.

Lemma filter_user_id_update (x uid : string) (p : Users.patch) (l : list Users.row) :
  filter (fun v => (Users.id v =? x)%string)
         (map (fun u => if (Users.id u =? uid)%string then Users.apply p u else u) l)
  = map (fun u => if (Users.id u =? uid)%string then Users.apply p u else u)
        (filter (fun v => (Users.id v =? x)%string) l).
Proof.
  apply filter_map_stable. intros a.
  now destruct (Users.id a =? uid)%string.
Qed.

Section LoginReturns.
Context {E : Env}.

Lemma storeRefreshToken_returned_fresh uid who now token_uuid row_id db db' :
  storeRefreshToken uid (generateRefreshToken who now token_uuid) row_id db
  = (db', Returned tt) ->
  fresh_ledger_keys row_id token_uuid db.
Proof.
  unfold storeRefreshToken, generateRefreshToken, jwt_decode. cbn [tokenId exp].
  unfold bind, attempt, insert_refresh_token, fresh_ledger_keys.
  cbn [RefreshTokens.id RefreshTokens.token_id RefreshTokens.user_id].
  destruct (existsb _ (refresh_tokens db)); [discriminate|].
  destruct (existsb _ (refresh_tokens db)); [discriminate|].
  now split.
Qed.

(** A returned login went through every test of the method. *)
Lemma loginUser_returned_conditions identifier password ip ua now token_uuid
      row_id db db' res :
  loginUser identifier password ip ua now token_uuid row_id db
  = (db', Returned res) ->
  exists u,
    account identifier db = Some u
    /\ is_locked u now = false
    /\ Users.is_active u = true
    /\ comparePassword password (Users.password_hash u) = true
    /\ fresh_ledger_keys row_id token_uuid db.
Proof.
  unfold loginUser, bind at 1, select_users, query.
  fold (account identifier db).
  destruct (account identifier db) as [u|] eqn:Hfound.
  2:{ unfold bind, throw.
      destruct (logAuthEvent_total
                  (mkEvent None "failed_login" false ip ua
                     (Some "User not found")
                     (Some [("identifier", JStr identifier)])) db)
        as (d & -> & _). discriminate. }
  destruct (is_locked u now) eqn:Hlocked.
  { unfold bind, throw.
    match goal with
    | |- context [logAuthEvent ?ev ?d0] =>
        destruct (logAuthEvent_total ev d0) as (d & -> & _)
    end. discriminate. }
  destruct (Users.is_active u) eqn:Hactive; cbn [negb].
  2:{ unfold bind, throw.
      match goal with
      | |- context [logAuthEvent ?ev ?d0] =>
          destruct (logAuthEvent_total ev d0) as (d & -> & _)
      end. discriminate. }
  destruct (comparePassword password (Users.password_hash u)) eqn:Hpw;
    cbn [negb].
  2:{ unfold bind at 1, attempt. destruct (update_user _ _ db) as [d0 e0].
      unfold bind, throw.
      match goal with
      | |- context [logAuthEvent ?ev ?d0] =>
          destruct (logAuthEvent_total ev d0) as (d & -> & _)
      end. discriminate. }
  unfold bind at 1, attempt. rewrite login_reset_accepted. unfold bind at 1.
  destruct (storeRefreshToken _ _ _ _) as [d1 [[]|e]] eqn:Hstore; [|discriminate].
  intros _. exists u. do 4 (split; [assumption || reflexivity|]).
  apply storeRefreshToken_returned_fresh in Hstore. exact Hstore.
Qed.


(** The account behind a returned login, and the store it leaves. *)
Lemma loginUser_returned_store identifier password ip ua now token_uuid row_id
      db db' res :
  loginUser identifier password ip ua now token_uuid row_id db
  = (db', Returned res) ->
  exists u,
    account identifier db = Some u
    /\ Users.is_active u = true
    /\ res = login_result u now token_uuid
    /\ db' = mkDb (users (patch_users (Users.id u) (login_reset now) db))
                  (refresh_tokens db
                   ++ [issued_row row_id (identity_of u) now token_uuid])
                  (auth_logs db ++ [login_row u identifier ip ua]).
Proof.
  intros Hrun.
  destruct (loginUser_returned_conditions identifier password ip ua now
              token_uuid row_id db db' res Hrun)
    as (u & Hfound & Hlocked & Hactive & Hpw & Hfresh).
  rewrite (loginUser_success _ _ _ _ _ _ _ _ u Hfound Hlocked Hactive Hpw Hfresh)
    in Hrun.
  inversion Hrun. exists u. repeat split; assumption.
Qed.

(** X4.  The access token returned by a login opens [authenticateToken]
    until its lifetime has run out, whatever word stands before it in the
    header, with [req.user] set to the account that logged in, provided
    no other account carries the same id. *)
Theorem login_then_authenticated identifier password ip ua now token_uuid row_id
        db db' res :
  loginUser identifier password ip ua now token_uuid row_id db
  = (db', Returned res) ->
  List.length (filter (fun v => (Users.id v =? view_id (user res))%string)
                 (users db)) = 1%nat ->
  forall scheme now',
    seconds now' < seconds now + timespan JWT_EXPIRES_IN ->
    authenticateToken (Some [scheme; accessToken (tokens res)]) now' db'
    = Next (mkIdentity (view_id (user res)) (view_username (user res))
              (view_email (user res))).
Proof.
  intros Hrun Hone scheme now' Hlive.
  apply loginUser_returned_store in Hrun as (u & Hfound & Hactive & -> & ->).
  cbn [login_result user tokens view_id view_username view_email
       generateTokens accessToken] in *.
  unfold authenticateToken, bearer. cbn [nth_error].
  change (given_token (Some (generateAccessToken (identity_of u) now)))
    with (Some (generateAccessToken (identity_of u) now)).
  cbv beta iota.
  rewrite (verifyAccessToken_generated (identity_of u) now now' Hlive).
  cbn [userId].
  cbn [identity_of ident_id users patch_users].
  rewrite filter_user_id_update.
  assert (Hin : In u (filter (fun v => (Users.id v =? Users.id u)%string)
                        (users db))).
  { apply filter_In. split; [|apply String.eqb_refl].
    unfold account in Hfound. now apply single_filter_found in Hfound. }
  pose proof (single_of_one _ u Hone Hin) as Hsingle.
  apply single_inv in Hsingle. rewrite Hsingle. cbn [map single].
  rewrite String.eqb_refl. cbn. rewrite Hactive. reflexivity.
Qed.
End LoginReturns.

(* ===================================================================== *)
(** ** When a registration returns, and what follows it *)
(* ===================================================================== *)


Section RegisterReturns.
Context {E : Env}.






End RegisterReturns.

(** Why the login above is one with the username as the store holds
    it: carol's username is stored without its last character, the
    space in excess; the registration returns it so, a login with the
    text as she gave it finds no account, and a login with the username
    returned succeeds. *)
Example login_after_cut_username :
  let r := registerUser (E := Demo.env) Scenario.carol 1000500 "s4" "u-carol"
             "t-4" "r-4" Demo.db_alice in
  (exists res,
      outcome r = Returned res
      /\ view_username (user res) = "abcdefghijklmnopqrstuvwxyz0123")
  /\ outcome (loginUser (E := Demo.env) "abcdefghijklmnopqrstuvwxyz0123 "
                "Pa55word!x" None None 2000000 "t-40" "r-40" (store_after r))
     = Thrown InvalidCredentials
  /\ exists res',
      outcome (loginUser (E := Demo.env) "abcdefghijklmnopqrstuvwxyz0123"
                 "Pa55word!x" None None 2000000 "t-40" "r-40" (store_after r))
      = Returned res'.
Proof.
  cbv zeta. split; [|split].
  - eexists. split; vm_compute; reflexivity.
  - vm_compute; reflexivity.
  - eexists. vm_compute; reflexivity.
Qed.

Section RegisterRejected.
Context {E : Env}.

(** A ledger insert with a key already in use is rejected and leaves
    the store as it was. *)
Lemma insert_refresh_token_rejected row db :
  ~ fresh_ledger_keys (RefreshTokens.id row) (RefreshTokens.token_id row) db ->
  exists e, insert_refresh_token row db = (db, Some e).
Proof.
  unfold fresh_ledger_keys, insert_refresh_token. intros Hused.
  destruct (existsb _ (refresh_tokens db)); [eexists; reflexivity|].
  destruct (existsb _ (refresh_tokens db)); [eexists; reflexivity|].
  tauto.
Qed.

Lemma storeRefreshToken_rejected uid who now token_uuid row_id db :
  ~ fresh_ledger_keys row_id token_uuid db ->
  exists e,
    storeRefreshToken uid (generateRefreshToken who now token_uuid) row_id db
    = (db, Thrown (FailedToStoreRefreshToken e)).
Proof.
  intros Hused.
  unfold storeRefreshToken, generateRefreshToken, jwt_decode. cbn [tokenId exp].
  unfold bind, attempt.
  match goal with
  | |- context [insert_refresh_token ?row db] =>
      destruct (insert_refresh_token_rejected row db Hused) as (e & ->)
  end.
  now exists e.
Qed.



End RegisterRejected.

(* ===================================================================== *)
(** ** When a refresh returns, and when it half-fails *)
(* ===================================================================== *)

Lemma existsb_revoked_map (key : RefreshTokens.row -> string) (x : string)
      (f : RefreshTokens.row -> bool) (l : list RefreshTokens.row) :
  (forall r, key (RefreshTokens.revoke r) = key r) ->
  existsb (fun q => (key q =? x)%string)
          (map (fun r => if f r then RefreshTokens.revoke r else r) l)
  = existsb (fun q => (key q =? x)%string) l.
Proof.
  intros Hkey. induction l as [|a l IH]; [reflexivity|]. cbn [map existsb].
  rewrite IH. destruct (f a); [now rewrite Hkey | reflexivity].
Qed.

Lemma fresh_ledger_keys_revoke row_id token_uuid f db :
  fresh_ledger_keys row_id token_uuid (revoke_where f db)
  <-> fresh_ledger_keys row_id token_uuid db.
Proof.
  unfold fresh_ledger_keys, revoke_where. cbn [refresh_tokens].
  rewrite (existsb_revoked_map RefreshTokens.id), (existsb_revoked_map RefreshTokens.token_id);
    [tauto | reflexivity | reflexivity].
Qed.

(** Revoking the one row a lookup selected leaves no unrevoked row for
    that correlation id and digest. *)
Lemma revoking_selected_is_dead p hash storedToken db db' :
  single (filter (matches_presented p hash) (refresh_tokens db)) = Some storedToken ->
  refresh_tokens db'
  = map (fun r => if (RefreshTokens.id r =? RefreshTokens.id storedToken)%string
                  then RefreshTokens.revoke r else r)
        (refresh_tokens db) ->
  dead (js_string (tokenId p)) hash db'.
Proof.
  intros Hstored Hl. unfold dead, ledger_knows. rewrite Hl.
  pose proof (single_inv _ _ Hstored) as Hone.
  apply single_filter_found in Hstored as [Hin Hm].
  apply matches_presented_inv in Hm as (Hst & _ & _).
  split.
  - exists (if (RefreshTokens.id storedToken =? RefreshTokens.id storedToken)%string
            then RefreshTokens.revoke storedToken else storedToken).
    split.
    + apply in_map_iff. now exists storedToken.
    + now destruct (_ =? _)%string.
  - intros r' Hin' Htid' Hhash'.
    apply in_revoked_map in Hin' as (r & Hr & Ht & Hh & _ & Hkeep & Hhit).
    destruct (RefreshTokens.is_revoked r) eqn:Hrev; [now apply Hkeep|].
    apply Hhit.
    assert (Hsel : In r (filter (matches_presented p hash) (refresh_tokens db))).
    { apply filter_In. split; [exact Hr|]. unfold matches_presented.
      rewrite <- Ht, Htid', <- Hh, Hhash', Hrev, !String.eqb_refl. reflexivity. }
    rewrite Hone in Hsel. destruct Hsel as [<- | []]. apply String.eqb_refl.
Qed.

Section RefreshReturns.
Context {E : Env}.

(** What a successful [refreshAccessToken] returns for account [u]. *)
Lemma refreshAccessToken_success t now token_uuid row_id db p storedToken u :
  jwt_verify t JWT_REFRESH_SECRET now = Some p ->
  single (filter (matches_presented p (sha256 t)) (refresh_tokens db))
  = Some storedToken ->
  now <= RefreshTokens.expires_at storedToken ->
  single (filter (fun v => (Users.id v =? userId p)%string) (users db)) = Some u ->
  Users.is_active u = true ->
  fresh_ledger_keys row_id token_uuid db ->
  refreshAccessToken t now token_uuid row_id db
  = (mkDb (users db)
          (map (fun r => if (RefreshTokens.id r
                             =? RefreshTokens.id storedToken)%string
                         then RefreshTokens.revoke r else r)
               (refresh_tokens db)
           ++ [issued_row row_id (identity_of u) now token_uuid])
          (auth_logs db),
     Returned (mkResult
                 (mkView (Users.id u) (Users.username u) (Users.email u)
                    None None None None None)
                 (generateTokens (identity_of u) now token_uuid))).
Proof.
  intros Hv Hstored Hlive Huser Hactive Hfresh.
  unfold refreshAccessToken, verifyRefreshToken. rewrite Hv.
  unfold bind at 1, ret. unfold bind at 1, select_refresh_tokens, query.
  rewrite Hstored.
  destruct (Z.ltb_spec (RefreshTokens.expires_at storedToken) now); [lia|].
  unfold bind at 1, select_users, query. rewrite Huser, Hactive. cbn [negb].
  unfold bind at 1, exec. unfold bind. cbn [generateTokens refreshToken].
  rewrite (storeRefreshToken_issued (Users.id u)); [reflexivity | reflexivity | |].
  - now apply fresh_ledger_keys_revoke.
  - rewrite user_exists_revoke. apply user_exists_In.
    now apply single_filter_found in Huser.
Qed.

(** A returned refresh went through every test of the method. *)
Lemma refreshAccessToken_returned_conditions t now token_uuid row_id db db' res :
  refreshAccessToken t now token_uuid row_id db = (db', Returned res) ->
  exists p storedToken u,
    jwt_verify t JWT_REFRESH_SECRET now = Some p
    /\ single (filter (matches_presented p (sha256 t)) (refresh_tokens db))
       = Some storedToken
    /\ now <= RefreshTokens.expires_at storedToken
    /\ single (filter (fun v => (Users.id v =? userId p)%string) (users db))
       = Some u
    /\ Users.is_active u = true
    /\ fresh_ledger_keys row_id token_uuid db.
Proof.
  unfold refreshAccessToken, verifyRefreshToken.
  destruct (jwt_verify t JWT_REFRESH_SECRET now) as [p|] eqn:Hv; [|discriminate].
  unfold bind at 1, ret. unfold bind at 1, select_refresh_tokens, query.
  destruct (single (filter (matches_presented p (sha256 t)) (refresh_tokens db)))
    as [storedToken|] eqn:Hstored; [|discriminate].
  destruct (Z.ltb_spec (RefreshTokens.expires_at storedToken) now);
    [discriminate|].
  unfold bind at 1, select_users, query.
  destruct (single (filter (fun v => (Users.id v =? userId p)%string) (users db)))
    as [u|] eqn:Huser; [|discriminate].
  destruct (Users.is_active u) eqn:Hactive; cbn [negb]; [|discriminate].
  unfold bind at 1, exec. unfold bind.
  destruct (storeRefreshToken _ _ _ _) as [d1 [[]|e]] eqn:Hstore; [|discriminate].
  intros _. exists p, storedToken, u.
  do 5 (split; [assumption || reflexivity|]).
  apply storeRefreshToken_returned_fresh in Hstore.
  now apply fresh_ledger_keys_revoke in Hstore.
Qed.

(** X9.  [refreshAccessToken] returns exactly when the presented token
    verifies under the refresh secret, the ledger holds exactly one
    unrevoked row with its correlation id and digest, that row does not
    expire before the call, exactly one account carries the id claimed by
    the token and it is active, and the store accepts the keys of the
    new row. *)
Theorem refresh_returns_exactly_when t now token_uuid row_id db :
  (exists db' res,
      refreshAccessToken t now token_uuid row_id db = (db', Returned res))
  <-> (exists p storedToken u,
          jwt_verify t JWT_REFRESH_SECRET now = Some p
          /\ single (filter (matches_presented p (sha256 t)) (refresh_tokens db))
             = Some storedToken
          /\ now <= RefreshTokens.expires_at storedToken
          /\ single (filter (fun v => (Users.id v =? userId p)%string) (users db))
             = Some u
          /\ Users.is_active u = true
          /\ fresh_ledger_keys row_id token_uuid db).
Proof.
  split.
  - intros (db' & res & Hrun).
    exact (refreshAccessToken_returned_conditions t now token_uuid row_id db
             db' res Hrun).
  - intros (p & storedToken & u & Hv & Hstored & Hlive & Huser & Hactive & Hfresh).
    do 2 eexists.
    exact (refreshAccessToken_success t now token_uuid row_id db p storedToken u
             Hv Hstored Hlive Huser Hactive Hfresh).
Qed.

(** X10.  The refresh token returned by a login can be exchanged: within
    its lifetime, when no other account carries the same id and the store
    accepts the new keys, a refresh presenting it returns a fresh token
    pair for the same account, with the new correlation id. *)
Theorem login_then_refresh identifier password ip ua now token_uuid row_id
        db db' res now' token_uuid' row_id' :
  loginUser identifier password ip ua now token_uuid row_id db
  = (db', Returned res) ->
  List.length (filter (fun v => (Users.id v =? view_id (user res))%string)
                 (users db)) = 1%nat ->
  seconds now' < seconds now + timespan JWT_REFRESH_EXPIRES_IN ->
  fresh_ledger_keys row_id' token_uuid' db' ->
  exists db'' res',
    refreshAccessToken (refreshToken (tokens res)) now' token_uuid' row_id' db'
    = (db'', Returned res')
    /\ view_id (user res') = view_id (user res)
    /\ exists p',
        jwt_decode (refreshToken (tokens res')) = Returned (Some p')
        /\ tokenId p' = Some token_uuid'
        /\ userId p' = view_id (user res).
Proof.
  intros Hrun Hone Hlive Hfresh'.
  assert (Hfresh : fresh_ledger_keys row_id token_uuid db).
  { destruct (loginUser_returned_conditions identifier password ip ua now
                token_uuid row_id db db' res Hrun) as (u0 & _ & _ & _ & _ & H).
    exact H. }
  apply loginUser_returned_store in Hrun as (u & Hfound & Hactive & -> & ->).
  cbn [login_result user tokens view_id generateTokens refreshToken] in *.
  set (t := generateRefreshToken (identity_of u) now token_uuid).
  set (row := issued_row row_id (identity_of u) now token_uuid).
  set (d := mkDb _ _ _) in *.
  assert (Hin : In u (filter (fun v => (Users.id v =? Users.id u)%string)
                        (users db))).
  { apply filter_In. split; [|apply String.eqb_refl].
    unfold account in Hfound. now apply single_filter_found in Hfound. }
  pose proof (single_inv _ _ (single_of_one _ u Hone Hin)) as Husers.
  assert (Hv : jwt_verify t JWT_REFRESH_SECRET now'
               = Some (mkPayload (Users.id u) (Users.username u) None
                         (Some token_uuid) "refresh" (seconds now)
                         (seconds now + timespan JWT_REFRESH_EXPIRES_IN)
                         ISSUER AUDIENCE)).
  { unfold t, generateRefreshToken. rewrite jwt_verify_signed. cbn [exp iss aud].
    rewrite !String.eqb_refl. apply Z.ltb_lt in Hlive. now rewrite Hlive. }
  assert (Hrowsel : filter (matches_presented
                              (mkPayload (Users.id u) (Users.username u) None
                                 (Some token_uuid) "refresh" (seconds now)
                                 (seconds now + timespan JWT_REFRESH_EXPIRES_IN)
                                 ISSUER AUDIENCE) (sha256 t))
                      (refresh_tokens d) = [row]).
  { unfold d. cbn [refresh_tokens]. rewrite filter_app.
    assert (Hold : filter (matches_presented
                             (mkPayload (Users.id u) (Users.username u) None
                                (Some token_uuid) "refresh" (seconds now)
                                (seconds now + timespan JWT_REFRESH_EXPIRES_IN)
                                ISSUER AUDIENCE) (sha256 t))
                     (refresh_tokens db) = []).
    { destruct Hfresh as [_ Hnew]. clear -Hnew.
      induction (refresh_tokens db) as [|a l IH]; [reflexivity|].
      cbn [existsb] in Hnew. apply orb_false_elim in Hnew as [Ha Hl].
      cbn [filter]. unfold matches_presented at 1. cbn [tokenId js_string].
      rewrite Ha. cbn [andb]. now apply IH. }
    rewrite Hold. cbn [app filter]. unfold matches_presented, row, issued_row.
    cbn [RefreshTokens.token_id RefreshTokens.token_hash RefreshTokens.is_revoked
         tokenId js_string identity_of].
    fold t. now rewrite !String.eqb_refl. }
  assert (Hrefresh :=
            refreshAccessToken_success t now' token_uuid' row_id' d
              (mkPayload (Users.id u) (Users.username u) None (Some token_uuid)
                 "refresh" (seconds now)
                 (seconds now + timespan JWT_REFRESH_EXPIRES_IN) ISSUER AUDIENCE)
              row (Users.apply (login_reset now) u) Hv).
  rewrite Hrowsel in Hrefresh. specialize (Hrefresh eq_refl).
  do 2 eexists. split.
  - apply Hrefresh.
    + unfold row, issued_row. cbn [RefreshTokens.expires_at]. unfold seconds in *.
      pose proof (Z.mod_pos_bound now' 1000 ltac:(lia)).
      pose proof (Z.div_mod now' 1000 ltac:(lia)). lia.
    + unfold d. cbn [users patch_users userId]. rewrite filter_user_id_update.
      rewrite Husers. cbn [map single]. now rewrite String.eqb_refl.
    + exact Hactive.
    + exact Hfresh'.
  - cbn [user tokens view_id generateTokens refreshToken Users.apply Users.id].
    split; [reflexivity|].
    eexists. split; [reflexivity|]. split; reflexivity.
Qed.
End RefreshReturns.

Section RefreshFailures.
Context {E : Env}.

(** X11.  Rotation is two writes.  When everything up to the insert of
    the new row succeeds but the store rejects that row (a key already in
    use), the refresh throws the wrapped storage error with the presented
    row already revoked and no new row written: every later refresh
    presenting the same token is refused as invalid. *)
Theorem refresh_revokes_before_storing t now token_uuid row_id db p storedToken u :
  jwt_verify t JWT_REFRESH_SECRET now = Some p ->
  single (filter (matches_presented p (sha256 t)) (refresh_tokens db))
  = Some storedToken ->
  now <= RefreshTokens.expires_at storedToken ->
  single (filter (fun v => (Users.id v =? userId p)%string) (users db)) = Some u ->
  Users.is_active u = true ->
  ~ fresh_ledger_keys row_id token_uuid db ->
  let r := refreshAccessToken t now token_uuid row_id db in
  (exists e, outcome r = Thrown (FailedToStoreRefreshToken e)
             /\ error_kind (FailedToStoreRefreshToken e) = StorageError)
  /\ store_after r
     = revoke_where
         (fun q => (RefreshTokens.id q =? RefreshTokens.id storedToken)%string) db
  /\ forall now2 token_uuid2 row_id2,
      exists e2,
        refreshAccessToken t now2 token_uuid2 row_id2 (store_after r)
        = (store_after r, Thrown e2)
        /\ error_kind e2 = InvalidTokenError.
Proof.
  intros Hv Hstored Hlive Huser Hactive Hused r.
  assert (Hr : exists e,
             r = (revoke_where
                    (fun q => (RefreshTokens.id q
                               =? RefreshTokens.id storedToken)%string) db,
                  Thrown (FailedToStoreRefreshToken e))).
  { subst r. unfold refreshAccessToken, verifyRefreshToken. rewrite Hv.
    unfold bind at 1, ret. unfold bind at 1, select_refresh_tokens, query.
    rewrite Hstored.
    destruct (Z.ltb_spec (RefreshTokens.expires_at storedToken) now); [lia|].
    unfold bind at 1, select_users, query. rewrite Huser, Hactive. cbn [negb].
    unfold bind at 1, exec. unfold bind. cbn [generateTokens refreshToken].
    assert (Hused' : ~ fresh_ledger_keys row_id token_uuid
                       (revoke_where
                          (fun q => (RefreshTokens.id q
                                     =? RefreshTokens.id storedToken)%string) db)).
    { intros H0. now apply fresh_ledger_keys_revoke in H0. }
    destruct (storeRefreshToken_rejected (Users.id u) (identity_of u) now
                token_uuid row_id _ Hused') as (e & ->).
    now exists e. }
  destruct Hr as (e & ->). unfold outcome, store_after. cbn [fst snd].
  split; [exists e; now split|]. split; [reflexivity|].
  intros now2 token_uuid2 row_id2.
  apply (dead_refresh_fails t p).
  - eapply jwt_verify_decode; exact Hv.
  - eapply revoking_selected_is_dead; [exact Hstored | reflexivity].
Qed.

(** X12.  A refresh whose token and ledger row are in order but whose
    account is missing, ambiguous or deactivated is refused with "User
    not found or inactive" (the invalid-token kind) and writes nothing:
    the presented row stays unrevoked. *)
Theorem refresh_without_active_user t now token_uuid row_id db p storedToken :
  jwt_verify t JWT_REFRESH_SECRET now = Some p ->
  single (filter (matches_presented p (sha256 t)) (refresh_tokens db))
  = Some storedToken ->
  now <= RefreshTokens.expires_at storedToken ->
  (forall u,
      single (filter (fun v => (Users.id v =? userId p)%string) (users db))
      = Some u ->
      Users.is_active u = false) ->
  refreshAccessToken t now token_uuid row_id db = (db, Thrown UserNotFoundOrInactive)
  /\ error_kind UserNotFoundOrInactive = InvalidTokenError.
Proof.
  intros Hv Hstored Hlive Hnone.
  unfold refreshAccessToken, verifyRefreshToken. rewrite Hv.
  unfold bind at 1, ret. unfold bind at 1, select_refresh_tokens, query.
  rewrite Hstored.
  destruct (Z.ltb_spec (RefreshTokens.expires_at storedToken) now); [lia|].
  unfold bind at 1, select_users, query.
  destruct (single (filter (fun v => (Users.id v =? userId p)%string) (users db)))
    as [u|]; [|now split].
  rewrite (Hnone u eq_refl). now split.
Qed.
End RefreshFailures.

(* ===================================================================== *)
(** ** What requests never do to the ledger and the audit log *)
(* ===================================================================== *)

(** One write keeps every ledger row, up to revocation. *)
Lemma write_keeps_rows db db' r :
  write db db' ->
  In r (refresh_tokens db) ->
  exists r',
    In r' (refresh_tokens db')
    /\ RefreshTokens.id r' = RefreshTokens.id r
    /\ RefreshTokens.user_id r' = RefreshTokens.user_id r
    /\ RefreshTokens.token_id r' = RefreshTokens.token_id r
    /\ RefreshTokens.token_hash r' = RefreshTokens.token_hash r
    /\ RefreshTokens.expires_at r' = RefreshTokens.expires_at r
    /\ (RefreshTokens.is_revoked r = true -> RefreshTokens.is_revoked r' = true).
Proof.
  intros Hw Hin.
  destruct (write_ledger _ _ Hw) as [-> | [(f & ->) | (q & -> & _)]].
  - exists r. repeat split; auto.
  - exists (if f r then RefreshTokens.revoke r else r). split.
    + apply in_map_iff. now exists r.
    + destruct (f r); cbn; repeat split; auto.
  - exists r. split; [apply in_or_app; now left|]. repeat split; auto.
Qed.

(** One write leaves the audit log as it is or appends one row. *)
Lemma write_audit db db' :
  write db db' ->
  exists added, auth_logs db' = (auth_logs db ++ added)%list.
Proof.
  intros Hw. destruct Hw as [uid p d | u d | r d | f d | e d].
  - exists []. rewrite app_nil_r. apply update_user_logs.
  - exists []. rewrite app_nil_r. apply insert_user_logs.
  - exists []. rewrite app_nil_r. unfold insert_refresh_token.
    repeat match goal with |- context [if ?b then _ else _] => destruct b end;
      reflexivity.
  - exists []. cbn. now rewrite app_nil_r.
  - unfold insert_auth_log.
    destruct (AuthLogs.user_id e); [destruct (user_exists _ d)|];
      cbn [fst append_log auth_logs];
      first [ now exists [e] | exists []; now rewrite app_nil_r ].
Qed.

Section NeverDone.
Context {E : Env}.

(** X13.  No sequence of register, login, refresh, logout and
    change-password requests removes a ledger row or clears its
    revocation: every row is still there afterwards with the same id,
    owner, correlation id, digest and expiry, and revoked if it was. *)
Theorem ledger_rows_are_kept calls db r :
  In r (refresh_tokens db) ->
  exists r',
    In r' (refresh_tokens (run_calls calls db))
    /\ RefreshTokens.id r' = RefreshTokens.id r
    /\ RefreshTokens.user_id r' = RefreshTokens.user_id r
    /\ RefreshTokens.token_id r' = RefreshTokens.token_id r
    /\ RefreshTokens.token_hash r' = RefreshTokens.token_hash r
    /\ RefreshTokens.expires_at r' = RefreshTokens.expires_at r
    /\ (RefreshTokens.is_revoked r = true -> RefreshTokens.is_revoked r' = true).
Proof.
  pose proof (run_calls_writes calls db) as Hw. revert r.
  induction Hw as [d | d1 d2 d3 H12 _ IH]; intros r Hin.
  - exists r. repeat split; auto.
  - destruct (write_keeps_rows d1 d2 r H12 Hin)
      as (r2 & Hin2 & Hi & Hu & Ht & Hh & He & Hr).
    destruct (IH r2 Hin2) as (r3 & Hin3 & Hi3 & Hu3 & Ht3 & Hh3 & He3 & Hr3).
    exists r3. repeat split; try congruence. auto.
Qed.

(** X14.  The same requests only ever append to the audit log: the log
    before is a prefix of the log after. *)
Theorem audit_log_is_append_only calls db :
  exists added, auth_logs (run_calls calls db) = (auth_logs db ++ added)%list.
Proof.
  pose proof (run_calls_writes calls db) as Hw.
  induction Hw as [d | d1 d2 d3 H12 _ IH].
  - exists []. now rewrite app_nil_r.
  - destruct (write_audit d1 d2 H12) as (a & Ha). destruct IH as (b & Hb).
    exists (a ++ b)%list. now rewrite Hb, Ha, <- app_assoc.
Qed.
End NeverDone.

(* ===================================================================== *)
(** ** Operations of one user and the sessions of the others *)
(* ===================================================================== *)

Lemma others_kept_by_revoke (uid : string) (f : RefreshTokens.row -> bool)
      (l : list RefreshTokens.row) :
  (forall r, f r = true -> RefreshTokens.user_id r = uid) ->
  filter (fun r => negb (RefreshTokens.user_id r =? uid)%string)
         (map (fun r => if f r then RefreshTokens.revoke r else r) l)
  = filter (fun r => negb (RefreshTokens.user_id r =? uid)%string) l.
Proof.
  intros Hf. induction l as [|a l IH]; [reflexivity|]. cbn [map filter].
  rewrite IH. destruct (f a) eqn:Hfa; [|reflexivity].
  cbn [RefreshTokens.revoke RefreshTokens.user_id].
  rewrite (Hf a Hfa), String.eqb_refl. reflexivity.
Qed.

Lemma filter_twice {A : Type} (f : A -> bool) (l : list A) :
  filter f (filter f l) = filter f l.
Proof.
  induction l as [|a l IH]; [reflexivity|]. cbn [filter].
  destruct (f a) eqn:Ha; [|exact IH]. cbn [filter]. now rewrite Ha, IH.
Qed.

Section Scoped.
Context {E : Env}.

Lemma logout_target_owner uid presented r :
  logout_target uid presented r = true -> RefreshTokens.user_id r = uid.
Proof.
  unfold logout_target. destruct presented as [t|]; [|discriminate].
  destruct (jwt_decode t) as [[p|]|err]; [|discriminate..].
  destruct (or_null (tokenId p)); [|discriminate].
  unfold owned_token. intros H. apply andb_prop in H as [_ H].
  now apply String.eqb_eq.
Qed.

(** X15.  Logging out, revoking one session, revoking all sessions,
    changing the password and deleting the account never touch a ledger
    row of another user: the rows not owned by the caller are the same,
    in the same order, before and after, whatever token, session id or
    correlation id the caller sends. *)
Theorem sessions_of_others_untouched req db :
  let uid := req_user_id req in
  let others (d : Db) :=
    filter (fun r => negb (RefreshTokens.user_id r =? uid)%string)
           (refresh_tokens d) in
  (forall presented, others (store_after (logoutUser uid presented db)) = others db)
  /\ (forall sessionId, others (fst (revokeSession req sessionId db)) = others db)
  /\ (forall currentTokenId,
         others (fst (revokeAllSessions req currentTokenId db)) = others db)
  /\ (forall currentPassword newPassword salt,
         others (fst (changePassword req currentPassword newPassword salt db))
         = others db)
  /\ (forall password, others (fst (deleteAccount req password db)) = others db).
Proof.
  intros uid others. subst others. cbv beta. repeat split.
  - intros presented.
    assert (Hcases : (exists raw complaint,
                         presented = Some (Unparsable raw complaint))
                     \/ (forall raw complaint,
                            presented <> Some (Unparsable raw complaint))).
    { destruct presented as [[raw|raw complaint|k p]|];
        [right; discriminate | left; now exists raw, complaint
        | right; discriminate | right; discriminate]. }
    destruct Hcases as [(raw & complaint & ->) | Hparses];
      [now rewrite logoutUser_unparsable|].
    rewrite (logoutUser_unfold _ _ _ Hparses).
    match goal with
    | |- context [logAuthEvent ?ev ?d0] =>
        destruct (logAuthEvent_total ev d0) as (d & -> & _ & Hl)
    end.
    unfold store_after. cbn [fst]. rewrite Hl. cbn [revoke_where refresh_tokens].
    apply others_kept_by_revoke. intros r. apply logout_target_owner.
  - intros sessionId. unfold revokeSession. rewrite handle_store.
    unfold bind, attempt, revoke_own_session.
    destruct sessionId as [raw|sid]; [reflexivity|].
    cbn [fst revoke_where refresh_tokens].
    apply others_kept_by_revoke. intros r Hr. unfold own_session in Hr.
    apply andb_prop in Hr as [_ Hr]. now apply String.eqb_eq.
  - intros currentTokenId. unfold revokeAllSessions, handle, bind, exec, ret.
    cbn [fst revoke_where refresh_tokens].
    apply others_kept_by_revoke. intros r Hr. unfold other_sessions in Hr.
    destruct (or_null currentTokenId).
    + apply andb_prop in Hr as [Hr _]. now apply String.eqb_eq.
    + now apply String.eqb_eq.
  - intros currentPassword newPassword salt.
    unfold changePassword, handle, bind at 1, select_users, query.
    destruct (single _) as [u|]; [|reflexivity].
    destruct (negb _).
    + unfold bind, ret.
      match goal with
      | |- context [logAuthEvent ?ev ?d0] =>
          destruct (logAuthEvent_total ev d0) as (d & -> & _ & Hl)
      end.
      cbn [fst]. now rewrite Hl.
    + unfold bind at 1, attempt.
      cbn [update_user Users.set_failed_login_attempts].
      unfold bind at 1. unfold bind at 1, ret. unfold bind at 1, exec.
      unfold bind, ret.
      match goal with
      | |- context [logAuthEvent ?ev ?d0] =>
          destruct (logAuthEvent_total ev d0) as (d & -> & _ & Hl)
      end.
      cbn [fst]. rewrite Hl. cbn [revoke_where patch_users refresh_tokens].
      apply others_kept_by_revoke. intros r Hr. now apply String.eqb_eq.
  - intros password. unfold deleteAccount, handle.
    destruct (or_null password) as [pw|]; [|reflexivity].
    unfold bind at 1, select_users, query.
    destruct (single _) as [u|]; [|reflexivity].
    destruct (negb _); [reflexivity|].
    unfold bind at 1.
    match goal with
    | |- context [logAuthEvent ?ev ?d0] =>
        destruct (logAuthEvent_total ev d0) as (d & -> & _ & Hl)
    end.
    unfold bind, exec, ret. cbn [fst delete_user refresh_tokens]. rewrite Hl.
    apply filter_twice.
Qed.
End Scoped.

(* ===================================================================== *)
(** ** Refusals of a login that do not look at the password *)
(* ===================================================================== *)

Section Refusals.
Context {E : Env}.

(** X16.  For a deactivated account the password is never compared: a
    login is refused as locked while the lock runs and as deactivated
    otherwise, whatever the password, and the accounts table (so the
    failure counter) and the ledger are left as they were. *)
Theorem login_on_deactivated_account identifier password ip ua now token_uuid
        row_id db u :
  account identifier db = Some u ->
  Users.is_active u = false ->
  let r := loginUser identifier password ip ua now token_uuid row_id db in
  outcome r = Thrown (if is_locked u now then AccountLocked else AccountDeactivated)
  /\ users (store_after r) = users db
  /\ refresh_tokens (store_after r) = refresh_tokens db
  /\ snd (login (mkRequest ip ua "") identifier password now token_uuid row_id db)
     = mkResponse 401 false
         (if is_locked u now
          then "Account is temporarily locked due to too many failed attempts"
          else "Account is deactivated") None.
Proof.
  intros Hfound Hactive r.
  assert (Hr : exists d,
             r = (d, Thrown (if is_locked u now then AccountLocked
                             else AccountDeactivated))
             /\ users d = users db /\ refresh_tokens d = refresh_tokens db).
  { subst r. unfold account in Hfound.
    unfold loginUser, bind at 1, select_users, query. rewrite Hfound.
    destruct (is_locked u now).
    - unfold bind, throw.
      match goal with
      | |- context [logAuthEvent ?ev ?d0] =>
          destruct (logAuthEvent_total ev d0) as (d & -> & Hu & Hl)
      end. now exists d.
    - rewrite Hactive. cbn [negb]. unfold bind, throw.
      match goal with
      | |- context [logAuthEvent ?ev ?d0] =>
          destruct (logAuthEvent_total ev d0) as (d & -> & Hu & Hl)
      end. now exists d. }
  destruct Hr as (d & Hr & Hu & Hl).
  unfold login, handle, bind at 1. cbn [req_ip req_userAgent]. fold r.
  rewrite Hr. unfold outcome, store_after. cbn [fst snd].
  repeat split; try assumption. now destruct (is_locked u now).
Qed.

Lemma storeRefreshToken_thrown uid t row_id db db' e :
  storeRefreshToken uid t row_id db = (db', Thrown e) -> db' = db.
Proof.
  unfold storeRefreshToken.
  destruct (jwt_decode t) as [[p|]|err]; [|now inversion 1..].
  destruct (tokenId p) as [tid|]; [|now inversion 1].
  unfold bind, attempt, insert_refresh_token.
  repeat match goal with
         | |- context [if ?b then _ else _] => destruct b
         end; now inversion 1.
Qed.

Lemma gate_view_update uid p (l : list Users.row) :
  map gate_view
      (map (fun u => if (Users.id u =? uid)%string then Users.apply p u else u) l)
  = map gate_view l.
Proof.
  rewrite map_map. apply map_ext. intros a.
  now destruct (Users.id a =? uid)%string.
Qed.

(** X17.  A login that throws issues nothing: the ledger is exactly as
    before, no account is added or removed, and no account changes its
    id, username, email or active flag. *)
Theorem failed_login_issues_nothing identifier password ip ua now token_uuid
        row_id db db' e :
  loginUser identifier password ip ua now token_uuid row_id db
  = (db', Thrown e) ->
  refresh_tokens db' = refresh_tokens db
  /\ map gate_view (users db') = map gate_view (users db).
Proof.
  unfold loginUser, bind at 1, select_users, query.
  destruct (single _) as [u|].
  2:{ unfold bind, throw.
      match goal with
      | |- context [logAuthEvent ?ev ?d0] =>
          destruct (logAuthEvent_total ev d0) as (d & -> & Hu & Hl)
      end. intros H. inversion H; subst. now rewrite Hu, Hl. }
  destruct (is_locked u now).
  { unfold bind, throw.
    match goal with
    | |- context [logAuthEvent ?ev ?d0] =>
        destruct (logAuthEvent_total ev d0) as (d & -> & Hu & Hl)
    end. intros H. inversion H; subst. now rewrite Hu, Hl. }
  destruct (negb (Users.is_active u)).
  { unfold bind, throw.
    match goal with
    | |- context [logAuthEvent ?ev ?d0] =>
        destruct (logAuthEvent_total ev d0) as (d & -> & Hu & Hl)
    end. intros H. inversion H; subst. now rewrite Hu, Hl. }
  destruct (negb (comparePassword password (Users.password_hash u))).
  { unfold bind, attempt, throw.
    destruct (update_user_cases (Users.id u) (failed_login_update u now) db)
      as [Hc|(v & _ & _ & Hc)]; rewrite Hc;
      match goal with
      | |- context [logAuthEvent ?ev ?d0] =>
          destruct (logAuthEvent_total ev d0) as (d & -> & Hu & Hl)
      end; intros H; inversion H; subst; rewrite Hu, Hl.
    - cbn [patch_users users refresh_tokens]. split; [reflexivity|].
      apply gate_view_update.
    - now split. }
  unfold bind at 1, attempt. rewrite login_reset_accepted. unfold bind at 1.
  destruct (storeRefreshToken _ _ _ _) as [d1 [[]|e1]] eqn:Hstore.
  - unfold bind.
    match goal with
    | |- context [logAuthEvent ?ev ?d0] =>
        destruct (logAuthEvent_total ev d0) as (d & -> & Hu & Hl)
    end. discriminate.
  - intros H. inversion H; subst.
    apply storeRefreshToken_thrown in Hstore. subst db'.
    cbn [patch_users users refresh_tokens]. split; [reflexivity|].
    apply gate_view_update.
Qed.
End Refusals.

(* ===================================================================== *)
(** ** Access tokens across later requests *)
(* ===================================================================== *)

Lemma accounts_grow_refl us : accounts_grow us us.
Proof. exists []. rewrite app_nil_r. split; [reflexivity | intros e u []]. Qed.

Lemma gate_view_member (us us' : list Users.row) (u : Users.row) :
  In (gate_view u) (map gate_view us') ->
  exists u', In u' us' /\ gate_view u' = gate_view u.
Proof. intros H. apply in_map_iff in H as (u' & H1 & H2). now exists u'. Qed.

Lemma gate_view_id u u' : gate_view u' = gate_view u -> Users.id u' = Users.id u.
Proof. unfold gate_view. now inversion 1. Qed.

Lemma accounts_grow_trans us1 us2 us3 :
  accounts_grow us1 us2 -> accounts_grow us2 us3 -> accounts_grow us1 us3.
Proof.
  intros (x1 & H1 & N1) (x2 & H2 & N2). exists (x1 ++ x2)%list. split.
  - rewrite H2, !map_app, H1, !map_app. now rewrite app_assoc.
  - intros e u He Hu. apply in_app_or in He as [He | He]; [now apply N1|].
    assert (Hv : In (gate_view u) (map gate_view us2)).
    { rewrite H1, map_app. apply in_or_app. left. now apply in_map. }
    apply (gate_view_member us1) in Hv as (u2 & Hu2 & Hg).
    rewrite <- (gate_view_id _ _ Hg). now apply N2.
Qed.

Lemma write_accounts db db' : write db db' -> accounts_grow (users db) (users db').
Proof.
  intros Hw. destruct Hw as [uid p d | u d | r d | f d | e d].
  - destruct (update_user_cases uid p d) as [Hc|(v & _ & _ & Hc)]; rewrite Hc;
      cbn [fst]; [|apply accounts_grow_refl].
    exists []. rewrite app_nil_r. split; [|intros ? ? []].
    cbn [patch_users users]. apply gate_view_update.
  - destruct (insert_user_cases u d) as [(e & Hc)|(w & _ & Hid & _ & _ & Hc)];
      rewrite Hc; cbn [fst users]; [apply accounts_grow_refl|].
    exists [w]. split; [now rewrite map_app|].
    intros e v He Hv Heq. destruct He as [He | []]. subst e.
    assert (Htrue : existsb (fun v0 => (Users.id v0 =? Users.id w)%string)
                      (users d) = true).
    { apply existsb_exists. exists v. split; [exact Hv|].
      apply String.eqb_eq. congruence. }
    congruence.
  - unfold insert_refresh_token.
    repeat match goal with |- context [if ?b then _ else _] => destruct b end;
      apply accounts_grow_refl.
  - apply accounts_grow_refl.
  - unfold insert_auth_log.
    destruct (AuthLogs.user_id e); [destruct (user_exists _ d)|];
      apply accounts_grow_refl.
Qed.

Lemma writes_accounts db db' : writes db db' -> accounts_grow (users db) (users db').
Proof.
  induction 1 as [d | d1 d2 d3 H12 _ IH]; [apply accounts_grow_refl|].
  exact (accounts_grow_trans _ _ _ (write_accounts _ _ H12) IH).
Qed.

Lemma filter_gate_view (x : string) (l : list Users.row) :
  map gate_view (filter (fun v => (Users.id v =? x)%string) l)
  = filter (fun g => (fst (fst (fst g)) =? x)%string) (map gate_view l).
Proof.
  induction l as [|a l IH]; [reflexivity|]. cbn [filter map gate_view fst].
  destruct (Users.id a =? x)%string; cbn [map]; now rewrite IH.
Qed.

(** The account selected by id is still selected, with the same view,
    after the accounts have grown. *)
Lemma selected_account_stays (x : string) us us' u :
  accounts_grow us us' ->
  single (filter (fun v => (Users.id v =? x)%string) us) = Some u ->
  exists u',
    single (filter (fun v => (Users.id v =? x)%string) us') = Some u'
    /\ gate_view u' = gate_view u.
Proof.
  intros (extra & Hmap & Hnew) Hsel.
  pose proof (single_inv _ _ Hsel) as Hone.
  apply single_filter_found in Hsel as [Hin Hid]. apply String.eqb_eq in Hid.
  assert (Hextra : filter (fun v => (Users.id v =? x)%string) extra = []).
  { assert (Hall : forall e, In e extra -> (Users.id e =? x)%string = false).
    { intros e He. apply String.eqb_neq. rewrite <- Hid. now apply Hnew. }
    clear -Hall. induction extra as [|a l IH]; [reflexivity|]. cbn [filter].
    rewrite (Hall a (or_introl eq_refl)). apply IH.
    intros e He. apply Hall. now right. }
  assert (Hview : map gate_view (filter (fun v => (Users.id v =? x)%string) us')
                  = [gate_view u]).
  { rewrite filter_gate_view, Hmap, <- filter_gate_view, filter_app, Hone, Hextra.
    reflexivity. }
  destruct (filter (fun v => (Users.id v =? x)%string) us') as [|u' [|u'' l]];
    cbn in Hview; try discriminate.
  assert (Hg : gate_view u' = gate_view u) by congruence.
  exists u'. now split.
Qed.

Section GateSurvives.
Context {E : Env}.

(** X18.  Neither logout nor a password change nor any other register,
    login or refresh request shuts out an access token: a header that
    [authenticateToken] lets through at some time is let through at the
    same time, with the same [req.user], after any sequence of such
    requests. *)
Theorem access_token_outlives_requests authorization now db who calls :
  authenticateToken authorization now db = Next who ->
  authenticateToken authorization now (run_calls calls db) = Next who.
Proof.
  unfold authenticateToken.
  destruct (bearer authorization) as [token|]; [|discriminate].
  destruct (verifyAccessToken token now) as [decoded|]; [|discriminate].
  destruct (single (filter (fun u => (Users.id u =? userId decoded)%string)
                      (users db))) as [u|] eqn:Hsel; [|discriminate].
  destruct (Users.is_active u) eqn:Hactive; cbn [negb]; [|discriminate].
  intros Hnext.
  destruct (selected_account_stays (userId decoded) (users db)
              (users (run_calls calls db)) u
              (writes_accounts _ _ (run_calls_writes calls db)) Hsel)
    as (u' & -> & Hview).
  unfold gate_view in Hview. inversion Hview as [[Hi Hn He Ha]].
  rewrite Ha, Hactive. cbn [negb]. rewrite <- Hnext.
  unfold identity_of. now rewrite Hi, Hn, He.
Qed.

(** X19.  [optionalAuth] sets [req.user] exactly when [authenticateToken]
    lets the same request through, and to the same value. *)
Theorem optionalAuth_agrees authorization now db who :
  optionalAuth authorization now db = Some who
  <-> authenticateToken authorization now db = Next who.
Proof.
  unfold optionalAuth, authenticateToken, unauthorized.
  destruct (bearer authorization) as [token|]; [|split; discriminate].
  destruct (verifyAccessToken token now) as [decoded|]; [|split; discriminate].
  destruct (single _) as [u|]; [|split; discriminate].
  destruct (negb (Users.is_active u)); [split; discriminate|].
  split; intros H; inversion H; reflexivity.
Qed.
End GateSurvives.

(* ===================================================================== *)
(** ** Account deletion *)
(* ===================================================================== *)

Lemma no_user_after_delete uid db : user_exists uid (delete_user uid db) = false.
Proof.
  unfold user_exists, delete_user. cbn [users].
  induction (users db) as [|a l IH]; [reflexivity|]. cbn [filter].
  destruct (Users.id a =? uid)%string eqn:Ha; cbn [negb]; [exact IH|].
  cbn [existsb]. now rewrite Ha, IH.
Qed.

Lemma not_selected_absent uid (l : list Users.row) :
  existsb (fun u => (Users.id u =? uid)%string) l = false ->
  filter (fun u => (Users.id u =? uid)%string) l = [].
Proof.
  induction l as [|a l IH]; [reflexivity|]. cbn [existsb filter].
  intros H. apply orb_false_elim in H as [Ha Hl]. rewrite Ha. now apply IH.
Qed.

Section Deletion.
Context {E : Env}.

Lemma deleteAccount_success req password password_ db u :
  or_null password = Some password_ ->
  single (filter (fun v => (Users.id v =? req_user_id req)%string) (users db))
  = Some u ->
  comparePassword password_ (Users.password_hash u) = true ->
  deleteAccount req password db
  = (delete_user (req_user_id req) (append_log (deletion_row req u) db),
     mkResponse 200 true "Account deleted successfully" None).
Proof.
  intros Hgiven Hfound Hpw.
  unfold deleteAccount, handle. rewrite Hgiven.
  unfold bind at 1, select_users, query. rewrite Hfound, Hpw. cbn [negb].
  unfold bind at 1. rewrite logAuthEvent_appends; [reflexivity|].
  intros uid Huid. apply or_null_some in Huid as [<- _].
  apply single_filter_found in Hfound as [Hin Hid].
  apply String.eqb_eq in Hid. rewrite <- Hid. now apply user_exists_In.
Qed.

(** X20.  A deletion with the right password answers 200 and leaves no
    account with the caller's id, no ledger row of the caller, and no
    audit row that names the caller: the store's cascade also blanks the
    user id of the "account_deletion" row written just before.  After it,
    [authenticateToken] lets no token of the caller through and no
    refresh with a token claiming the caller's id returns. *)
Theorem account_deletion_is_complete req password password_ db u :
  or_null password = Some password_ ->
  single (filter (fun v => (Users.id v =? req_user_id req)%string) (users db))
  = Some u ->
  comparePassword password_ (Users.password_hash u) = true ->
  let r := deleteAccount req password db in
  let uid := req_user_id req in
  snd r = mkResponse 200 true "Account deleted successfully" None
  /\ user_exists uid (fst r) = false
  /\ (forall row, In row (refresh_tokens (fst r)) -> RefreshTokens.user_id row <> uid)
  /\ (forall e, In e (auth_logs (fst r)) -> AuthLogs.user_id e <> Some uid)
  /\ (exists older last_row,
         auth_logs (fst r) = (older ++ [last_row])%list
         /\ List.length older = List.length (auth_logs db)
         /\ AuthLogs.event_type last_row = "account_deletion"
         /\ AuthLogs.user_id last_row = None)
  /\ (forall authorization now who,
         authenticateToken authorization now (fst r) = Next who ->
         ident_id who <> uid)
  /\ (forall t now token_uuid row_id p db' res,
         jwt_decode t = Returned (Some p) ->
         userId p = uid ->
         refreshAccessToken t now token_uuid row_id (fst r)
         <> (db', Returned res)).
Proof.
  intros Hgiven Hfound Hpw r uid. subst r.
  rewrite (deleteAccount_success req password password_ db u Hgiven Hfound Hpw).
  cbn [fst snd]. fold uid.
  set (d := delete_user uid (append_log (deletion_row req u) db)).
  assert (Hgone : user_exists uid d = false) by apply no_user_after_delete.
  assert (Hnone : filter (fun v => (Users.id v =? uid)%string) (users d) = []).
  { now apply not_selected_absent. }
  split; [reflexivity|]. split; [exact Hgone|].
  split.
  { intros row Hin. unfold d in Hin. cbn [delete_user refresh_tokens] in Hin.
    apply filter_In in Hin as [_ Hrow]. apply negb_true_iff in Hrow.
    now apply String.eqb_neq. }
  split.
  { intros e Hin. unfold d in Hin. cbn [delete_user auth_logs] in Hin.
    apply in_map_iff in Hin as (e0 & <- & _).
    destruct (AuthLogs.user_id e0) as [v|] eqn:Hv; [|now rewrite Hv].
    destruct (String.eqb_spec v uid) as [->|Hne]; cbn; [discriminate|].
    rewrite Hv. congruence. }
  split.
  { unfold d. cbn [delete_user append_log auth_logs]. rewrite map_app.
    cbn [map]. do 2 eexists. split; [reflexivity|].
    split; [apply length_map|].
    unfold deletion_row, auth_log_row. cbn [AuthLogs.user_id ev_userId].
    destruct (or_null (Some (req_user_id req))) as [v|] eqn:Hv.
    - apply or_null_some in Hv as [<- _]. fold uid. rewrite String.eqb_refl.
      now split.
    - now split. }
  split.
  { intros authorization now who. unfold authenticateToken.
    destruct (bearer authorization) as [token|]; [|discriminate].
    destruct (verifyAccessToken token now) as [decoded|]; [|discriminate].
    destruct (single (filter (fun v => (Users.id v =? userId decoded)%string)
                        (users d))) as [u'|] eqn:Hsel; [|discriminate].
    destruct (negb (Users.is_active u')); [discriminate|].
    intros Hnext. inversion Hnext. cbn [ident_id].
    apply single_filter_found in Hsel as [Hin' _]. intros Heq.
    assert (Htrue : user_exists uid d = true).
    { rewrite <- Heq. now apply user_exists_In. }
    congruence. }
  intros t now token_uuid row_id p db' res Hp Hclaim Hrun.
  apply refreshAccessToken_returned_conditions in Hrun
    as (p0 & st0 & u0 & Hv0 & _ & _ & Hu0 & _).
  apply jwt_verify_decode in Hv0. rewrite Hp in Hv0. inversion Hv0; subst p0.
  rewrite Hclaim, Hnone in Hu0. discriminate.
Qed.
End Deletion.

(* ===================================================================== *)
(** ** Availability of a username or an email *)
(* ===================================================================== *)

Lemma single_none_of_two {A : Type} (f : A -> bool) (l : list A) (a b : A) :
  In a l -> In b l -> a <> b -> f a = true -> f b = true ->
  single (filter f l) = None.
Proof.
  intros Ha Hb Hab Hfa Hfb.
  destruct (single (filter f l)) as [r|] eqn:Hs; [|reflexivity].
  apply single_inv in Hs.
  assert (Har : In a (filter f l)) by (apply filter_In; now split).
  assert (Hbr : In b (filter f l)) by (apply filter_In; now split).
  rewrite Hs in Har, Hbr.
  destruct Har as [<- | []]. destruct Hbr as [<- | []]. contradiction.
Qed.

Lemma taken_of_member (key : Users.row -> string) (l : list Users.row) a :
  In a l -> existsb (fun v => (key v =? key a)%string) l = true.
Proof.
  intros Ha. apply existsb_exists. exists a. split; [exact Ha | apply String.eqb_refl].
Qed.

(** X21.  Asked about one field only, [checkAvailability] answers
    truthfully in a store where that field is unique: the field is
    reported free exactly when no account carries it. *)
Theorem availability_of_one_field x db :
  x <> "" ->
  (List.length (filter (fun r => (Users.username r =? x)%string) (users db))
   <= 1)%nat ->
  (List.length (filter (fun r => (Users.email r =? x)%string) (users db))
   <= 1)%nat ->
  checkAvailability (Some x) None db
  = Available (Some (negb (username_taken x db))) None
  /\ checkAvailability None (Some x) db
     = Available None (Some (negb (email_taken x db))).
Proof.
  intros Hx Hun Hem.
  assert (Hnull : or_null (Some x) = Some x) by (destruct x; [contradiction|reflexivity]).
  assert (Hone : forall (key : Users.row -> string),
             (List.length (filter (fun r => (key r =? x)%string) (users db)) <= 1)%nat ->
             field_free (Some x)
               (single (filter (fun r => (key r =? x)%string) (users db))) key
             = Some (negb (existsb (fun v => (key v =? x)%string) (users db)))).
  { intros key Hlen. unfold field_free. rewrite Hnull.
    destruct (filter (fun r => (key r =? x)%string) (users db))
      as [|a [|b l]] eqn:Hf.
    - cbn [single]. f_equal.
      assert (Hfalse : existsb (fun v => (key v =? x)%string) (users db) = false).
      { destruct (existsb _ (users db)) eqn:Hex; [|reflexivity].
        apply existsb_exists in Hex as (v & Hv & Hk).
        assert (Hmem : In v (filter (fun r => (key r =? x)%string) (users db)))
          by (apply filter_In; now split).
        rewrite Hf in Hmem. destruct Hmem. }
      now rewrite Hfalse.
    - cbn [single].
      assert (Ha : In a (filter (fun r => (key r =? x)%string) (users db)))
        by (rewrite Hf; now left).
      apply filter_In in Ha as [Ha Hk]. rewrite Hk. f_equal.
      assert (Htrue : existsb (fun v => (key v =? x)%string) (users db) = true).
      { apply existsb_exists. now exists a. }
      now rewrite Htrue.
    - cbn [List.length] in Hlen. lia. }
  unfold checkAvailability, availability_lookup, username_taken, email_taken.
  rewrite Hnull. cbn [or_null]. split.
  - rewrite (Hone Users.username Hun). reflexivity.
  - rewrite (Hone Users.email Hem). reflexivity.
Qed.

(** X22.  Asked about a username and an email that belong to two
    different accounts, [checkAvailability] reports both as free: the
    query selects two rows, [.single()] yields none, and both tests see
    no existing user. *)
Theorem availability_of_two_taken_fields db a b :
  In a (users db) ->
  In b (users db) ->
  a <> b ->
  Users.username a <> "" ->
  Users.email b <> "" ->
  checkAvailability (Some (Users.username a)) (Some (Users.email b)) db
  = Available (Some true) (Some true)
  /\ username_taken (Users.username a) db = true
  /\ email_taken (Users.email b) db = true.
Proof.
  intros Ha Hb Hab Hna Hnb.
  assert (Hu : or_null (Some (Users.username a)) = Some (Users.username a))
    by (destruct (Users.username a); [contradiction|reflexivity]).
  assert (He : or_null (Some (Users.email b)) = Some (Users.email b))
    by (destruct (Users.email b); [contradiction|reflexivity]).
  split; [|split].
  - unfold checkAvailability, availability_lookup, field_free. rewrite Hu, He.
    rewrite (single_none_of_two _ _ a b Ha Hb Hab); [reflexivity | |].
    + unfold username_or_email. now rewrite String.eqb_refl.
    + unfold username_or_email. now rewrite String.eqb_refl, orb_true_r.
  - apply (taken_of_member Users.username _ a Ha).
  - apply (taken_of_member Users.email _ b Hb).
Qed.

(* ===================================================================== *)
(** ** Password strength *)
(* ===================================================================== *)

(** X23.  For every password, the score and the number of feedback
    messages add up to five, and the password is rated strong exactly
    when at most one message is given.  One requirement, the length
    included, may be missed: a password shorter than 8 characters is
    rated strong exactly when it has a lowercase letter, an uppercase
    letter, a digit and a special character. *)
Theorem strength_score_and_feedback password :
  let s := checkPasswordStrength password in
  (score s + List.length (feedback s) = 5)%nat
  /\ (isStrong s = true <-> (List.length (feedback s) <= 1)%nat)
  /\ (feedback s = [] <-> score s = 5%nat)
  /\ ((String.length password < 8)%nat ->
      (isStrong s = true
       <-> has is_lower password && has is_upper password
           && has is_digit password && has is_special password = true)).
Proof.
  unfold checkPasswordStrength, checks_score, getPasswordFeedback, password_checks.
  cbn [score feedback isStrong chk_length chk_lowercase chk_uppercase chk_number
       chk_special].
  destruct (Nat.leb_spec 8 (String.length password)) as [Hlong|Hshort];
    destruct (has is_lower password), (has is_upper password),
      (has is_digit password), (has is_special password);
    cbn; repeat split; intros; try reflexivity; try discriminate; try lia.
Qed.

(** Four characters, one of each class. *)
Lemma strength_score_and_feedback_witness :
  isStrong (checkPasswordStrength "aA1!") = true
  /\ feedback (checkPasswordStrength "aA1!")
     = ["Password must be at least 8 characters long"].
Proof.
  destruct (strength_score_and_feedback "aA1!") as (_ & _ & _ & Hshort).
  split; [|reflexivity].
  apply Hshort; [cbn; lia | reflexivity].
Defined.

(* ===================================================================== *)
(** ** Revoking sessions *)
(* ===================================================================== *)

Lemma kept_by_revoke (f keep : RefreshTokens.row -> bool)
      (l : list RefreshTokens.row) :
  (forall r, keep (RefreshTokens.revoke r) = keep r) ->
  (forall r, f r = true -> keep r = false) ->
  filter keep (map (fun r => if f r then RefreshTokens.revoke r else r) l)
  = filter keep l.
Proof.
  intros Hstable Hdisjoint. induction l as [|a l IH]; [reflexivity|].
  cbn [map filter]. rewrite IH. destruct (f a) eqn:Hfa; [|reflexivity].
  now rewrite Hstable, (Hdisjoint a Hfa).
Qed.

Section RevokingSessions.
Context {E : Env}.



(** X25.  [revokeSession] with a path parameter that the store reads as
    a uuid answers 200 whether or not a row was hit.  When that id is the
    one of the caller's row for a refresh token issued to the caller,
    that token is refused as invalid from then on; rows with another id
    are as they were.  With a path parameter that is not the text of a
    uuid the store rejects the update: the answer is 500 with
    'Failed to revoke session' and nothing is written. *)
Theorem revoke_session_kills_its_token req db :
  let uid := req_user_id req in
  (forall sid,
      let r := revokeSession req (Uuid sid) db in
      snd r = mkResponse 200 true "Session revoked successfully" None
      /\ users (fst r) = users db
      /\ auth_logs (fst r) = auth_logs db
      /\ filter (fun q => negb (RefreshTokens.id q =? sid)%string)
                (refresh_tokens (fst r))
         = filter (fun q => negb (RefreshTokens.id q =? sid)%string)
                  (refresh_tokens db)
      /\ (forall t,
             Issued t uid db ->
             (forall p q,
                 jwt_decode t = Returned (Some p) -> In q (refresh_tokens db) ->
                 Some (RefreshTokens.token_id q) = tokenId p ->
                 RefreshTokens.id q = sid) ->
             forall calls now token_uuid row_id,
             exists e,
               refreshAccessToken t now token_uuid row_id
                 (run_calls calls (fst r))
               = (run_calls calls (fst r), Thrown e)
               /\ error_kind e = InvalidTokenError))
  /\ (forall raw,
         revokeSession req (NotUuid raw) db
         = (db, mkResponse 500 false "Failed to revoke session" None)).
Proof.
  intros uid. split; [|reflexivity].
  intros sid r. subst r.
  unfold revokeSession, handle, bind, attempt, revoke_own_session, ret.
  cbn [fst snd]. fold uid.
  split; [reflexivity|]. split; [reflexivity|]. split; [reflexivity|]. split.
  { cbn [revoke_where refresh_tokens]. apply kept_by_revoke.
    - reflexivity.
    - intros q Hq. unfold own_session in Hq. apply andb_prop in Hq as [Hq _].
      now rewrite Hq. }
  intros t Hissued Hrow calls now token_uuid row_id.
  destruct (issued_owned t uid db Hissued)
    as (p & tid & Hp & Htid & Hne & Hknown & Hown).
  apply (dead_refresh_fails t p); [exact Hp|].
  eapply dead_writes; [apply run_calls_writes|].
  rewrite Htid. cbn [js_string]. split.
  - apply (ledger_knows_write tid db); [constructor | exact Hknown].
  - intros q' Hin' Htid' _. cbn [revoke_where refresh_tokens] in Hin'.
    apply in_revoked_map in Hin' as (q & Hq & Ht & _ & _ & _ & Hhit).
    apply Hhit. unfold own_session.
    rewrite (Hrow p q Hp Hq), (Hown q Hq), !String.eqb_refl;
      [reflexivity | congruence | congruence].
Qed.
End RevokingSessions.

(* ===================================================================== *)
(** ** The rows asked for by [getAuthLogs] *)
(* ===================================================================== *)

Lemma decimal_rev_revapp a b : Decimal.rev (Decimal.revapp a b) = Decimal.revapp b a.
Proof.
  unfold Decimal.rev. revert b.
  induction a; intro b; cbn; try reflexivity; now rewrite IHa.
Qed.

(** Appending digits to a decimal notation shifts and adds. *)
Lemma of_uint_app d ds :
  (Pos.of_uint (Decimal.app d ds)
   = Pos.of_uint d * 10 ^ DecimalPos.Unsigned.usize ds + Pos.of_uint ds)%N.
Proof.
  rewrite !DecimalPos.Unsigned.of_uint_alt. unfold Decimal.app.
  rewrite decimal_rev_revapp, DecimalPos.Unsigned.of_lu_revapp. lia.
Qed.

Lemma joined_digits offset ds :
  0 <= offset ->
  Z.of_int (Decimal.app_int (Z.to_int offset) ds)
  = offset * 10 ^ Z.of_N (DecimalPos.Unsigned.usize ds) + Z.of_N (N.of_uint ds).
Proof.
  intros Hoff. unfold N.of_uint.
  destruct offset as [|q|q]; [| |lia].
  - cbn [Z.to_int Decimal.app_int Z.of_int]. unfold Z.of_uint.
    rewrite of_uint_app. cbn. lia.
  - cbn [Z.to_int Decimal.app_int Z.of_int]. unfold Z.of_uint.
    rewrite of_uint_app, DecimalPos.Unsigned.of_to.
    rewrite N2Z.inj_add, N2Z.inj_mul, N2Z.inj_pow. reflexivity.
Qed.

Lemma usize_positive ds : (N.of_uint ds <> 0)%N -> (1 <= DecimalPos.Unsigned.usize ds)%N.
Proof. destruct ds; cbn; intros H; lia. Qed.

Lemma exact_in z : Z.abs z <= MAX_SAFE_INTEGER -> exact z = Some z.
Proof. unfold exact. intros H. apply Z.leb_le in H. now rewrite H. Qed.

(** X26.  The window [getAuthLogs] asks the store for, wherever every
    number of the computation is an integer of at most 2^53 - 1, which a
    double holds exactly.  With no [limit] in the query each page is 20
    rows, and with a [limit] but no [page] the first [limit] rows are
    asked for.  With both given as digits, [offset + limit - 1] appends
    the text of [limit] to the offset before subtracting: the window
    starts at (page-1)*limit and ends at (page-1)*limit*10^k + limit - 1
    for a [limit] of k digits, so from the second page on more than
    [limit] rows are asked for. *)
Theorem auth_logs_window :
  (forall page,
      let p := match page with
               | Some ds => Z.of_N (N.of_uint ds)
               | None => 1
               end in
      20 * p <= MAX_SAFE_INTEGER ->
      getAuthLogs_range page None = Some (20 * (p - 1), 20 * (p - 1) + 19))
  /\ (forall l,
         Z.of_N (N.of_uint l) <= MAX_SAFE_INTEGER ->
         getAuthLogs_range None (Some l) = Some (0, Z.of_N (N.of_uint l) - 1))
  /\ (forall p l,
         let page := Z.of_N (N.of_uint p) in
         let limit := Z.of_N (N.of_uint l) in
         let offset := (page - 1) * limit in
         let joined :=
           offset * 10 ^ Z.of_N (DecimalPos.Unsigned.usize l) + limit in
         1 <= page <= MAX_SAFE_INTEGER ->
         joined <= MAX_SAFE_INTEGER ->
         getAuthLogs_range (Some p) (Some l) = Some (offset, joined - 1)
         /\ (2 <= page -> 1 <= limit -> limit < (joined - 1) - offset + 1)).
Proof.
  split; [|split].
  - intros page p Hp.
    assert (H0 : 0 <= p) by (subst p; destruct page; lia).
    assert (Hpage : to_number (match page with
                               | Some ds => Digits ds
                               | None => Number 1
                               end) = Some p).
    { subst p. destruct page as [ds|]; cbn [to_number]; apply exact_in;
        unfold MAX_SAFE_INTEGER in *; lia. }
    unfold getAuthLogs_range, page_offset, plus_limit_minus_one.
    rewrite Hpage. cbn [to_number].
    rewrite (exact_in 20) by (unfold MAX_SAFE_INTEGER; lia).
    rewrite (exact_in (p - 1)) by (unfold MAX_SAFE_INTEGER in *; lia).
    rewrite (exact_in ((p - 1) * 20)) by (unfold MAX_SAFE_INTEGER in *; lia).
    rewrite (exact_in ((p - 1) * 20 + 20)) by (unfold MAX_SAFE_INTEGER in *; lia).
    rewrite (exact_in ((p - 1) * 20 + 20 - 1))
      by (unfold MAX_SAFE_INTEGER in *; lia).
    do 2 f_equal; lia.
  - intros l Hl.
    unfold getAuthLogs_range, page_offset, plus_limit_minus_one.
    cbn [to_number].
    rewrite (exact_in 1) by (unfold MAX_SAFE_INTEGER; lia).
    rewrite (exact_in (Z.of_N (N.of_uint l)))
      by (unfold MAX_SAFE_INTEGER in *; lia).
    change (1 - 1) with 0.
    rewrite (exact_in 0) by (unfold MAX_SAFE_INTEGER; lia).
    rewrite Z.mul_0_l.
    rewrite (exact_in 0) by (unfold MAX_SAFE_INTEGER; lia).
    rewrite joined_digits by lia. rewrite Z.mul_0_l, Z.add_0_l.
    rewrite (exact_in (Z.of_N (N.of_uint l)))
      by (unfold MAX_SAFE_INTEGER in *; lia).
    rewrite (exact_in (Z.of_N (N.of_uint l) - 1))
      by (unfold MAX_SAFE_INTEGER in *; lia).
    reflexivity.
  - intros p l page limit offset joined Hpage Hjoined.
    assert (Hl : 0 <= limit) by (subst limit; lia).
    assert (Hoff : 0 <= offset) by (subst offset; nia).
    assert (Hpow : 1 <= 10 ^ Z.of_N (DecimalPos.Unsigned.usize l)).
    { change 1 with (10 ^ 0) at 1. apply Z.pow_le_mono_r; lia. }
    assert (Hoffmax : offset <= joined) by (subst joined; nia).
    assert (Hlmax : limit <= joined) by (subst joined; nia).
    split.
    + unfold getAuthLogs_range, page_offset, plus_limit_minus_one.
      cbn [to_number]. fold page limit.
      rewrite (exact_in page) by (unfold MAX_SAFE_INTEGER in *; lia).
      rewrite (exact_in limit) by (unfold MAX_SAFE_INTEGER in *; lia).
      rewrite (exact_in (page - 1)) by (unfold MAX_SAFE_INTEGER in *; lia).
      fold offset.
      rewrite (exact_in offset) by (unfold MAX_SAFE_INTEGER in *; lia).
      rewrite joined_digits by exact Hoff. fold limit joined.
      rewrite (exact_in joined) by (unfold MAX_SAFE_INTEGER in *; lia).
      rewrite (exact_in (joined - 1)) by (unfold MAX_SAFE_INTEGER in *; lia).
      reflexivity.
    + intros Hp2 Hl1.
      assert (Hk : (1 <= DecimalPos.Unsigned.usize l)%N).
      { apply usize_positive. subst limit. lia. }
      assert (Hten : 10 <= 10 ^ Z.of_N (DecimalPos.Unsigned.usize l)).
      { change 10 with (10 ^ 1) at 1. apply Z.pow_le_mono_r; lia. }
      assert (Hpos : 1 <= offset) by (subst offset; nia).
      subst joined. nia.
Qed.

(** The query [?page=2&limit=20]: rows 20 to 2019 are asked for. *)
Lemma auth_logs_window_witness :
  getAuthLogs_range (Some (Decimal.D2 Decimal.Nil))
    (Some (Decimal.D2 (Decimal.D0 Decimal.Nil)))
  = Some (20, 2019).
Proof.
  destruct auth_logs_window as (_ & _ & Hboth).
  destruct (Hboth (Decimal.D2 Decimal.Nil) (Decimal.D2 (Decimal.D0 Decimal.Nil)))
    as [Hrange _].
  - cbn. unfold MAX_SAFE_INTEGER. lia.
  - cbn. unfold MAX_SAFE_INTEGER. lia.
  - exact Hrange.
Defined.

(* ===================================================================== *)
(** ** The key constraints in every reachable store *)
(* ===================================================================== *)

Lemma user_exists_iff uid db :
  user_exists uid db = true <-> In uid (map Users.id (users db)).
Proof.
  unfold user_exists. rewrite existsb_exists, in_map_iff. split.
  - intros (u & Hu & Hid). apply String.eqb_eq in Hid. now exists u.
  - intros (u & Hid & Hu). exists u. split; [exact Hu | now apply String.eqb_eq].
Qed.

Lemma map_key_kept {A : Type} (key : A -> string) (g : A -> A) (l : list A) :
  (forall a, key (g a) = key a) -> map key (map g l) = map key l.
Proof. intros Hg. rewrite map_map. apply map_ext. exact Hg. Qed.

Lemma NoDup_map_snoc {A : Type} (key : A -> string) (l : list A) (a : A) :
  NoDup (map key l) ->
  existsb (fun v => (key v =? key a)%string) l = false ->
  NoDup (map key (l ++ [a])).
Proof.
  intros Hnd Hfresh. rewrite map_app. cbn [map].
  apply NoDup_app; [exact Hnd | repeat constructor; intros [] |].
  intros k Hk [<- | []]. apply in_map_iff in Hk as (v & Hv & Hin).
  assert (Htrue : existsb (fun v => (key v =? key a)%string) l = true).
  { apply existsb_exists. exists v. split; [exact Hin | now apply String.eqb_eq]. }
  congruence.
Qed.

Lemma NoDup_map_filter {A : Type} (key : A -> string) (f : A -> bool) (l : list A) :
  NoDup (map key l) -> NoDup (map key (filter f l)).
Proof.
  induction l as [|a l IH]; [trivial|]. cbn [map filter]. intros Hnd.
  inversion Hnd as [|k ks Hnotin Hrest]; subst.
  destruct (f a); [|now apply IH]. cbn [map]. constructor; [|now apply IH].
  intros Hin. apply Hnotin. apply in_map_iff in Hin as (v & Hv & Hvin).
  apply filter_In in Hvin as [Hvin _]. apply in_map_iff. now exists v.
Qed.

Lemma at_most_one_of_NoDup {A : Type} (key : A -> string) (x : string) (l : list A) :
  NoDup (map key l) ->
  (List.length (filter (fun v => (key v =? x)%string) l) <= 1)%nat.
Proof.
  induction l as [|a l IH]; [cbn; lia|]. cbn [map filter]. intros Hnd.
  inversion Hnd as [|k ks Hnotin Hrest]; subst.
  destruct (String.eqb_spec (key a) x) as [Hax|_]; [|now apply IH].
  assert (Hnone : filter (fun v => (key v =? x)%string) l = []).
  { destruct (filter (fun v => (key v =? x)%string) l) as [|b rest] eqn:Hf;
      [reflexivity|].
    assert (Hb : In b (filter (fun v => (key v =? x)%string) l))
      by (rewrite Hf; now left).
    apply filter_In in Hb as [Hb Hbx]. apply String.eqb_eq in Hbx.
    exfalso. apply Hnotin. apply in_map_iff. exists b. split; [congruence | exact Hb]. }
  rewrite Hnone. cbn. lia.
Qed.

Lemma keys_ok_empty : keys_ok (mkDb [] [] []).
Proof.
  unfold keys_ok. cbn [users refresh_tokens auth_logs map].
  do 5 (split; [constructor|]). split; [intros r [] | intros e uid []].
Qed.

(** Each write keeps the constraints: the inserts test them, and the
    updates leave every key column as it is. *)
Lemma keys_ok_write db db' : write db db' -> keys_ok db -> keys_ok db'.
Proof.
  intros Hw (Hid & Hun & Hem & Hrid & Htid & Hfk & Hlog).
  destruct Hw as [uid p db | u db | r db | f db | e db].
  - destruct (update_user_cases uid p db) as [Hc|(v & _ & _ & Hc)]; rewrite Hc;
      cbn [fst]; [|repeat split; assumption].
    assert (Hsame : forall key : Users.row -> string,
               (forall a, key (Users.apply p a) = key a) ->
               map key (users (patch_users uid p db)) = map key (users db)).
    { intros key Hkey. unfold patch_users. cbn [users].
      apply map_key_kept. intros a. destruct (Users.id a =? uid)%string;
        [apply Hkey | reflexivity]. }
    assert (Hids : map Users.id (users (patch_users uid p db))
                   = map Users.id (users db)) by (apply Hsame; reflexivity).
    unfold keys_ok. rewrite Hids.
    rewrite (Hsame Users.username) by reflexivity.
    rewrite (Hsame Users.email) by reflexivity.
    do 5 (split; [assumption|]). split.
    + intros r Hr. apply user_exists_iff. rewrite Hids.
      apply user_exists_iff. now apply Hfk.
    + intros e v He Hv. apply user_exists_iff. rewrite Hids.
      apply user_exists_iff. now apply (Hlog e).
  - destruct (insert_user_cases u db)
      as [(e & Hc)|(w & _ & H1 & H2 & H3 & Hc)]; rewrite Hc;
      cbn [fst]; [repeat split; assumption|].
    unfold keys_ok. cbn [users refresh_tokens auth_logs].
    split; [now apply NoDup_map_snoc|].
    split; [now apply NoDup_map_snoc|].
    split; [now apply NoDup_map_snoc|].
    do 2 (split; [assumption|]). split.
    + intros r Hr. apply user_exists_iff. cbn [users]. rewrite map_app.
      apply in_or_app. left. apply user_exists_iff. now apply Hfk.
    + intros e v He Hv. apply user_exists_iff. cbn [users]. rewrite map_app.
      apply in_or_app. left. apply user_exists_iff. now apply (Hlog e).
  - unfold insert_refresh_token.
    destruct (existsb (fun q => (RefreshTokens.id q =? RefreshTokens.id r)%string)
                (refresh_tokens db)) eqn:H1; [repeat split; assumption|].
    destruct (existsb
                (fun q => (RefreshTokens.token_id q =? RefreshTokens.token_id r)%string)
                (refresh_tokens db)) eqn:H2; [repeat split; assumption|].
    destruct (user_exists (RefreshTokens.user_id r) db) eqn:H3;
      cbn [negb]; [|repeat split; assumption].
    cbn [fst]. unfold keys_ok. cbn [users refresh_tokens auth_logs].
    do 3 (split; [assumption|]).
    split; [now apply NoDup_map_snoc|].
    split; [now apply NoDup_map_snoc|]. split.
    + intros q Hq. apply in_app_or in Hq as [Hq | [<- | []]].
      * now apply Hfk.
      * exact H3.
    + exact Hlog.
  - unfold keys_ok, revoke_where. cbn [users refresh_tokens auth_logs].
    rewrite (map_key_kept RefreshTokens.id)
      by (intros a; now destruct (f a)).
    rewrite (map_key_kept RefreshTokens.token_id)
      by (intros a; now destruct (f a)).
    do 5 (split; [assumption|]). split.
    + intros r Hr. apply in_map_iff in Hr as (r0 & <- & Hr0).
      specialize (Hfk r0 Hr0). now destruct (f r0).
    + exact Hlog.
  - unfold insert_auth_log.
    assert (Hadd : (forall uid, AuthLogs.user_id e = Some uid ->
                                user_exists uid db = true) ->
                   keys_ok (append_log e db)).
    { intros Hnew. unfold keys_ok, append_log. cbn [users refresh_tokens auth_logs].
      do 5 (split; [assumption|]). split; [exact Hfk|].
      intros e' v He' Hv. apply in_app_or in He' as [He' | [<- | []]].
      - now apply (Hlog e').
      - now apply Hnew. }
    destruct (AuthLogs.user_id e) as [uid|] eqn:Huid.
    + destruct (user_exists uid db) eqn:Hex; cbn [fst].
      * apply Hadd. intros v Hv. congruence.
      * repeat split; assumption.
    + cbn [fst]. apply Hadd. intros v Hv. discriminate.
Qed.

Lemma keys_ok_writes db db' : writes db db' -> keys_ok db -> keys_ok db'.
Proof.
  induction 1 as [|d1 d2 d3 Hw _ IH]; [trivial|].
  intros Hok. apply IH. now apply (keys_ok_write d1).
Qed.

(** The deletion of an account keeps them: the ledger rows of the
    account go with it and its audit rows lose their user id. *)
Lemma keys_ok_delete uid db : keys_ok db -> keys_ok (delete_user uid db).
Proof.
  intros (Hid & Hun & Hem & Hrid & Htid & Hfk & Hlog).
  assert (Hstays : forall v, v <> uid -> user_exists v db = true ->
                             user_exists v (delete_user uid db) = true).
  { intros v Hv Hex. unfold user_exists in *. apply existsb_exists in Hex
      as (u & Hu & Huv). apply existsb_exists. exists u. split; [|exact Huv].
    cbn [delete_user users]. apply filter_In. split; [exact Hu|].
    apply negb_true_iff. apply String.eqb_neq. apply String.eqb_eq in Huv.
    congruence. }
  unfold keys_ok. cbn [delete_user users refresh_tokens auth_logs].
  do 5 (split; [now apply NoDup_map_filter|]). split.
  - intros r Hr. apply filter_In in Hr as [Hr Hne].
    apply negb_true_iff, String.eqb_neq in Hne. apply Hstays; [exact Hne|].
    now apply Hfk.
  - intros e v He Hv. apply in_map_iff in He as (e0 & <- & He0).
    destruct (AuthLogs.user_id e0) as [w|] eqn:Hw.
    + destruct (String.eqb_spec w uid) as [->|Hne].
      * cbn in Hv. discriminate.
      * rewrite Hw in Hv. inversion Hv; subst w.
        apply Hstays; [exact Hne|]. now apply (Hlog e0).
    + rewrite Hw in Hv. discriminate.
Qed.

Section Reachable.
Context {E : Env}.

Lemma run_any_keys c db : keys_ok db -> keys_ok (run_any c db).
Proof.
  intros Hok. destruct c as [c0 | req sessionId | req current | req password];
    cbn [run_any].
  - apply (keys_ok_writes db); [apply run_call_writes | exact Hok].
  - unfold revokeSession. rewrite handle_store.
    destruct sessionId as [raw|sid]; cbn; [exact Hok|].
    apply (keys_ok_write db); [apply write_revoke | exact Hok].
  - unfold revokeAllSessions. rewrite handle_store. cbn.
    apply (keys_ok_write db); [apply write_revoke | exact Hok].
  - unfold deleteAccount. cbv zeta. rewrite handle_store.
    destruct (or_null password) as [password_|]; [|exact Hok].
    unfold bind at 1, select_users, query.
    destruct (single _) as [user_|]; [|exact Hok].
    destruct (negb _); [exact Hok|].
    unfold bind at 1.
    match goal with
    | |- context [logAuthEvent ?ev db] =>
        pose proof (tame_logAuthEvent ev db) as Hlog;
        destruct (logAuthEvent ev db) as [d [[]|err]]
    end; cbn [fst] in Hlog |- *.
    + apply keys_ok_delete. now apply (keys_ok_writes db).
    + now apply (keys_ok_writes db).
Qed.

(** X27.  The PRIMARY KEY, UNIQUE and FOREIGN KEY constraints of the
    schema hold in the empty store and are kept by every sequence of
    register, login, refresh, logout, change-password, revoke-session,
    revoke-all-sessions and delete-account requests; where they hold, an
    id, a username or an email selects at most one account and every
    ledger row belongs to an account of the store. *)
Theorem reachable_stores_keep_the_keys calls :
  keys_ok (run_all calls (mkDb [] [] []))
  /\ (forall db, keys_ok db -> keys_ok (run_all calls db))
  /\ (forall db x,
         keys_ok db ->
         (List.length (filter (fun u => (Users.id u =? x)%string) (users db))
          <= 1)%nat
         /\ (List.length (filter (fun u => (Users.username u =? x)%string) (users db))
             <= 1)%nat
         /\ (List.length (filter (fun u => (Users.email u =? x)%string) (users db))
             <= 1)%nat)
  /\ (forall db r,
         keys_ok db ->
         In r (refresh_tokens db) ->
         exists u, In u (users db) /\ Users.id u = RefreshTokens.user_id r).
Proof.
  assert (Hall : forall db, keys_ok db -> keys_ok (run_all calls db)).
  { unfold run_all. induction calls as [|c cs IH]; intros db Hok; [exact Hok|].
    cbn [fold_left]. apply IH. now apply run_any_keys. }
  split; [apply Hall, keys_ok_empty|]. split; [exact Hall|]. split.
  - intros db x (Hid & Hun & Hem & _).
    split; [|split]; now apply at_most_one_of_NoDup.
  - intros db r (_ & _ & _ & _ & _ & Hfk & _) Hr.
    specialize (Hfk r Hr). unfold user_exists in Hfk.
    apply existsb_exists in Hfk as (u & Hu & Hid).
    exists u. split; [exact Hu | now apply String.eqb_eq].
Qed.
End Reachable.

(* ===================================================================== *)
(** ** The further statements on the concrete deployment *)
(* ===================================================================== *)

(** alice logs in at 2000000 and presents the access token at 2500000. *)
Lemma login_then_authenticated_witness :
  authenticateToken (E := Demo.env)
    (Scenario.bearer_header (accessToken (tokens Scenario.alice_login_result)))
    2500000 Scenario.db_logged_in
  = Next Scenario.alice_identity.
Proof.
  apply (login_then_authenticated (E := Demo.env) "alice" "Str0ng!Pw"
           (Some "10.0.0.7") (Some "curl") 2000000 "t-10" "r-10" Demo.db_alice
           Scenario.db_logged_in Scenario.alice_login_result).
  - vm_compute; reflexivity.
  - vm_compute; reflexivity.
  - vm_compute; reflexivity.
Defined.





(** alice logs in at 2000000 and exchanges the refresh token at 3000000. *)
Lemma login_then_refresh_witness :
  exists db'' res',
    refreshAccessToken (E := Demo.env)
      (refreshToken (tokens Scenario.alice_login_result)) 3000000 "t-11" "r-11"
      Scenario.db_logged_in
    = (db'', Returned res')
    /\ view_id (user res') = "u-alice".
Proof.
  destruct (login_then_refresh (E := Demo.env) "alice" "Str0ng!Pw"
              (Some "10.0.0.7") (Some "curl") 2000000 "t-10" "r-10" Demo.db_alice
              Scenario.db_logged_in Scenario.alice_login_result
              3000000 "t-11" "r-11")
    as (db'' & res' & Hrun & Hid & _).
  - vm_compute; reflexivity.
  - vm_compute; reflexivity.
  - vm_compute; reflexivity.
  - split; vm_compute; reflexivity.
  - exists db'', res'. split; [exact Hrun | exact Hid].
Defined.

(** alice refreshes while the store draws the row id "r-1" of her own
    row: the refresh throws and leaves that row revoked. *)
Lemma refresh_revokes_before_storing_witness :
  store_after (refreshAccessToken (E := Demo.env) Demo.alice_token 1500000
                 "t-5" "r-1" Demo.db_alice)
  = revoke_where (fun q => (RefreshTokens.id q =? "r-1")%string) Demo.db_alice.
Proof.
  assert (Hused : ~ fresh_ledger_keys "r-1" "t-5" Demo.db_alice)
    by (intros [H _]; vm_compute in H; discriminate).
  pose proof (refresh_revokes_before_storing (E := Demo.env) Demo.alice_token
                1500000 "t-5" "r-1" Demo.db_alice Scenario.alice_claims
                Scenario.alice_session Demo.alice_row) as H.
  cbv zeta in H. destruct H as (_ & Hstore & _).
  - vm_compute; reflexivity.
  - vm_compute; reflexivity.
  - cbn. lia.
  - vm_compute; reflexivity.
  - reflexivity.
  - exact Hused.
  - exact Hstore.
Defined.

(** alice's token and ledger row are in order, her account is
    deactivated. *)
Lemma refresh_without_active_user_witness :
  refreshAccessToken (E := Demo.env) Demo.alice_token 1500000 "t-5" "r-5"
    Scenario.db_deactivated
  = (Scenario.db_deactivated, Thrown UserNotFoundOrInactive).
Proof.
  apply (refresh_without_active_user (E := Demo.env) Demo.alice_token 1500000
           "t-5" "r-5" Scenario.db_deactivated Scenario.alice_claims
           Scenario.alice_session).
  - vm_compute; reflexivity.
  - vm_compute; reflexivity.
  - cbn. lia.
  - intros u Hu. vm_compute in Hu. injection Hu as <-. reflexivity.
Defined.

(** alice's registration row, revoked by her first refresh, is still
    there and still revoked after a later login. *)
Lemma ledger_rows_are_kept_witness :
  exists r',
    In r' (refresh_tokens
             (run_calls (E := Demo.env)
                [CallLogin Demo.browser "alice" "Str0ng!Pw" 2000000 "t-10" "r-10"]
                Demo.db_refreshed))
    /\ RefreshTokens.id r' = "r-1"
    /\ RefreshTokens.is_revoked r' = true.
Proof.
  destruct (ledger_rows_are_kept (E := Demo.env)
              [CallLogin Demo.browser "alice" "Str0ng!Pw" 2000000 "t-10" "r-10"]
              Demo.db_refreshed (RefreshTokens.revoke Scenario.alice_session))
    as (r' & Hin & Hid & _ & _ & _ & _ & Hrevoked).
  - vm_compute. left. reflexivity.
  - exists r'. split; [exact Hin|]. split; [exact Hid | now apply Hrevoked].
Defined.

(** A login with the right password on alice's deactivated account. *)
Lemma login_on_deactivated_account_witness :
  outcome (loginUser (E := Demo.env) "alice" "Str0ng!Pw" None None 2000000
             "t-10" "r-10" Scenario.db_deactivated)
  = Thrown AccountDeactivated.
Proof.
  apply (login_on_deactivated_account (E := Demo.env) "alice" "Str0ng!Pw" None
           None 2000000 "t-10" "r-10" Scenario.db_deactivated
           Scenario.alice_deactivated).
  - vm_compute; reflexivity.
  - reflexivity.
Defined.

(** A login with a wrong password for alice. *)
Lemma failed_login_issues_nothing_witness :
  refresh_tokens
    (fst (loginUser (E := Demo.env) "alice" "wrong" None None 2000000 "t-10"
            "r-10" Demo.db_alice))
  = refresh_tokens Demo.db_alice.
Proof.
  apply (failed_login_issues_nothing (E := Demo.env) "alice" "wrong" None None
           2000000 "t-10" "r-10" Demo.db_alice
           (fst (loginUser (E := Demo.env) "alice" "wrong" None None 2000000
                   "t-10" "r-10" Demo.db_alice))
           InvalidCredentials).
  vm_compute; reflexivity.
Defined.

(** alice's access token from her registration still opens the gate
    after she has logged out and changed her password. *)
Lemma access_token_outlives_requests_witness :
  authenticateToken (E := Demo.env)
    (Scenario.bearer_header (accessToken (tokens Demo.alice_result))) 1500000
    (run_calls (E := Demo.env) Scenario.logout_then_change Demo.db_alice)
  = Next Scenario.alice_identity.
Proof.
  apply (access_token_outlives_requests (E := Demo.env)
           (Scenario.bearer_header (accessToken (tokens Demo.alice_result)))
           1500000 Demo.db_alice Scenario.alice_identity
           Scenario.logout_then_change).
  vm_compute; reflexivity.
Defined.

(** alice deletes her account with the right password. *)
Lemma account_deletion_is_complete_witness :
  fst (deleteAccount (E := Demo.env) Demo.as_alice (Some "Str0ng!Pw") Demo.db_alice)
  = mkDb [] []
      [AuthLogs.mk None "register" None None true None
         (Some [("username", JStr "alice"); ("email", JStr "alice@x.com")]);
       AuthLogs.mk None "account_deletion" (Some "10.0.0.7") (Some "curl") true
         None (Some [("username", JStr "alice"); ("email", JStr "alice@x.com")])]
  /\ user_exists "u-alice"
       (fst (deleteAccount (E := Demo.env) Demo.as_alice (Some "Str0ng!Pw")
               Demo.db_alice))
     = false.
Proof.
  split; [vm_compute; reflexivity|].
  apply (account_deletion_is_complete (E := Demo.env) Demo.as_alice
           (Some "Str0ng!Pw") "Str0ng!Pw" Demo.db_alice Demo.alice_row).
  - reflexivity.
  - vm_compute; reflexivity.
  - vm_compute; reflexivity.
Defined.

(** With alice and bob registered, the username "alice" is reported
    taken. *)
Lemma availability_of_one_field_witness :
  checkAvailability (Some "alice") None Demo.db_alice_bob
  = Available (Some false) None.
Proof.
  apply (availability_of_one_field "alice" Demo.db_alice_bob).
  - discriminate.
  - vm_compute. apply le_n.
  - vm_compute. apply le_0_n.
Defined.

(** With alice and bob registered, alice's username together with bob's
    email is reported free twice. *)
Lemma availability_of_two_taken_fields_witness :
  checkAvailability (Some "alice") (Some "bob@x.com") Demo.db_alice_bob
  = Available (Some true) (Some true).
Proof.
  apply (availability_of_two_taken_fields Demo.db_alice_bob Demo.alice_row
           Scenario.bob_row).
  - vm_compute. left. reflexivity.
  - vm_compute. right. left. reflexivity.
  - discriminate.
  - discriminate.
  - discriminate.
Defined.


(** alice revokes the session "r-1" of her registration: its token is
    refused afterwards. *)
Lemma revoke_session_kills_its_token_witness :
  exists e,
    outcome (refreshAccessToken (E := Demo.env) Demo.alice_token 1600000
               "t-6" "r-6"
               (fst (revokeSession Demo.as_alice (Uuid "r-1") Demo.db_alice)))
    = Thrown e
    /\ error_kind e = InvalidTokenError.
Proof.
  pose proof (revoke_session_kills_its_token (E := Demo.env) Demo.as_alice
                Demo.db_alice) as H.
  cbv zeta in H. destruct H as (H & _).
  destruct (H "r-1") as (_ & _ & _ & _ & Hrefused).
  destruct (Hrefused Demo.alice_token) with (calls := @nil Call)
    (now := 1600000) (token_uuid := "t-6") (row_id := "r-6")
    as (e & Hrun & Hkind).
  - apply (issued_by_register (E := Demo.env) Demo.alice_token "u-alice"
             Demo.alice 1000000 "s1" "u-alice" "t-1" "r-1" Demo.empty
             Demo.db_alice Demo.alice_result).
    + discriminate.
    + vm_compute; reflexivity.
    + reflexivity.
    + reflexivity.
  - intros p q Hp Hq _. vm_compute in Hq. destruct Hq as [<- | []]. reflexivity.
  - exists e. split; [|exact Hkind]. unfold outcome.
    cbn [run_calls fold_left] in Hrun. now rewrite Hrun.
Defined.
